(** * loom-js [Client]: a shallow embedding of [src/client.ts]

    The development follows the TypeScript class [Client]: the commit
    pipeline ([commitTxAsync] and [_commitTxAsync]), the read-only calls, the
    contract-event translator ([_emitContractEvent]) and the lazy
    subscription installed by the constructor, and [disconnect].

    Conventions.
    - A [Uint8Array] is a [list byte]; a JS number that holds a code, a
      height or a nonce is a [Z]; an optional field [f?: T] is an [option T].
    - An [async] function is a state transformer over the channel store that
      ends in [Resolved v] or [Rejected e]; [await] is sequencing.  One
      operation runs to completion: interleavings of concurrent calls are
      not part of the model.
    - RPC channels are objects shared by reference: they live in a store
      ([list RPCClient]) and the client holds indices into it. *)

From Stdlib Require Import String Ascii List ZArith NArith Lia Bool Arith.
From Stdlib Require Import DecimalString.
Import ListNotations.

Local Open Scope string_scope.
Local Open Scope list_scope.

Definition byte : Type := Byte.byte.
Definition Uint8Array : Type := list byte.

(* ================================================================= *)
(** ** JavaScript values the client looks at *)

(** JS truthiness of a string: the empty string is falsy. *)
Definition truthy_string (s : string) : bool :=
  match s with
  | EmptyString => false
  | String _ _ => true
  end.

(** JS truthiness of an optional string ([undefined] is falsy too). *)
Definition truthy (o : option string) : bool :=
  match o with
  | Some s => truthy_string s
  | None => false
  end.

(** [`${n}`] for an integral number (below 1e21, where JS prints all
    digits). *)
Definition number_to_string (z : Z) : string :=
  NilZero.string_of_int (Z.to_int z).

(** Thrown values.  [JsError] is an instance of [Error] (a [TypeError] is
    one as well); [JsOther] stands for any rejection value that is not. *)
Inductive ErrorClass := ClsError | ClsTypeError.

Inductive JsThrown :=
| JsError (cls : ErrorClass) (message : string)
| JsOther (descr : string).

(** [new Error(msg)] *)
Definition new_Error (msg : string) : JsThrown := JsError ClsError msg.

(** The engine's message for a property read on [undefined]; its wording is
    engine specific, V8's is used. *)
Definition undefined_property_message (prop : string) : string :=
  "Cannot read property '" ++ prop ++ "' of undefined".

Definition property_of_undefined (prop : string) : JsThrown :=
  JsError ClsTypeError (undefined_property_message prop).

(** client.ts:98 *)
Definition INVALID_TX_NONCE_ERROR : string := "Invalid tx nonce".

(** client.ts:100-102, and the test inlined at client.ts:249. *)
Definition isInvalidTxNonceError (err : JsThrown) : bool :=
  match err with
  | JsError _ m => String.eqb m INVALID_TX_NONCE_ERROR
  | JsOther _ => false
  end.

(** How a promise settles. *)
Inductive Settled (A : Type) :=
| Resolved (a : A)
| Rejected (e : JsThrown).
Arguments Resolved {A} a.
Arguments Rejected {A} e.

(* ================================================================= *)
(** ** Wire encoding of binary payloads *)

Module Base64.

Local Open Scope N_scope.

Definition alphabet : string :=
  "ABCDEFGHIJKLMNOPQRSTUVWXYZabcdefghijklmnopqrstuvwxyz0123456789+/".

Definition pad : ascii := "="%char.

(** The character of a 6-bit value. *)
Definition char_of (n : N) : ascii :=
  match String.get (N.to_nat n) alphabet with
  | Some c => c
  | None => pad
  end.

(** The 6-bit value of a character of the alphabet. *)
Definition index_of (c : ascii) : option N :=
  let n := N_of_ascii c in
  if (65 <=? n) && (n <=? 90) then Some (n - 65)
  else if (97 <=? n) && (n <=? 122) then Some (n - 71)
  else if (48 <=? n) && (n <=? 57) then Some (n + 4)
  else if n =? 43 then Some 62
  else if n =? 47 then Some 63
  else None.

Definition byte_of_N (n : N) : byte :=
  match Byte.of_N (n mod 256) with
  | Some b => b
  | None => Byte.x00
  end.

Definition quad (a b c : N) : string :=
  String (char_of (a / 4))
    (String (char_of ((a mod 4) * 16 + b / 16))
       (String (char_of ((b mod 16) * 4 + c / 64))
          (String (char_of (c mod 64)) EmptyString))).

Fixpoint encode (bs : Uint8Array) : string :=
  match bs with
  | [] => EmptyString
  | [a] =>
      let x := Byte.to_N a in
      String (char_of (x / 4))
        (String (char_of ((x mod 4) * 16)) (String pad (String pad EmptyString)))
  | [a; b] =>
      let x := Byte.to_N a in
      let y := Byte.to_N b in
      String (char_of (x / 4))
        (String (char_of ((x mod 4) * 16 + y / 16))
           (String (char_of ((y mod 16) * 4)) (String pad EmptyString)))
  | a :: b :: c :: rest =>
      quad (Byte.to_N a) (Byte.to_N b) (Byte.to_N c) ++ encode rest
  end.

(** The 6-bit values of a text: it ends at the first pad character, and
    characters outside the alphabet are skipped. *)
Fixpoint sextets (s : string) : list N :=
  match s with
  | EmptyString => []
  | String c s' =>
      if Ascii.eqb c pad then []
      else match index_of c with
           | Some n => n :: sextets s'
           | None => sextets s'
           end
  end.

Fixpoint bytes_of (l : list N) : Uint8Array :=
  match l with
  | s1 :: s2 :: s3 :: s4 :: rest =>
      byte_of_N (s1 * 4 + s2 / 16)
        :: byte_of_N ((s2 mod 16) * 16 + s3 / 4)
        :: byte_of_N ((s3 mod 4) * 64 + s4)
        :: bytes_of rest
  | [s1; s2; s3] =>
      [byte_of_N (s1 * 4 + s2 / 16); byte_of_N ((s2 mod 16) * 16 + s3 / 4)]
  | [s1; s2] => [byte_of_N (s1 * 4 + s2 / 16)]
  | _ => []
  end.

Definition decode (s : string) : Uint8Array := bytes_of (sextets s).

End Base64.

(** Modelled from the spec: [Uint8ArrayToB64] of [./crypto-utils], which is
    not among the sources.  The spec calls the wire form of a binary payload
    base64 ("broadcast_tx_commit(base64 tx)", "base64-in/base64-out"): the
    standard alphabet with [=] padding. *)
Definition Uint8ArrayToB64 (bs : Uint8Array) : string := Base64.encode bs.

(** Modelled from the spec: [B64ToUint8Array] of [./crypto-utils], which is
    not among the sources.  The spec has it decode a base64 text to bytes
    and never fail in the result interpreter; so the decoder is total: it
    reads up to the first [=] and skips what is not in the alphabet. *)
Definition B64ToUint8Array (s : string) : Uint8Array := Base64.decode s.

(* ================================================================= *)
(** ** Data of the commit path *)

(** client.ts:12-16 *)
Record ITxHandlerResult := {
  code : option Z;
  log : option string;
  data : option string
}.

(** client.ts:18-23 *)
Record IBroadcastTxCommitResult := {
  check_tx : ITxHandlerResult;
  deliver_tx : ITxHandlerResult;
  hash : string;
  height : string
}.

(** client.ts:31-33.  A handler is a function of the bytes it is given; it
    resolves with new bytes or rejects. *)
Record ITxMiddlewareHandler := {
  Handle : Uint8Array -> Settled Uint8Array
}.

(** A protobuf [Message], of which the client only calls
    [serializeBinary()]. *)
Record Message := {
  serializeBinary : Uint8Array
}.

(** [retry.OperationOptions], with the fields client.ts:132-137 sets. *)
Record OperationOptions := {
  retries : nat;
  minTimeout : Z;
  maxTimeout : Z;
  randomize : bool
}.

(** client.ts:132-137 *)
Definition default_nonceRetryStrategy : OperationOptions :=
  {| retries := 5; minTimeout := 500; maxTimeout := 5000; randomize := true |}.

(** Modelled from the spec: [LocalAddress] and [Address] of [./address],
    which is not among the sources.  §3 gives a chain event a contract
    address and a caller address; an address is the chain id and the bytes
    of the local address that client.ts:603-610 builds it from. *)
Record LocalAddress := {
  bytes : Uint8Array
}.

Module Address.
Record t := {
  chainId : string;
  local : LocalAddress
}.
End Address.

(** Modelled from the spec: the enum [VMType] of [./proto/loom_pb], which
    is not among the sources; it is the [vmKind] of §4.6.  client.ts:307
    names the member [PLUGIN], [EVM] is the other kind. *)
Inductive VMType := PLUGIN | EVM.

(* ================================================================= *)
(** ** RPC channels *)

(** A parameter of a request.  [PLocalAddressText a] and [PAddressText a]
    stand for the texts [a.toString()] of a local address and of an address,
    which [./address] computes. *)
Inductive JsParam :=
| PUndefined
| PString (s : string)
| PBoolean (b : bool)
| PVMType (v : VMType)
| PLocalAddressText (a : LocalAddress)
| PAddressText (a : Address.t).

Inductive Params :=
| ParamArray (xs : list JsParam)
| ParamObject (fields : list (string * JsParam)).

Record Request := {
  method : string;
  params : Params
}.

(** What the node does with a request: it answers with a result, which may
    be absent ([undefined] or [null]), or the call fails. *)
Inductive Reply (A : Type) :=
| Answer (result : option A)
| Failure (e : JsThrown).
Arguments Answer {A} result.
Arguments Failure {A} e.

(** The far end of a channel, one behaviour for each instance
    [sendAsync<T>] of the source; the [nat] counts the requests the channel
    has sent before this one. *)
Record Node := {
  commit_reply : nat -> Request -> Reply IBroadcastTxCommitResult;
  string_reply : nat -> Request -> Reply string;
  boolean_reply : nat -> Request -> Reply bool;
  number_reply : nat -> Request -> Reply Z
}.

Module RPCClientEvent.
Inductive t := Connected | Disconnected | Error | Message.
Definition eqb (a b : t) : bool :=
  match a, b with
  | Connected, Connected | Disconnected, Disconnected
  | Error, Error | Message, Message => true
  | _, _ => false
  end.
End RPCClientEvent.

Module ClientEvent.
(** client.ts:35-56 *)
Inductive t := Contract | Error | Connected | Disconnected.
Definition value (e : t) : string :=
  match e with
  | Contract => "contractEvent"
  | Error => "error"
  | Connected => "connected"
  | Disconnected => "disconnected"
  end.
End ClientEvent.

(** The closures the constructor hands to a channel: the three forwarders
    to [_emitNetEvent] it gives the write client (client.ts:173-181), the
    three it gives a distinct read client (client.ts:187-195),
    [emitContractEvent] (client.ts:198-199); and any handler somebody else
    registered. *)
Inductive Role := WriteRole | ReadRole.

Inductive Handler :=
| NetForwarder (r : Role) (kind : ClientEvent.t)
| emitContractEvent
| ForeignHandler (n : nat).

Definition Role_eqb (a b : Role) : bool :=
  match a, b with
  | WriteRole, WriteRole | ReadRole, ReadRole => true
  | _, _ => false
  end.

Definition ClientEvent_eqb (a b : ClientEvent.t) : bool :=
  String.eqb (ClientEvent.value a) (ClientEvent.value b).

Definition Handler_eqb (a b : Handler) : bool :=
  match a, b with
  | NetForwarder r k, NetForwarder r' k' => Role_eqb r r' && ClientEvent_eqb k k'
  | emitContractEvent, emitContractEvent => true
  | ForeignHandler n, ForeignHandler m => Nat.eqb n m
  | _, _ => false
  end.

Definition Subscription : Type := RPCClientEvent.t * Handler.

Definition Subscription_eqb (a b : Subscription) : bool :=
  RPCClientEvent.eqb (fst a) (fst b) && Handler_eqb (snd a) (snd b).

(** Modelled from the spec: an [IJSONRPCClient] of
    [./internal/json-rpc-client], which is not among the sources.  §2 has a
    channel perform request/response calls, expose lifecycle and
    message-arrived signals and be closed; the record keeps the channel's
    current subscriptions and a log of every call the client makes on it. *)
Record RPCClient := {
  url : string;
  node : Node;
  sent : list Request;                   (* sendAsync calls, oldest first *)
  subscriptions : list Subscription;     (* handlers now attached *)
  on_calls : list Subscription;          (* calls of on() *)
  removeListener_calls : list Subscription;
  disconnect_calls : nat
}.

Definition ChanRef : Type := nat.

(** Modelled from the spec: [new WSRPCClient(url)] of
    [./internal/ws-rpc-client], not among the sources: a channel to the
    node at [url] (§4.4), on which nothing has happened yet. *)
Definition new_WSRPCClient (net : string -> Node) (u : string) : RPCClient :=
  {| url := u; node := net u; sent := []; subscriptions := [];
     on_calls := []; removeListener_calls := []; disconnect_calls := 0 |}.

(** Replace the object at a reference. *)
Fixpoint store_set {A : Type} (r : nat) (x : A) (h : list A) : list A :=
  match h, r with
  | [], _ => []
  | _ :: t, O => x :: t
  | y :: t, S r' => y :: store_set r' x t
  end.

(** Remove the last occurrence of [x], as [removeListener] of an event
    emitter does; [None] when there is none. *)
Fixpoint remove_last {A : Type} (eqb : A -> A -> bool) (x : A) (l : list A)
  : option (list A) :=
  match l with
  | [] => None
  | y :: t =>
      match remove_last eqb x t with
      | Some t' => Some (y :: t')
      | None => if eqb y x then Some t else None
      end
  end.

(* ================================================================= *)
(** ** Events *)

(** Modelled from the spec: the error payload of a push notification
    ([error?] in the schema of §6); its type is declared in
    [./internal/json-rpc-client], which is not among the sources.  It is an
    object, so it is truthy whenever it is there. *)
Module IJSONRPCError.
Record t := {
  code : Z;
  message : string
}.
End IJSONRPCError.

(** Modelled from the spec: the [result] of a push notification, whose
    type is declared in [./internal/ws-rpc-client], not among the sources.
    §6 gives the schema: [address{chain_id, local(base64)}],
    [caller{chain_id, local(base64)}], [block_height],
    [encoded_body(base64)], [tx_hash], [topics]. *)
Module IEventData.
Record address_t := {
  chain_id : string;
  local : string
}.
Record t := {
  address : address_t;
  caller : address_t;
  block_height : string;
  encoded_body : option string;
  tx_hash : string;
  topics : list string
}.
End IEventData.

(** Modelled from the spec: [IJSONRPCEvent] of [./internal/ws-rpc-client],
    not among the sources; §6 has [{id, error?, result?}]. *)
Module IJSONRPCEvent.
Record t := {
  id : string;
  error : option IJSONRPCError.t;
  result : option IEventData.t
}.
End IJSONRPCEvent.

(** client.ts:58-62 *)
Module IClientEventArgs.
Record t := {
  kind : ClientEvent.t;
  url : string
}.
End IClientEventArgs.

(** client.ts:68-72 *)
Module IClientErrorEventArgs.
Record t := {
  kind : ClientEvent.t;
  url : string;
  error : option IJSONRPCError.t
}.
End IClientErrorEventArgs.

(** client.ts:75-96 *)
Module IChainEventArgs.
Record t := {
  id : string;
  kind : ClientEvent.t;
  url : string;
  contractAddress : Address.t;
  callerAddress : Address.t;
  blockHeight : string;
  data : Uint8Array;
  topics : list string;
  transactionHash : string;
  transactionHashBytes : Uint8Array
}.
End IChainEventArgs.

(** The listeners of the client, which is an [EventEmitter]: the two hooks
    its constructor installs and the callbacks of the application. *)
Inductive Listener :=
| NewListenerHook          (* the closure of client.ts:201-205 *)
| RemoveListenerHook       (* the closure of client.ts:207-211 *)
| Consumer (n : nat).

Definition Listener_eqb (a b : Listener) : bool :=
  match a, b with
  | NewListenerHook, NewListenerHook => true
  | RemoveListenerHook, RemoveListenerHook => true
  | Consumer n, Consumer m => Nat.eqb n m
  | _, _ => false
  end.

(** What [emit] passes to the listeners. *)
Inductive EmitArgs :=
| ListenerArgs (event : string) (listener : Listener)
| NetArgs (a : IClientEventArgs.t)
| ErrorArgs (a : IClientErrorEventArgs.t)
| ChainArgs (a : IChainEventArgs.t).

(* ================================================================= *)
(** ** The client and the store *)

(** client.ts:117-137.  [_events] is the listener table of the
    [EventEmitter] the class extends: event names in order of first
    registration, each with its listeners in order.  [emitted] and
    [delivered] are ghost logs: every [emit] call, and every call of an
    application callback. *)
Record Client := {
  chainId : string;
  _writeClient : ChanRef;
  _readClient : ChanRef;
  txMiddleware : list ITxMiddlewareHandler;
  nonceRetryStrategy : OperationOptions;
  _events : list (string * list Listener);
  emitted : list (string * EmitArgs);
  delivered : list (nat * EmitArgs)
}.

Record World := {
  self : Client;
  heap : list RPCClient
}.

Definition Async (A : Type) : Type := World -> Settled A * World.

Definition with_heap (h : list RPCClient) (w : World) : World :=
  {| self := self w; heap := h |}.

Definition with_self (c : Client) (w : World) : World :=
  {| self := c; heap := heap w |}.

Definition with_events (e : list (string * list Listener)) (c : Client) : Client :=
  {| chainId := chainId c; _writeClient := _writeClient c;
     _readClient := _readClient c; txMiddleware := txMiddleware c;
     nonceRetryStrategy := nonceRetryStrategy c; _events := e;
     emitted := emitted c; delivered := delivered c |}.

Definition log_emit (ev : string) (a : EmitArgs) (c : Client) : Client :=
  {| chainId := chainId c; _writeClient := _writeClient c;
     _readClient := _readClient c; txMiddleware := txMiddleware c;
     nonceRetryStrategy := nonceRetryStrategy c; _events := _events c;
     emitted := emitted c ++ [(ev, a)]; delivered := delivered c |}.

Definition log_delivery (n : nat) (a : EmitArgs) (c : Client) : Client :=
  {| chainId := chainId c; _writeClient := _writeClient c;
     _readClient := _readClient c; txMiddleware := txMiddleware c;
     nonceRetryStrategy := nonceRetryStrategy c; _events := _events c;
     emitted := emitted c; delivered := delivered c ++ [(n, a)] |}.

(** *** Calls on a channel *)

(** A reference that points outside the store; the constructor never
    produces one. *)
Definition dangling : JsThrown := JsOther "dangling channel reference".

(** The channel object after one more call on it. *)
Definition channel_sent (req : Request) (ch : RPCClient) : RPCClient :=
  {| url := url ch; node := node ch; sent := sent ch ++ [req];
     subscriptions := subscriptions ch; on_calls := on_calls ch;
     removeListener_calls := removeListener_calls ch;
     disconnect_calls := disconnect_calls ch |}.

Definition channel_subscribed (s : Subscription) (ch : RPCClient) : RPCClient :=
  {| url := url ch; node := node ch; sent := sent ch;
     subscriptions := subscriptions ch ++ [s]; on_calls := on_calls ch ++ [s];
     removeListener_calls := removeListener_calls ch;
     disconnect_calls := disconnect_calls ch |}.

Definition channel_unsubscribed (s : Subscription) (ch : RPCClient) : RPCClient :=
  {| url := url ch; node := node ch; sent := sent ch;
     subscriptions := match remove_last Subscription_eqb s (subscriptions ch) with
                      | Some l => l
                      | None => subscriptions ch
                      end;
     on_calls := on_calls ch;
     removeListener_calls := removeListener_calls ch ++ [s];
     disconnect_calls := disconnect_calls ch |}.

Definition channel_closed (ch : RPCClient) : RPCClient :=
  {| url := url ch; node := node ch; sent := sent ch;
     subscriptions := subscriptions ch; on_calls := on_calls ch;
     removeListener_calls := removeListener_calls ch;
     disconnect_calls := S (disconnect_calls ch) |}.

(** The object at [c] is mutated in place: every holder of the reference
    sees the change. *)
Definition update_channel (c : ChanRef) (f : RPCClient -> RPCClient)
  (w : World) : World :=
  match nth_error (heap w) c with
  | None => w
  | Some ch => with_heap (store_set c (f ch) (heap w)) w
  end.

(** [channel.sendAsync<T>(method, params)]: the request is logged and the
    node's reply for the instance [T] settles the promise. *)
Definition sendAsync {A : Type} (pick : Node -> nat -> Request -> Reply A)
  (c : ChanRef) (m : string) (p : Params) : Async (option A) :=
  fun w =>
    match nth_error (heap w) c with
    | None => (Rejected dangling, w)
    | Some ch =>
        let req := {| method := m; params := p |} in
        (match pick (node ch) (length (sent ch)) req with
         | Answer r => Resolved r
         | Failure e => Rejected e
         end,
         update_channel c (channel_sent req) w)
    end.

(** [channel.on(event, handler)] *)
Definition channel_on (c : ChanRef) (ev : RPCClientEvent.t) (h : Handler)
  (w : World) : World :=
  update_channel c (channel_subscribed (ev, h)) w.

(** [channel.removeListener(event, handler)]: the last matching
    registration goes, if there is one. *)
Definition channel_removeListener (c : ChanRef) (ev : RPCClientEvent.t)
  (h : Handler) (w : World) : World :=
  update_channel c (channel_unsubscribed (ev, h)) w.

(** [channel.disconnect()] *)
Definition channel_disconnect (c : ChanRef) (w : World) : World :=
  update_channel c channel_closed w.

(* ================================================================= *)
(** ** The client as an [EventEmitter]

    The class extends Node's [EventEmitter].  Its rules, as far as the
    client relies on them: [on] first emits ['newListener'] (when that event
    has listeners) and then appends the listener; [removeListener] removes
    the last matching registration and then emits ['removeListener'] (when
    that event has listeners); [emit] calls the listeners registered at that
    moment, in order, and throws for an ['error'] nobody listens to. *)

Fixpoint listeners_of (ev : string) (t : list (string * list Listener))
  : list Listener :=
  match t with
  | [] => []
  | (k, ls) :: rest => if String.eqb k ev then ls else listeners_of ev rest
  end.

Fixpoint delete_key (ev : string) (t : list (string * list Listener))
  : list (string * list Listener) :=
  match t with
  | [] => []
  | (k, ls) :: rest =>
      if String.eqb k ev then rest else (k, ls) :: delete_key ev rest
  end.

Fixpoint replace_key (ev : string) (ls' : list Listener)
  (t : list (string * list Listener)) : list (string * list Listener) :=
  match t with
  | [] => []
  | (k, ls) :: rest =>
      if String.eqb k ev then (k, ls') :: rest
      else (k, ls) :: replace_key ev ls' rest
  end.

(** [events[type]] gets one more listener; a new key goes last. *)
Fixpoint add_listener (ev : string) (l : Listener)
  (t : list (string * list Listener)) : list (string * list Listener) :=
  match t with
  | [] => [(ev, [l])]
  | (k, ls) :: rest =>
      if String.eqb k ev then (k, ls ++ [l]) :: rest
      else (k, ls) :: add_listener ev l rest
  end.

(** The table with the listeners of [ev] set to [ls]; an event without
    listeners has no key. *)
Definition put_listeners (ev : string) (ls : list Listener)
  (t : list (string * list Listener)) : list (string * list Listener) :=
  match ls with
  | [] => delete_key ev t
  | _ => replace_key ev ls t
  end.

Definition has_listeners (ev : string) (c : Client) : bool :=
  match listeners_of ev (_events c) with
  | [] => false
  | _ => true
  end.

(** [this.listenerCount(event)] *)
Definition listenerCount (ev : string) (c : Client) : nat :=
  length (listeners_of ev (_events c)).

(** One listener is called.  The two hooks are the closures of
    client.ts:201-205 and client.ts:207-211; an application callback is
    opaque, its call is logged. *)
Definition call_listener (l : Listener) (a : EmitArgs) (w : World) : World :=
  match l with
  | NewListenerHook =>
      match a with
      | ListenerArgs event _ =>
          if String.eqb event (ClientEvent.value ClientEvent.Contract)
             && (listenerCount (ClientEvent.value ClientEvent.Contract) (self w) =? 0)%nat
          then channel_on (_readClient (self w)) RPCClientEvent.Message
                 emitContractEvent w
          else w
      | _ => w
      end
  | RemoveListenerHook =>
      match a with
      | ListenerArgs event _ =>
          if String.eqb event (ClientEvent.value ClientEvent.Contract)
             && (listenerCount (ClientEvent.value ClientEvent.Contract) (self w) =? 0)%nat
          then channel_removeListener (_readClient (self w))
                 RPCClientEvent.Message emitContractEvent w
          else w
      | _ => w
      end
  | Consumer n => with_self (log_delivery n a (self w)) w
  end.

(** What [emit('error', args)] throws when there is no listener. *)
Definition unhandled_error : JsThrown := new_Error "Unhandled error.".

(** [this.emit(event, args)] *)
Definition emit (ev : string) (a : EmitArgs) : Async bool :=
  fun w =>
    let w0 := with_self (log_emit ev a (self w)) w in
    match listeners_of ev (_events (self w)) with
    | [] =>
        if String.eqb ev "error" then (Rejected unhandled_error, w0)
        else (Resolved false, w0)
    | ls => (Resolved true, fold_left (fun w' l => call_listener l a w') ls w0)
    end.

(** [this.on(event, listener)] *)
Definition on (ev : string) (l : Listener) (w : World) : World :=
  let w1 := if has_listeners "newListener" (self w)
            then snd (emit "newListener" (ListenerArgs ev l) w)
            else w in
  with_self (with_events (add_listener ev l (_events (self w1))) (self w1)) w1.

(** [this.removeListener(event, listener)] *)
Definition removeListener (ev : string) (l : Listener) (w : World) : World :=
  match remove_last Listener_eqb l (listeners_of ev (_events (self w))) with
  | None => w
  | Some ls =>
      let w1 := with_self
                  (with_events (put_listeners ev ls (_events (self w))) (self w)) w in
      if has_listeners "removeListener" (self w1)
      then snd (emit "removeListener" (ListenerArgs ev l) w1)
      else w1
  end.

(** [this.removeAllListeners(event)]: without a ['removeListener'] listener
    the key is dropped; otherwise the listeners go one by one, last first. *)
Definition removeAllListenersOf (ev : string) (w : World) : World :=
  if has_listeners "removeListener" (self w)
  then fold_left (fun w' l => removeListener ev l w')
         (rev (listeners_of ev (_events (self w)))) w
  else with_self (with_events (delete_key ev (_events (self w))) (self w)) w.

(** [this.removeAllListeners()]: every event but ['removeListener'] in key
    order, then ['removeListener'], then the table is reset. *)
Definition removeAllListeners (w : World) : World :=
  if has_listeners "removeListener" (self w)
  then
    let w1 := fold_left
                (fun w' key =>
                   if String.eqb key "removeListener" then w'
                   else removeAllListenersOf key w')
                (map fst (_events (self w))) w in
    let w2 := removeAllListenersOf "removeListener" w1 in
    with_self (with_events [] (self w2)) w2
  else with_self (with_events [] (self w)) w.

(* ================================================================= *)
(** ** Construction and teardown *)

(** An argument of the constructor: a URL or a channel object. *)
Inductive ClientArg :=
| ArgUrl (u : string)
| ArgClient (r : ChanRef).

(** [writeClient === readClient]: strings by value, objects by reference. *)
Definition ClientArg_same (a b : ClientArg) : bool :=
  match a, b with
  | ArgUrl u, ArgUrl v => String.eqb u v
  | ArgClient r, ArgClient s => Nat.eqb r s
  | _, _ => false
  end.

(** [!readClient]: no argument, or the empty string. *)
Definition ClientArg_falsy (a : option ClientArg) : bool :=
  match a with
  | None => true
  | Some (ArgUrl u) => negb (truthy_string u)
  | Some (ArgClient _) => false
  end.

(** [typeof x === 'string' ? new WSRPCClient(x) : x] *)
Definition resolve_client (net : string -> Node) (a : ClientArg)
  (h : list RPCClient) : ChanRef * list RPCClient :=
  match a with
  | ArgUrl u => (length h, h ++ [new_WSRPCClient net u])
  | ArgClient r => (r, h)
  end.

Definition wire_net_events (role : Role) (c : ChanRef) (w : World) : World :=
  channel_on c RPCClientEvent.Disconnected (NetForwarder role ClientEvent.Disconnected)
    (channel_on c RPCClientEvent.Connected (NetForwarder role ClientEvent.Connected)
       (channel_on c RPCClientEvent.Error (NetForwarder role ClientEvent.Error) w)).

(** client.ts:169-196: the channels of the new client.  [net] is the
    network: the node behind each URL. *)
Definition connect (net : string -> Node) (chain : string)
  (writeClient : ClientArg) (readClient : option ClientArg)
  (h : list RPCClient) : World :=
  let (wr, h1) := resolve_client net writeClient h in
  let new r :=
    {| chainId := chain; _writeClient := wr; _readClient := r;
       txMiddleware := []; nonceRetryStrategy := default_nonceRetryStrategy;
       _events := []; emitted := []; delivered := [] |} in
  let w1 := wire_net_events WriteRole wr {| self := new wr; heap := h1 |} in
  match readClient with
  | Some rc =>
      if ClientArg_falsy readClient || ClientArg_same writeClient rc
      then w1
      else
        let (rd, h2) := resolve_client net rc (heap w1) in
        wire_net_events ReadRole rd {| self := new rd; heap := h2 |}
  | None => w1
  end.

(** client.ts:163-212: the channels, then the two hooks of
    client.ts:201-211. *)
Definition constructor (net : string -> Node) (chain : string)
  (writeClient : ClientArg) (readClient : option ClientArg)
  (h : list RPCClient) : World :=
  on "removeListener" RemoveListenerHook
    (on "newListener" NewListenerHook
       (connect net chain writeClient readClient h)).

(** client.ts:218-224 *)
Definition disconnect (w : World) : World :=
  let w1 := removeAllListeners w in
  let w2 := channel_disconnect (_writeClient (self w1)) w1 in
  if negb (_readClient (self w2) =? _writeClient (self w2))%nat
  then channel_disconnect (_readClient (self w2)) w2
  else w2.

(* ================================================================= *)
(** ** Committing a transaction *)

(** client.ts:266-269: the middleware loop. *)
Fixpoint apply_middleware (middleware : list ITxMiddlewareHandler)
  (txBytes : Uint8Array) : Settled Uint8Array :=
  match middleware with
  | [] => Resolved txBytes
  | m :: rest =>
      match Handle m txBytes with
      | Resolved out => apply_middleware rest out
      | Rejected e => Rejected e
      end
  end.

(** [(x.code || 0)] *)
Definition code_or_0 (r : ITxHandlerResult) : Z :=
  match code r with
  | Some c => c
  | None => 0
  end.

(** [`Failed to commit Tx: ${x}`] for a code, which may be [undefined]. *)
Definition failed_with_code (c : option Z) : JsThrown :=
  new_Error ("Failed to commit Tx: "
             ++ match c with
                | Some z => number_to_string z
                | None => "undefined"
                end).

Definition failed_with_log (l : option string) : JsThrown :=
  new_Error ("Failed to commit Tx: "
             ++ match l with
                | Some s => s
                | None => "undefined"
                end).

Definition is_nonce_mismatch (r : ITxHandlerResult) : bool :=
  match code r, log r with
  | Some c, Some l => (c =? 1)%Z && String.eqb l "sequence number does not match"
  | _, _ => false
  end.

(** client.ts:274-297: what the attempt makes of the reply. *)
Definition interpret_result (result : option IBroadcastTxCommitResult)
  : Settled (option Uint8Array) :=
  match result with
  | Some r =>
      if negb (code_or_0 (check_tx r) =? 0)%Z then
        if negb (truthy (log (check_tx r))) then
          Rejected (failed_with_code (code (check_tx r)))
        else if is_nonce_mismatch (check_tx r) then
          Rejected (new_Error INVALID_TX_NONCE_ERROR)
        else Rejected (failed_with_log (log (check_tx r)))
      else if negb (code_or_0 (deliver_tx r) =? 0)%Z then
        if negb (truthy (log (deliver_tx r))) then
          Rejected (failed_with_code (code (deliver_tx r)))
        else Rejected (failed_with_log (log (deliver_tx r)))
      else
        match data (deliver_tx r) with
        | Some d => if truthy_string d then Resolved (Some (B64ToUint8Array d))
                    else Resolved None
        | None => Resolved None
        end
  | None =>
      (* [result.deliver_tx] at client.ts:294, outside [if (result)] *)
      Rejected (property_of_undefined "deliver_tx")
  end.

(** client.ts:262-297 *)
Definition _commitTxAsync (tx : Message) (middleware : list ITxMiddlewareHandler)
  : Async (option Uint8Array) :=
  fun w =>
    match apply_middleware middleware (serializeBinary tx) with
    | Rejected e => (Rejected e, w)
    | Resolved txBytes =>
        match sendAsync commit_reply (_writeClient (self w)) "broadcast_tx_commit"
                (ParamArray [PString (Uint8ArrayToB64 txBytes)]) w with
        | (Rejected e, w1) => (Rejected e, w1)
        | (Resolved result, w1) => (interpret_result result, w1)
        end
    end.

(** Modelled from the spec: the retry utility (the package [retry], which
    client.ts:4 imports) is not among the sources.  §4.3 gives its state
    machine: an attempt, then for a retryable failure a backoff and one more
    attempt while retries remain, and a terminal failure otherwise; §3 gives
    the policy [{maxRetries, minBackoff, maxBackoff, jitter}].  An operation
    holds one pending timeout for each retry it has left.  The length of a
    backoff (exponential, bounded, randomised) is not computed: an entry [i]
    of [_timeouts] stands for the delay before retry [i]. *)
Record RetryOperation := {
  _timeouts : list nat;
  _attempts : nat;
  _errors : list JsThrown
}.

(** Modelled from the spec: [retry.operation(options)], an operation with
    one pending timeout for each of the [maxRetries] of the policy. *)
Definition retry_operation (o : OperationOptions) : RetryOperation :=
  {| _timeouts := seq 0 (retries o); _attempts := 1; _errors := [] |}.

(** Modelled from the spec: [op.stop()], after which nothing is pending. *)
Definition retry_stop (op : RetryOperation) : RetryOperation :=
  {| _timeouts := []; _attempts := _attempts op; _errors := _errors op |}.

(** The callback handed to [op.attempt] (client.ts:245-258), run until the
    promise of [commitTxAsync] settles.  The callback is from the source;
    [op.retry(err)] is modelled from the spec (see [RetryOperation]): it
    takes the next pending timeout, with none left it answers [false] and
    the promise is rejected, otherwise the operation waits and calls the
    callback again with the next attempt number. *)
Fixpoint attempt_loop {A : Type} (body : Async A) (pending : list nat)
  (attempts : nat) (errors : list JsThrown) (w : World)
  : Settled A * RetryOperation * World :=
  let op := {| _timeouts := pending; _attempts := attempts; _errors := errors |} in
  match body w with
  | (Resolved v, w1) => (Resolved v, op, w1)
  | (Rejected err, w1) =>
      if isInvalidTxNonceError err then
        match pending with
        | [] =>
            (Rejected err,
             {| _timeouts := []; _attempts := attempts; _errors := errors ++ [err] |},
             w1)
        | _ :: rest => attempt_loop body rest (S attempts) (errors ++ [err]) w1
        end
      else (Rejected err, retry_stop op, w1)
  end.

(** Modelled from the spec: [op.attempt(fn)] starts the first attempt. *)
Definition retry_attempt {A : Type} (op : RetryOperation) (body : Async A)
  (w : World) : Settled A * RetryOperation * World :=
  attempt_loop body (_timeouts op) (_attempts op) (_errors op) w.

(** client.ts:238-260.  [opts] is [opts.middleware]. *)
Definition commitTxAsync_run (tx : Message)
  (opts : option (list ITxMiddlewareHandler)) (w : World)
  : Settled (option Uint8Array) * RetryOperation * World :=
  let middleware := match opts with
                    | Some m => m
                    | None => txMiddleware (self w)
                    end in
  let op := retry_operation (nonceRetryStrategy (self w)) in
  retry_attempt op (_commitTxAsync tx middleware) w.

(** [commitTxAsync] as its caller sees it: the promise and the store. *)
Definition commitTxAsync (tx : Message)
  (opts : option (list ITxMiddlewareHandler)) : Async (option Uint8Array) :=
  fun w =>
    match commitTxAsync_run tx opts w with
    | (r, _, w') => (r, w')
    end.

(* ================================================================= *)
(** ** Read-only calls *)

(** [then]: the continuation runs on a resolved value. *)
Definition map_resolved {A B : Type} (f : A -> B) (m : Async A) : Async B :=
  fun w =>
    match m w with
    | (Resolved a, w') => (Resolved (f a), w')
    | (Rejected e, w') => (Rejected e, w')
    end.

(** [if (result) { return f(result) }] on a text that may be absent. *)
Definition if_truthy {B : Type} (f : string -> B) (result : option string)
  : option B :=
  match result with
  | Some s => if truthy_string s then Some (f s) else None
  | None => None
  end.

(** Modelled from the spec: the protobuf messages of [./proto/loom_pb]
    that the client deserializes (receipt, transaction, block of §4.6);
    the generated decoders are not among the sources, so a value
    [deserializeBinary ty bs] stands for what the decoder of [ty] makes of
    the bytes [bs]. *)
Inductive ProtoType := EvmTxReceipt | EvmTxObject | EthBlockInfo.

Inductive ProtoValue :=
| deserializeBinary (ty : ProtoType) (bs : Uint8Array).

(** Modelled from the spec: [Address.fromString(s)] of [./address], not
    among the sources (the name resolution of §4.6), as a value. *)
Inductive ParsedAddress :=
| Address_fromString (s : string).

Definition optional_b64 (q : option Uint8Array) : JsParam :=
  match q with
  | Some bs => PString (Uint8ArrayToB64 bs)
  | None => PUndefined
  end.

Definition optional_address (a : option Address.t) : JsParam :=
  match a with
  | Some x => PAddressText x
  | None => PUndefined
  end.

(** client.ts:304-319 *)
Definition queryAsync (contract : Address.t) (query : option Uint8Array)
  (vmType : option VMType) (caller : option Address.t)
  : Async (option Uint8Array) :=
  fun w =>
    let vm := match vmType with Some v => v | None => PLUGIN end in
    map_resolved (if_truthy B64ToUint8Array)
      (sendAsync string_reply (_readClient (self w)) "query"
         (ParamObject [("contract", PLocalAddressText (Address.local contract));
                       ("query", optional_b64 query);
                       ("vmType", PVMType vm);
                       ("caller", optional_address caller)])) w.

(** client.ts:327-336 *)
Definition getEvmTxReceiptAsync (txHash : Uint8Array) : Async (option ProtoValue) :=
  fun w =>
    map_resolved
      (if_truthy (fun s => deserializeBinary EvmTxReceipt (B64ToUint8Array s)))
      (sendAsync string_reply (_readClient (self w)) "evmtxreceipt"
         (ParamObject [("txHash", PString (Uint8ArrayToB64 txHash))])) w.

(** client.ts:344-353 *)
Definition getEvmTxByHashAsync (txHash : Uint8Array) : Async (option ProtoValue) :=
  fun w =>
    map_resolved
      (if_truthy (fun s => deserializeBinary EvmTxObject (B64ToUint8Array s)))
      (sendAsync string_reply (_readClient (self w)) "getevmtransactionbyhash"
         (ParamObject [("txHash", PString (Uint8ArrayToB64 txHash))])) w.

(** client.ts:361-370 *)
Definition getEvmCodeAsync (contractAddress : Address.t) : Async (option Uint8Array) :=
  fun w =>
    map_resolved (if_truthy B64ToUint8Array)
      (sendAsync string_reply (_readClient (self w)) "getevmcode"
         (ParamObject [("contract", PAddressText contractAddress)])) w.

(** client.ts:378-389.  [filter] is [JSON.stringify(filterObject)]. *)
Definition getEvmLogsAsync (filter : string) : Async (option Uint8Array) :=
  fun w =>
    map_resolved (if_truthy B64ToUint8Array)
      (sendAsync string_reply (_readClient (self w)) "getevmlogs"
         (ParamObject [("filter", PString filter)])) w.

(** client.ts:401-412 *)
Definition newEvmFilterAsync (filter : string) : Async (option string) :=
  fun w =>
    map_resolved (if_truthy (fun s => s))
      (sendAsync string_reply (_readClient (self w)) "newevmfilter"
         (ParamObject [("filter", PString filter)])) w.

(** client.ts:422-433 *)
Definition getEvmFilterChangesAsync (id : string) : Async (option Uint8Array) :=
  fun w =>
    map_resolved (if_truthy B64ToUint8Array)
      (sendAsync string_reply (_readClient (self w)) "getevmfilterchanges"
         (ParamObject [("id", PString id)])) w.

(** client.ts:442-449 *)
Definition newBlockEvmFilterAsync : Async (option string) :=
  fun w =>
    map_resolved (if_truthy (fun s => s))
      (sendAsync string_reply (_readClient (self w)) "newblockevmfilter"
         (ParamObject [])) w.

(** client.ts:458-465 *)
Definition newPendingTransactionEvmFilterAsync : Async (option string) :=
  fun w =>
    map_resolved (if_truthy (fun s => s))
      (sendAsync string_reply (_readClient (self w))
         "newpendingtransactionevmfilter" (ParamObject [])) w.

(** client.ts:475-479 *)
Definition uninstallEvmFilterAsync (id : string) : Async (option bool) :=
  fun w =>
    sendAsync boolean_reply (_readClient (self w)) "uninstallevmfilter"
      (ParamObject [("id", PString id)]) w.

(** client.ts:487-497 *)
Definition getEvmBlockByNumberAsync (num : string) (full : option bool)
  : Async (option ProtoValue) :=
  fun w =>
    let f := match full with Some b => b | None => true end in
    map_resolved
      (if_truthy (fun s => deserializeBinary EthBlockInfo (B64ToUint8Array s)))
      (sendAsync string_reply (_readClient (self w)) "getevmblockbynumber"
         (ParamObject [("number", PString num); ("full", PBoolean f)])) w.

(** client.ts:505-515 *)
Definition getEvmBlockByHashAsync (hash : string) (full : option bool)
  : Async (option ProtoValue) :=
  fun w =>
    let f := match full with Some b => b | None => true end in
    map_resolved
      (if_truthy (fun s => deserializeBinary EthBlockInfo (B64ToUint8Array s)))
      (sendAsync string_reply (_readClient (self w)) "getevmblockbyhash"
         (ParamObject [("hash", PString hash); ("full", PBoolean f)])) w.

(** client.ts:535-541 *)
Definition evmSubscribeAsync (method filter : string) : Async (option string) :=
  fun w =>
    sendAsync string_reply (_readClient (self w)) "evmsubscribe"
      (ParamObject [("method", PString method); ("filter", PString filter)]) w.

(** client.ts:550-554 *)
Definition evmUnsubscribeAsync (id : string) : Async (option bool) :=
  fun w =>
    sendAsync boolean_reply (_readClient (self w)) "evmunsubscribe"
      (ParamObject [("id", PString id)]) w.

(** client.ts:561-563 *)
Definition getBlockHeightAsync : Async (option Z) :=
  fun w =>
    sendAsync number_reply (_readClient (self w)) "getblockheight"
      (ParamObject []) w.

(** client.ts:573-575 *)
Definition getNonceAsync (key : string) : Async (option Z) :=
  fun w =>
    sendAsync number_reply (_readClient (self w)) "nonce"
      (ParamObject [("key", PString key)]) w.

(** client.ts:583-589 *)
Definition getContractAddressAsync (contractName : string)
  : Async (option ParsedAddress) :=
  fun w =>
    map_resolved (if_truthy Address_fromString)
      (sendAsync string_reply (_readClient (self w)) "resolve"
         (ParamObject [("name", PString contractName)])) w.

(* ================================================================= *)
(** ** Translating notifications *)

(** [new Address(a.chain_id, new LocalAddress(B64ToUint8Array(a.local)))] *)
Definition decode_address (a : IEventData.address_t) : Address.t :=
  {| Address.chainId := IEventData.chain_id a;
     Address.local := {| bytes := B64ToUint8Array (IEventData.local a) |} |}.

(** [result.encoded_body || '0x0'] *)
Definition encoded_body_or_default (b : option string) : string :=
  if truthy b then match b with Some s => s | None => "0x0" end else "0x0".

(** client.ts:599-616 *)
Definition chain_event_args (u : string) (event : IJSONRPCEvent.t)
  (r : IEventData.t) : IChainEventArgs.t :=
  {| IChainEventArgs.id := IJSONRPCEvent.id event;
     IChainEventArgs.kind := ClientEvent.Contract;
     IChainEventArgs.url := u;
     IChainEventArgs.contractAddress := decode_address (IEventData.address r);
     IChainEventArgs.callerAddress := decode_address (IEventData.caller r);
     IChainEventArgs.blockHeight := IEventData.block_height r;
     IChainEventArgs.data :=
       B64ToUint8Array (encoded_body_or_default (IEventData.encoded_body r));
     IChainEventArgs.topics := IEventData.topics r;
     IChainEventArgs.transactionHash := IEventData.tx_hash r;
     IChainEventArgs.transactionHashBytes := B64ToUint8Array (IEventData.tx_hash r) |}.

(** client.ts:591-619 *)
Definition _emitContractEvent (u : string) (event : IJSONRPCEvent.t) : Async unit :=
  fun w =>
    match IJSONRPCEvent.error event with
    | Some e =>
        let eventArgs :=
          {| IClientErrorEventArgs.kind := ClientEvent.Error;
             IClientErrorEventArgs.url := u;
             IClientErrorEventArgs.error := Some e |} in
        map_resolved (fun _ => tt)
          (emit (ClientEvent.value ClientEvent.Error) (ErrorArgs eventArgs)) w
    | None =>
        match IJSONRPCEvent.result event with
        | Some r =>
            map_resolved (fun _ => tt)
              (emit (ClientEvent.value ClientEvent.Contract)
                 (ChainArgs (chain_event_args u event r))) w
        | None => (Resolved tt, w)
        end
    end.

(** client.ts:621-633; [kind] is never [Contract] here. *)
Definition _emitNetEvent (u : string) (kind : ClientEvent.t)
  (error : option IJSONRPCError.t) : Async unit :=
  fun w =>
    match kind with
    | ClientEvent.Error =>
        map_resolved (fun _ => tt)
          (emit (ClientEvent.value kind)
             (ErrorArgs {| IClientErrorEventArgs.kind := kind;
                           IClientErrorEventArgs.url := u;
                           IClientErrorEventArgs.error := error |})) w
    | _ =>
        map_resolved (fun _ => tt)
          (emit (ClientEvent.value kind)
             (NetArgs {| IClientEventArgs.kind := kind;
                         IClientEventArgs.url := u |})) w
    end.

(** Whether [emitContractEvent] is attached to the channel's
    message-arrived signal. *)
Definition message_handler : Subscription :=
  (RPCClientEvent.Message, emitContractEvent).

Definition attached_count (ch : RPCClient) : nat :=
  length (filter (fun s => Subscription_eqb s message_handler) (subscriptions ch)).

(* ================================================================= *)
(** ** Calls and registrations, as data *)

(** The remote calls of the class, with their arguments. *)
Inductive ClientCall :=
| CallCommitTx (tx : Message) (opts : option (list ITxMiddlewareHandler))
| CallQuery (contract : Address.t) (query : option Uint8Array)
    (vmType : option VMType) (caller : option Address.t)
| CallGetEvmTxReceipt (txHash : Uint8Array)
| CallGetEvmTxByHash (txHash : Uint8Array)
| CallGetEvmCode (contractAddress : Address.t)
| CallGetEvmLogs (filter : string)
| CallNewEvmFilter (filter : string)
| CallGetEvmFilterChanges (id : string)
| CallNewBlockEvmFilter
| CallNewPendingTransactionEvmFilter
| CallUninstallEvmFilter (id : string)
| CallGetEvmBlockByNumber (num : string) (full : option bool)
| CallGetEvmBlockByHash (hash : string) (full : option bool)
| CallEvmSubscribe (method filter : string)
| CallEvmUnsubscribe (id : string)
| CallGetBlockHeight
| CallGetNonce (key : string)
| CallGetContractAddress (contractName : string).

(** The store after a call (its result is dropped). *)
Definition perform (c : ClientCall) (w : World) : World :=
  match c with
  | CallCommitTx tx opts => snd (commitTxAsync tx opts w)
  | CallQuery a q v c' => snd (queryAsync a q v c' w)
  | CallGetEvmTxReceipt h => snd (getEvmTxReceiptAsync h w)
  | CallGetEvmTxByHash h => snd (getEvmTxByHashAsync h w)
  | CallGetEvmCode a => snd (getEvmCodeAsync a w)
  | CallGetEvmLogs f => snd (getEvmLogsAsync f w)
  | CallNewEvmFilter f => snd (newEvmFilterAsync f w)
  | CallGetEvmFilterChanges i => snd (getEvmFilterChangesAsync i w)
  | CallNewBlockEvmFilter => snd (newBlockEvmFilterAsync w)
  | CallNewPendingTransactionEvmFilter => snd (newPendingTransactionEvmFilterAsync w)
  | CallUninstallEvmFilter i => snd (uninstallEvmFilterAsync i w)
  | CallGetEvmBlockByNumber n f => snd (getEvmBlockByNumberAsync n f w)
  | CallGetEvmBlockByHash h f => snd (getEvmBlockByHashAsync h f w)
  | CallEvmSubscribe m f => snd (evmSubscribeAsync m f w)
  | CallEvmUnsubscribe i => snd (evmUnsubscribeAsync i w)
  | CallGetBlockHeight => snd (getBlockHeightAsync w)
  | CallGetNonce k => snd (getNonceAsync k w)
  | CallGetContractAddress n => snd (getContractAddressAsync n w)
  end.

Inductive Route := ViaWrite | ViaRead.



(** The routing the class has: a commit on the write channel, every other
    call on the read channel. *)
Definition route (c : ClientCall) : Route :=
  match c with
  | CallCommitTx _ _ => ViaWrite
  | _ => ViaRead
  end.

(** The channel at a reference, if any. *)
Definition channel (w : World) (r : ChanRef) : option RPCClient :=
  nth_error (heap w) r.




(** Registrations of application callbacks. *)
Inductive Registration :=
| Register (ev : string) (n : nat)       (* client.on(ev, callback n) *)
| Unregister (ev : string) (n : nat).    (* client.removeListener(ev, callback n) *)

Definition register (o : Registration) (w : World) : World :=
  match o with
  | Register ev n => on ev (Consumer n) w
  | Unregister ev n => removeListener ev (Consumer n) w
  end.

Definition register_all (ops : list Registration) (w : World) : World :=
  fold_left (fun w' o => register o w') ops w.

Definition contractEvent : string := ClientEvent.value ClientEvent.Contract.

(** The number of [ClientEvent.Contract] listeners. *)
Definition consumers (w : World) : nat := listenerCount contractEvent (self w).

(** How often the client has called [on] and [removeListener] of a channel
    with [emitContractEvent] for the message-arrived signal. *)
Definition subscribe_calls (ch : RPCClient) : nat :=
  length (filter (fun s => Subscription_eqb s message_handler) (on_calls ch)).

Definition unsubscribe_calls (ch : RPCClient) : nat :=
  length (filter (fun s => Subscription_eqb s message_handler) (removeListener_calls ch)).

(** The read channel of the client. *)
Definition read_channel (w : World) : option RPCClient :=
  channel w (_readClient (self w)).

Definition write_channel (w : World) : option RPCClient :=
  channel w (_writeClient (self w)).

(** The store a client is built in must not know the client's closures
    yet, and channel arguments must point into it. *)
Definition arg_valid (h : list RPCClient) (a : ClientArg) : Prop :=
  match a with
  | ArgUrl _ => True
  | ArgClient r => r < length h
  end.

Definition fresh_channel (ch : RPCClient) : Prop :=
  attached_count ch = 0 /\ subscribe_calls ch = 0 /\ unsubscribe_calls ch = 0.

Definition fresh_store (h : list RPCClient) : Prop := Forall fresh_channel h.

(** What registrations depend on and change: the listener table, the two
    references and the store. *)
Definition core (w : World)
  : list (string * list Listener) * ChanRef * ChanRef * list RPCClient :=
  (_events (self w), _writeClient (self w), _readClient (self w), heap w).

(* ================================================================= *)
(** ** The spec's sentences, as definitions *)

(** §4.2 in the spec's words, "absent" being a field that is not there: a
    failed check carries the code when there is no log, is the nonce
    conflict for code 1 with the sequence-number log, and carries the log
    otherwise; a failed delivery carries the log, or the code when there is
    no log; otherwise the data is decoded, or there is no value when there
    is no data. *)
Definition spec_interpret (r : IBroadcastTxCommitResult)
  : Settled (option Uint8Array) :=
  if negb (code_or_0 (check_tx r) =? 0)%Z then
    match log (check_tx r) with
    | None => Rejected (failed_with_code (code (check_tx r)))
    | Some l =>
        if is_nonce_mismatch (check_tx r)
        then Rejected (new_Error INVALID_TX_NONCE_ERROR)
        else Rejected (failed_with_log (Some l))
    end
  else if negb (code_or_0 (deliver_tx r) =? 0)%Z then
    match log (deliver_tx r) with
    | None => Rejected (failed_with_code (code (deliver_tx r)))
    | Some l => Rejected (failed_with_log (Some l))
    end
  else
    match data (deliver_tx r) with
    | Some d => Resolved (Some (B64ToUint8Array d))
    | None => Resolved None
    end.

(** The [emit] calls made between two states of the client. *)
Definition new_emits (w w' : World) : list (string * EmitArgs) :=
  skipn (length (emitted (self w))) (emitted (self w')).

Definition error_event (u : string) (e : IJSONRPCError.t) : string * EmitArgs :=
  (ClientEvent.value ClientEvent.Error,
   ErrorArgs {| IClientErrorEventArgs.kind := ClientEvent.Error;
                IClientErrorEventArgs.url := u;
                IClientErrorEventArgs.error := Some e |}).



(* ================================================================= *)
(** ** Sample inputs *)

Definition no_reply : Node :=
  {| commit_reply := fun _ _ => Answer None;
     string_reply := fun _ _ => Answer None;
     boolean_reply := fun _ _ => Answer None;
     number_reply := fun _ _ => Answer None |}.

Definition handler_result (c : Z) (l d : option string) : ITxHandlerResult :=
  {| code := Some c; log := l; data := d |}.

Definition commit_result (check deliver : ITxHandlerResult)
  : IBroadcastTxCommitResult :=
  {| check_tx := check; deliver_tx := deliver; hash := ""; height := "1" |}.

(** A node that answers every commit with the same result and every query
    with the same text. *)
Definition constant_node (r : option IBroadcastTxCommitResult)
  (s : option string) : Node :=
  {| commit_reply := fun _ _ => Answer r;
     string_reply := fun _ _ => Answer s;
     boolean_reply := fun _ _ => Answer None;
     number_reply := fun _ _ => Answer None |}.

Definition nonce_mismatch : ITxHandlerResult :=
  handler_result 1 (Some "sequence number does not match") None.

Definition ok_result : ITxHandlerResult := handler_result 0 None None.

(** A client with one channel for both roles, to a node [n]. *)
Definition single_channel_world (n : Node) : World :=
  constructor (fun _ => n) "default" (ArgUrl "ws://node/websocket") None [].


Definition sample_tx : Message :=
  {| serializeBinary := [Byte.x68; Byte.x65; Byte.x6c; Byte.x6c; Byte.x6f] |}.

Definition sample_address : Address.t :=
  {| Address.chainId := "default"; Address.local := {| bytes := [Byte.x01] |} |}.

Definition sample_event_data : IEventData.t :=
  {| IEventData.address := {| IEventData.chain_id := "default"; IEventData.local := "AQ==" |};
     IEventData.caller := {| IEventData.chain_id := "default"; IEventData.local := "Ag==" |};
     IEventData.block_height := "7";
     IEventData.encoded_body := Some "aGVsbG8=";
     IEventData.tx_hash := "AQID";
     IEventData.topics := ["topic"] |}.

Definition sample_error : IJSONRPCError.t :=
  {| IJSONRPCError.code := (-32000)%Z; IJSONRPCError.message := "boom" |}.

(** The request of a commit attempt that transmits [txBytes]. *)
Definition commit_request (txBytes : Uint8Array) : Request :=
  {| method := "broadcast_tx_commit";
     params := ParamArray [PString (Uint8ArrayToB64 txBytes)] |}.

(** [Mn(...(M1(b)))] for transforms that are functions of the bytes. *)
Definition compose_all (fs : list (Uint8Array -> Uint8Array)) (b : Uint8Array)
  : Uint8Array :=
  fold_left (fun acc f => f acc) fs b.

(** A handler computes the function [f]. *)
Definition computes (m : ITxMiddlewareHandler) (f : Uint8Array -> Uint8Array)
  : Prop :=
  forall b, Handle m b = Resolved (f b).

(** The channel object with another request log. *)
Definition channel_with_sent (l : list Request) (ch : RPCClient) : RPCClient :=
  {| url := url ch; node := node ch; sent := l;
     subscriptions := subscriptions ch; on_calls := on_calls ch;
     removeListener_calls := removeListener_calls ch;
     disconnect_calls := disconnect_calls ch |}.

(** The middleware of a commit: [opts.middleware], or the client's. *)
Definition middleware_of (opts : option (list ITxMiddlewareHandler))
  (w : World) : list ITxMiddlewareHandler :=
  match opts with
  | Some m => m
  | None => txMiddleware (self w)
  end.

(** Two sample transforms: one appends a byte, one reverses the bytes. *)
Definition append_byte (x : byte) : ITxMiddlewareHandler :=
  {| Handle := fun b => Resolved (b ++ [x]) |}.

Definition reverse_bytes : ITxMiddlewareHandler :=
  {| Handle := fun b => Resolved (rev b) |}.


(** Two states of the world in which the client holds the same channels and
    every channel has been closed equally often. *)
Definition same_connections (w w' : World) : Prop :=
  _writeClient (self w') = _writeClient (self w)
  /\ _readClient (self w') = _readClient (self w)
  /\ (forall r, option_map disconnect_calls (channel w' r)
                = option_map disconnect_calls (channel w r)).

Definition is_consumer (l : Listener) : Prop :=
  match l with
  | Consumer _ => True
  | _ => False
  end.

(** The state the constructor establishes and registrations keep: the two
    hooks head their events, the table has one key for each event, and the
    read channel has [emitContractEvent] attached once when there are
    [ClientEvent.Contract] listeners and not at all when there are none. *)
Record subscribed_lazily (w : World) : Prop := {
  hook_newListener :
    exists cs, listeners_of "newListener" (_events (self w)) = NewListenerHook :: cs
               /\ Forall is_consumer cs;
  hook_removeListener :
    exists cs, listeners_of "removeListener" (_events (self w))
               = RemoveListenerHook :: cs
               /\ Forall is_consumer cs;
  keys_unique : NoDup (map fst (_events (self w)));
  read_attached :
    exists ch, read_channel w = Some ch
               /\ attached_count ch = (if (consumers w =? 0)%nat then 0 else 1)
}.

(* ================================================================= *)
(** ** Getters and outcomes *)

(** client.ts:139-141 *)
Definition readUrl (w : World) : option string :=
  option_map url (read_channel w).

(** client.ts:143-145 *)
Definition writeUrl (w : World) : option string :=
  option_map url (write_channel w).

(** A settled promise without its value. *)
Definition forget {A : Type} (r : Settled A) : Settled unit :=
  match r with
  | Resolved _ => Resolved tt
  | Rejected e => Rejected e
  end.

(** How the promise of a call settles. *)
Definition settle (c : ClientCall) (w : World) : Settled unit :=
  match c with
  | CallCommitTx tx opts => forget (fst (commitTxAsync tx opts w))
  | CallQuery a q v c' => forget (fst (queryAsync a q v c' w))
  | CallGetEvmTxReceipt h => forget (fst (getEvmTxReceiptAsync h w))
  | CallGetEvmTxByHash h => forget (fst (getEvmTxByHashAsync h w))
  | CallGetEvmCode a => forget (fst (getEvmCodeAsync a w))
  | CallGetEvmLogs f => forget (fst (getEvmLogsAsync f w))
  | CallNewEvmFilter f => forget (fst (newEvmFilterAsync f w))
  | CallGetEvmFilterChanges i => forget (fst (getEvmFilterChangesAsync i w))
  | CallNewBlockEvmFilter => forget (fst (newBlockEvmFilterAsync w))
  | CallNewPendingTransactionEvmFilter =>
      forget (fst (newPendingTransactionEvmFilterAsync w))
  | CallUninstallEvmFilter i => forget (fst (uninstallEvmFilterAsync i w))
  | CallGetEvmBlockByNumber n f => forget (fst (getEvmBlockByNumberAsync n f w))
  | CallGetEvmBlockByHash h f => forget (fst (getEvmBlockByHashAsync h f w))
  | CallEvmSubscribe m f => forget (fst (evmSubscribeAsync m f w))
  | CallEvmUnsubscribe i => forget (fst (evmUnsubscribeAsync i w))
  | CallGetBlockHeight => forget (fst (getBlockHeightAsync w))
  | CallGetNonce k => forget (fst (getNonceAsync k w))
  | CallGetContractAddress n => forget (fst (getContractAddressAsync n w))
  end.

(** A node whose every call fails with [e]. *)
Definition failing_node (e : JsThrown) : Node :=
  {| commit_reply := fun _ _ => Failure e;
     string_reply := fun _ _ => Failure e;
     boolean_reply := fun _ _ => Failure e;
     number_reply := fun _ _ => Failure e |}.

(** A node that answers the first [k] commits with the sequence-number
    mismatch and the later ones with [r]. *)
Definition conflicts_then (k : nat) (r : IBroadcastTxCommitResult) : Node :=
  {| commit_reply := fun n _ =>
       if (n <? k)%nat then Answer (Some (commit_result nonce_mismatch ok_result))
       else Answer (Some r);
     string_reply := fun _ _ => Answer None;
     boolean_reply := fun _ _ => Answer None;
     number_reply := fun _ _ => Answer None |}.

(** A node with one answer for each kind of result. *)
Definition scalar_node (s : option string) (b : option bool) (z : option Z) : Node :=
  {| commit_reply := fun _ _ => Answer None;
     string_reply := fun _ _ => Answer s;
     boolean_reply := fun _ _ => Answer b;
     number_reply := fun _ _ => Answer z |}.

(** A middleware that always rejects with [e]. *)
Definition rejecting (e : JsThrown) : ITxMiddlewareHandler :=
  {| Handle := fun _ => Rejected e |}.

(** The three lifecycle forwarders the constructor registers for a role. *)
Definition net_forwarders (r : Role) : list Subscription :=
  [(RPCClientEvent.Error, NetForwarder r ClientEvent.Error);
   (RPCClientEvent.Connected, NetForwarder r ClientEvent.Connected);
   (RPCClientEvent.Disconnected, NetForwarder r ClientEvent.Disconnected)].

(* ================================================================= *)
(** ** Construction and teardown, stated *)

(** The channel object an argument of the constructor denotes, before the
    constructor registers anything on it. *)
Definition denotes (net : string -> Node) (h : list RPCClient) (a : ClientArg)
  (ch : RPCClient) : Prop :=
  match a with
  | ArgUrl u => ch = new_WSRPCClient net u
  | ArgClient r => nth_error h r = Some ch
  end.

(** client.ts:183: whether the read role falls to the write channel. *)
Definition shares (writeClient : ClientArg) (readClient : option ClientArg) : bool :=
  match readClient with
  | None => true
  | Some rc => ClientArg_falsy readClient || ClientArg_same writeClient rc
  end.

(** A channel with the lifecycle forwarders of a role registered on it. *)
Definition wired (r : Role) (ch : RPCClient) : RPCClient :=
  fold_left (fun c s => channel_subscribed s c) (net_forwarders r) ch.

(** A listener table without the hooks of the constructor. *)
Definition hookless (t : list (string * list Listener)) : Prop :=
  Forall (fun kv => Forall is_consumer (snd kv)) t.

(** What teardown relies on: the hook of client.ts:207-211 heads the
    listeners of ['removeListener'], followed by application callbacks
    only; the table has one key for each event; and the read channel has
    [emitContractEvent] attached once when there are Contract listeners and
    not at all when there are none. *)
Record detachable (w : World) : Prop := {
  detach_hook :
    exists cs, listeners_of "removeListener" (_events (self w))
               = RemoveListenerHook :: cs
               /\ Forall is_consumer cs;
  detach_keys : NoDup (map fst (_events (self w)));
  detach_attached :
    exists ch, read_channel w = Some ch
               /\ attached_count ch = (if (consumers w =? 0)%nat then 0 else 1)
}.

(** The [removeListener] calls the read channel has seen, and the one it
    will see when the last Contract listener goes. *)
Definition unsubscribe_due (w : World) : option nat :=
  option_map (fun ch => unsubscribe_calls ch
                        + (if (consumers w =? 0)%nat then 0 else 1))
    (read_channel w).

(* ================================================================= *)
(** * Properties *)

(* ================================================================= *)
(** ** The store *)

Section Store.
Context {A : Type}.

Lemma store_set_length (r : nat) (x : A) (h : list A) :
  length (store_set r x h) = length h.
Proof.
  revert r; induction h as [|y t IH]; intros [|r]; simpl; auto.
Qed.

Lemma nth_error_store_set_eq (r : nat) (x : A) (h : list A) :
  r < length h -> nth_error (store_set r x h) r = Some x.
Proof.
  revert r; induction h as [|y t IH]; intros [|r] Hr; simpl in *; try lia; auto.
  apply IH; lia.
Qed.

Lemma nth_error_store_set_neq (r r' : nat) (x : A) (h : list A) :
  r' <> r -> nth_error (store_set r x h) r' = nth_error h r'.
Proof.
  revert r r'; induction h as [|y t IH]; intros [|r] [|r'] Hne; simpl; auto;
    try congruence.
Qed.

End Store.

Lemma update_channel_self c f w : self (update_channel c f w) = self w.
Proof. unfold update_channel; destruct (nth_error (heap w) c); reflexivity. Qed.

Lemma update_channel_length c f w :
  length (heap (update_channel c f w)) = length (heap w).
Proof.
  unfold update_channel; destruct (nth_error (heap w) c); simpl; auto.
  apply store_set_length.
Qed.

Lemma channel_update_same c f w ch :
  channel w c = Some ch -> channel (update_channel c f w) c = Some (f ch).
Proof.
  unfold channel, update_channel; intros H; rewrite H; simpl.
  apply nth_error_store_set_eq. apply nth_error_Some; congruence.
Qed.

Lemma channel_update_other c f w r :
  r <> c -> channel (update_channel c f w) r = channel w r.
Proof.
  unfold channel, update_channel; intros H.
  destruct (nth_error (heap w) c); simpl; auto.
  apply nth_error_store_set_neq; auto.
Qed.

Lemma channel_update_none c f w :
  channel w c = None -> update_channel c f w = w.
Proof. unfold channel, update_channel; intros H; rewrite H; reflexivity. Qed.

(* ================================================================= *)
(** ** The wire encoding *)

Section Base64Facts.
Import Base64.
Local Open Scope N_scope.

Ltac n_arith := zify; Z.to_euclidean_division_equations; lia.

Lemma index_of_char_of (n : N) :
  n < 64 -> Ascii.eqb (char_of n) pad = false /\ index_of (char_of n) = Some n.
Proof.
  intros H.
  assert (Hm : (N.to_nat n < 64)%nat) by lia.
  rewrite <- (N2Nat.id n). revert Hm. generalize (N.to_nat n) as m.
  intros m Hm.
  do 64 (destruct m as [|m]; [split; reflexivity|]).
  lia.
Qed.

Lemma sextets_char_of (n : N) (s : string) :
  n < 64 -> sextets (String (char_of n) s) = n :: sextets s.
Proof.
  intros H. destruct (index_of_char_of n H) as [Hp Hi].
  cbn [sextets]. rewrite Hp, Hi. reflexivity.
Qed.

Lemma sextets_pad (s : string) : sextets (String pad s) = [].
Proof. reflexivity. Qed.

Lemma byte_of_to_N (b : byte) : byte_of_N (Byte.to_N b) = b.
Proof.
  unfold byte_of_N. pose proof (Byte.to_N_bounded b).
  rewrite N.mod_small by lia. now rewrite Byte.of_to_N.
Qed.

Lemma list_ind3 {A : Type} (P : list A -> Prop) :
  P [] -> (forall a, P [a]) -> (forall a b, P [a; b]) ->
  (forall a b c l, P l -> P (a :: b :: c :: l)) ->
  forall l, P l.
Proof.
  intros H0 H1 H2 H3 l.
  assert (H : P l /\ (forall a, P (a :: l)) /\ (forall a b, P (a :: b :: l))).
  { induction l as [|x l (IH0 & IH1 & IH2)].
    - auto.
    - repeat split; auto. }
  apply H.
Qed.

Lemma byte_of_N_eq (n : N) (b : byte) : n = Byte.to_N b -> byte_of_N n = b.
Proof. intros ->. apply byte_of_to_N. Qed.

Ltac bytes_eq :=
  repeat match goal with
         | |- _ :: _ = _ :: _ => f_equal
         end;
  try (apply byte_of_N_eq; n_arith).

(** Decoding undoes encoding: the text on the wire determines the bytes. *)
Lemma decode_encode (bs : Uint8Array) : decode (encode bs) = bs.
Proof.
  unfold decode. induction bs as [|a|a b|a b c rest IH] using list_ind3.
  - reflexivity.
  - pose proof (Byte.to_N_bounded a).
    cbn [encode]. rewrite !sextets_char_of, sextets_pad by n_arith.
    cbn [bytes_of]. bytes_eq.
  - pose proof (Byte.to_N_bounded a). pose proof (Byte.to_N_bounded b).
    cbn [encode]. rewrite !sextets_char_of, sextets_pad by n_arith.
    cbn [bytes_of]. bytes_eq.
  - pose proof (Byte.to_N_bounded a). pose proof (Byte.to_N_bounded b).
    pose proof (Byte.to_N_bounded c).
    change (encode (a :: b :: c :: rest))
      with (quad (Byte.to_N a) (Byte.to_N b) (Byte.to_N c) ++ encode rest)%string.
    unfold quad. cbn [append].
    rewrite !sextets_char_of by n_arith.
    cbn [bytes_of]. rewrite IH. bytes_eq.
Qed.

End Base64Facts.

Lemma B64ToUint8Array_Uint8ArrayToB64 (bs : Uint8Array) :
  B64ToUint8Array (Uint8ArrayToB64 bs) = bs.
Proof. apply decode_encode. Qed.

(** Scenario 1 of the spec: ["aGVsbG8="] is [104,101,108,108,111]. *)
Example B64ToUint8Array_hello :
  B64ToUint8Array "aGVsbG8=" = [Byte.x68; Byte.x65; Byte.x6c; Byte.x6c; Byte.x6f]
  /\ map Byte.to_N (B64ToUint8Array "aGVsbG8=") = [104; 101; 108; 108; 111]%N.
Proof. split; reflexivity. Qed.

(* ================================================================= *)
(** ** One commit attempt *)

Lemma sendAsync_at {A : Type} (pick : Node -> nat -> Request -> Reply A)
  (c : ChanRef) (m : string) (p : Params) (w : World) (ch : RPCClient) :
  channel w c = Some ch ->
  sendAsync pick c m p w =
    (match pick (node ch) (length (sent ch)) {| method := m; params := p |} with
     | Answer r => Resolved r
     | Failure e => Rejected e
     end,
     update_channel c (channel_sent {| method := m; params := p |}) w).
Proof. unfold channel, sendAsync. intros ->. reflexivity. Qed.


(** An attempt whose middleware resolves sends one request on the write
    channel and makes its result of the reply. *)
Lemma _commitTxAsync_sent (tx : Message) (middleware : list ITxMiddlewareHandler)
  (w : World) (ch : RPCClient) (txBytes : Uint8Array) :
  write_channel w = Some ch ->
  apply_middleware middleware (serializeBinary tx) = Resolved txBytes ->
  _commitTxAsync tx middleware w =
    (match commit_reply (node ch) (length (sent ch)) (commit_request txBytes) with
     | Answer r => interpret_result r
     | Failure e => Rejected e
     end,
     update_channel (_writeClient (self w)) (channel_sent (commit_request txBytes)) w).
Proof.
  intros Hch Hmw. unfold _commitTxAsync. rewrite Hmw.
  rewrite (sendAsync_at _ _ _ _ _ ch Hch). fold (commit_request txBytes).
  destruct (commit_reply _ _ _); reflexivity.
Qed.

Lemma _commitTxAsync_middleware_failed (tx : Message)
  (middleware : list ITxMiddlewareHandler) (w : World) (e : JsThrown) :
  apply_middleware middleware (serializeBinary tx) = Rejected e ->
  _commitTxAsync tx middleware w = (Rejected e, w).
Proof. intros H. unfold _commitTxAsync. now rewrite H. Qed.

Lemma channel_sent_with_sent (req : Request) (l : list Request) (ch : RPCClient) :
  channel_sent req (channel_with_sent l ch) = channel_with_sent (l ++ [req]) ch.
Proof. reflexivity. Qed.

Lemma channel_with_sent_same (ch : RPCClient) : channel_with_sent (sent ch) ch = ch.
Proof. destruct ch; reflexivity. Qed.


Lemma not_nonce_failed_with (s : string) :
  isInvalidTxNonceError (new_Error ("Failed to commit Tx: " ++ s)) = false.
Proof. reflexivity. Qed.

Lemma nonce_error_is_retryable :
  isInvalidTxNonceError (new_Error INVALID_TX_NONCE_ERROR) = true.
Proof. reflexivity. Qed.

Lemma truthy_Some (s : string) : truthy (Some s) = true <-> s <> "".
Proof. destruct s; simpl; split; congruence. Qed.

Lemma truthy_false (o : option string) :
  truthy o = false <-> o = None \/ o = Some "".
Proof.
  destruct o as [[|c s]|]; simpl; split; auto; try congruence.
  - intros [H|H]; congruence.
Qed.

Lemma is_nonce_mismatch_iff (r : ITxHandlerResult) :
  is_nonce_mismatch r = true <->
  code r = Some 1%Z /\ log r = Some "sequence number does not match".
Proof.
  unfold is_nonce_mismatch.
  destruct (code r) as [c|], (log r) as [l|];
    (split; [|intros [H1 H2]]); try congruence.
  - rewrite andb_true_iff, Z.eqb_eq, String.eqb_eq. intros [-> ->]; auto.
  - injection H1 as ->. injection H2 as ->. reflexivity.
Qed.

Lemma interpret_nonce_mismatch (r : IBroadcastTxCommitResult) :
  code (check_tx r) = Some 1%Z ->
  log (check_tx r) = Some "sequence number does not match" ->
  interpret_result (Some r) = Rejected (new_Error INVALID_TX_NONCE_ERROR).
Proof.
  intros Hc Hl. unfold interpret_result, code_or_0, is_nonce_mismatch.
  rewrite Hc, Hl. reflexivity.
Qed.

Lemma interpret_deliver_failure (r : IBroadcastTxCommitResult) :
  code_or_0 (check_tx r) = 0%Z -> code_or_0 (deliver_tx r) <> 0%Z ->
  exists s, interpret_result (Some r) = Rejected (new_Error ("Failed to commit Tx: " ++ s)).
Proof.
  intros Hc Hd. unfold interpret_result. rewrite Hc. cbn [Z.eqb negb].
  apply Z.eqb_neq in Hd. rewrite Hd. cbn [negb].
  destruct (truthy (log (deliver_tx r))); cbn [negb]; eexists; reflexivity.
Qed.

(** C2 (as amended): a commit attempt reads the two-phase result by ordered
    rules, an absent code counting as 0 and an empty text as an absent one.
    A failed check rejects with the generic error that carries the check
    code when the check log is absent or empty, with the nonce-conflict
    error when the code is 1 and the log is "sequence number does not
    match", and with the generic error that carries the log otherwise.  Else
    a failed delivery rejects with the generic error that carries the
    delivery log, or the delivery code when the log is absent or empty.
    Else the attempt resolves with the decoded delivery data, or with no
    value when the data is absent or empty. *)
Theorem C2_result_interpretation
  (tx : Message) (middleware : list ITxMiddlewareHandler) (w : World)
  (ch : RPCClient) (txBytes : Uint8Array) (r : IBroadcastTxCommitResult) :
  write_channel w = Some ch ->
  apply_middleware middleware (serializeBinary tx) = Resolved txBytes ->
  commit_reply (node ch) (length (sent ch)) (commit_request txBytes)
    = Answer (Some r) ->
  let outcome := fst (_commitTxAsync tx middleware w) in
  (code_or_0 (check_tx r) <> 0%Z ->
     (truthy (log (check_tx r)) = false ->
        outcome = Rejected (failed_with_code (code (check_tx r))))
     /\ (code (check_tx r) = Some 1%Z ->
         log (check_tx r) = Some "sequence number does not match" ->
         outcome = Rejected (new_Error INVALID_TX_NONCE_ERROR))
     /\ (forall l, log (check_tx r) = Some l -> l <> "" ->
           ~ (code (check_tx r) = Some 1%Z
              /\ l = "sequence number does not match") ->
           outcome = Rejected (new_Error ("Failed to commit Tx: " ++ l))))
  /\ (code_or_0 (check_tx r) = 0%Z -> code_or_0 (deliver_tx r) <> 0%Z ->
        (forall l, log (deliver_tx r) = Some l -> l <> "" ->
           outcome = Rejected (new_Error ("Failed to commit Tx: " ++ l)))
        /\ (truthy (log (deliver_tx r)) = false ->
            outcome = Rejected (failed_with_code (code (deliver_tx r)))))
  /\ (code_or_0 (check_tx r) = 0%Z -> code_or_0 (deliver_tx r) = 0%Z ->
        (forall d, data (deliver_tx r) = Some d -> d <> "" ->
           outcome = Resolved (Some (B64ToUint8Array d)))
        /\ (truthy (data (deliver_tx r)) = false -> outcome = Resolved None)).
Proof.
  intros Hch Hmw Hreply outcome. subst outcome.
  rewrite (_commitTxAsync_sent _ _ _ ch txBytes Hch Hmw), Hreply. cbn [fst].
  unfold interpret_result. split; [|split].
  - intros Hc. apply Z.eqb_neq in Hc. rewrite Hc. cbn [negb].
    split; [|split].
    + intros Hl. rewrite Hl. reflexivity.
    + intros Hc1 Hl.
      assert (Hn : is_nonce_mismatch (check_tx r) = true)
        by (apply is_nonce_mismatch_iff; auto).
      rewrite Hn, Hl. reflexivity.
    + intros l Hl Hne Hnot.
      assert (Ht : truthy (log (check_tx r)) = true)
        by (rewrite Hl; now apply truthy_Some).
      rewrite Ht. cbn [negb].
      destruct (is_nonce_mismatch (check_tx r)) eqn:Hn.
      * apply is_nonce_mismatch_iff in Hn. destruct Hn as [Hc' Hl'].
        exfalso. apply Hnot. split; congruence.
      * rewrite Hl. reflexivity.
  - intros Hc Hd. rewrite Hc. cbn [Z.eqb negb].
    apply Z.eqb_neq in Hd. rewrite Hd. cbn [negb]. split.
    + intros l Hl Hne.
      assert (Ht : truthy (log (deliver_tx r)) = true)
        by (rewrite Hl; now apply truthy_Some).
      rewrite Ht, Hl. reflexivity.
    + intros Hl. rewrite Hl. reflexivity.
  - intros Hc Hd. rewrite Hc, Hd. cbn [Z.eqb negb]. split.
    + intros d Hdata Hne. rewrite Hdata.
      destruct d; [congruence | reflexivity].
    + intros Hdata.
      destruct (data (deliver_tx r)) as [[|c d]|]; simpl in Hdata;
        try reflexivity; discriminate.
Qed.

(** Scenario 1 of the spec, through the theorem: no middleware, both phases
    with code 0 and the data ["aGVsbG8="] resolve with the bytes of "hello". *)
Lemma C2_result_interpretation_witness :
  fst (_commitTxAsync sample_tx []
         (single_channel_world
            (constant_node
               (Some (commit_result ok_result (handler_result 0 None (Some "aGVsbG8="))))
               None)))
  = Resolved (Some [Byte.x68; Byte.x65; Byte.x6c; Byte.x6c; Byte.x6f]).
Proof.
  refine (proj1 (proj2 (proj2
            (C2_result_interpretation sample_tx []
               (single_channel_world
                  (constant_node
                     (Some (commit_result ok_result
                              (handler_result 0 None (Some "aGVsbG8="))))
                     None))
               _ _ _ eq_refl eq_refl eq_refl))
            eq_refl eq_refl) "aGVsbG8=" eq_refl _).
  discriminate.
Defined.

(** C2 as stated fails for a log that is present but empty: the check
    [{code: 2, log: ""}] is rejected with the code, not with the log. *)
Lemma C2_counterexample :
  let r := commit_result (handler_result 2 (Some "") None) ok_result in
  let w := single_channel_world (constant_node (Some r) None) in
  fst (_commitTxAsync sample_tx [] w) = Rejected (new_Error "Failed to commit Tx: 2")
  /\ spec_interpret r = Rejected (new_Error "Failed to commit Tx: ")
  /\ fst (_commitTxAsync sample_tx [] w) <> spec_interpret r.
Proof.
  cbv zeta. repeat split; try reflexivity. discriminate.
Qed.

(* ================================================================= *)
(** ** The retry loop *)

Lemma attempt_loop_resolved {A : Type} (body : Async A) pending attempts errors
  (w w1 : World) (v : A) :
  body w = (Resolved v, w1) ->
  attempt_loop body pending attempts errors w =
    (Resolved v,
     {| _timeouts := pending; _attempts := attempts; _errors := errors |}, w1).
Proof. intros H. destruct pending; simpl; rewrite H; reflexivity. Qed.

(** An error that is not the nonce conflict ends the loop where it is. *)
Lemma attempt_loop_terminal {A : Type} (body : Async A) pending attempts errors
  (w w1 : World) (err : JsThrown) :
  body w = (Rejected err, w1) ->
  isInvalidTxNonceError err = false ->
  attempt_loop body pending attempts errors w =
    (Rejected err,
     {| _timeouts := []; _attempts := attempts; _errors := errors |}, w1).
Proof. intros H Hn. destruct pending; simpl; rewrite H, Hn; reflexivity. Qed.

(** A nonce conflict with a retry left leads to the next attempt. *)
Lemma attempt_loop_retry {A : Type} (body : Async A) t pending attempts errors
  (w w1 : World) (err : JsThrown) :
  body w = (Rejected err, w1) ->
  isInvalidTxNonceError err = true ->
  attempt_loop body (t :: pending) attempts errors w =
    attempt_loop body pending (S attempts) (errors ++ [err]) w1.
Proof. intros H Hn. simpl. rewrite H, Hn. reflexivity. Qed.

(** A nonce conflict with no retry left rejects. *)
Lemma attempt_loop_exhausted {A : Type} (body : Async A) attempts errors
  (w w1 : World) (err : JsThrown) :
  body w = (Rejected err, w1) ->
  isInvalidTxNonceError err = true ->
  attempt_loop body [] attempts errors w =
    (Rejected err,
     {| _timeouts := []; _attempts := attempts; _errors := errors ++ [err] |}, w1).
Proof. intros H Hn. simpl. rewrite H, Hn. reflexivity. Qed.

(** The loop when the node answers every commit with the sequence-number
    mismatch: it runs once for the first attempt and once for each pending
    timeout, and every attempt sends the same request. *)
Lemma attempt_loop_all_conflicts (tx : Message)
  (middleware : list ITxMiddlewareHandler) (txBytes : Uint8Array)
  (ch : RPCClient) :
  apply_middleware middleware (serializeBinary tx) = Resolved txBytes ->
  (forall n, exists r,
      commit_reply (node ch) n (commit_request txBytes) = Answer (Some r)
      /\ code (check_tx r) = Some 1%Z
      /\ log (check_tx r) = Some "sequence number does not match") ->
  forall pending attempts errors w l,
    write_channel w = Some (channel_with_sent l ch) ->
    exists op w',
      attempt_loop (_commitTxAsync tx middleware) pending attempts errors w
        = (Rejected (new_Error INVALID_TX_NONCE_ERROR), op, w')
      /\ _attempts op = attempts + length pending
      /\ _timeouts op = []
      /\ self w' = self w
      /\ write_channel w' =
           Some (channel_with_sent
                   (l ++ repeat (commit_request txBytes) (S (length pending))) ch)
      /\ (forall r, r <> _writeClient (self w) -> channel w' r = channel w r).
Proof.
  intros Hmw Hnode pending.
  induction pending as [|t rest IH]; intros attempts errors w l Hch.
  - destruct (Hnode (length l)) as (r & Hr & Hc & Hl).
    pose proof (_commitTxAsync_sent tx middleware w _ txBytes Hch Hmw) as Hrun.
    cbn [channel_with_sent node sent] in Hrun. rewrite Hr in Hrun.
    rewrite (interpret_nonce_mismatch r Hc Hl) in Hrun.
    eexists; eexists. split.
    { apply attempt_loop_exhausted; [exact Hrun | reflexivity]. }
    cbn [_attempts _timeouts length repeat]. repeat split.
    + lia.
    + apply update_channel_self.
    + unfold write_channel in *. rewrite update_channel_self.
      rewrite (channel_update_same _ _ _ _ Hch). reflexivity.
    + intros r0 Hr0. now apply channel_update_other.
  - destruct (Hnode (length l)) as (r & Hr & Hc & Hl).
    pose proof (_commitTxAsync_sent tx middleware w _ txBytes Hch Hmw) as Hrun.
    cbn [channel_with_sent node sent] in Hrun. rewrite Hr in Hrun.
    rewrite (interpret_nonce_mismatch r Hc Hl) in Hrun.
    set (w1 := update_channel (_writeClient (self w))
                 (channel_sent (commit_request txBytes)) w) in *.
    assert (Hself : self w1 = self w) by apply update_channel_self.
    assert (Hch1 : write_channel w1 =
                   Some (channel_with_sent (l ++ [commit_request txBytes]) ch)).
    { unfold write_channel in *. rewrite Hself. subst w1.
      rewrite (channel_update_same _ _ _ _ Hch). reflexivity. }
    destruct (IH (S attempts) (errors ++ [new_Error INVALID_TX_NONCE_ERROR])
                w1 _ Hch1) as (op & w' & Hloop & Hatt & Hto & Hs & Hw & Hfr).
    exists op, w'. split.
    { rewrite (attempt_loop_retry _ _ _ _ _ _ _ _ Hrun eq_refl). exact Hloop. }
    repeat split.
    + rewrite Hatt. cbn [length]. lia.
    + exact Hto.
    + congruence.
    + rewrite Hw. f_equal. f_equal. rewrite <- app_assoc. reflexivity.
    + intros r0 Hr0. rewrite Hfr by (rewrite Hself; exact Hr0).
      subst w1. now apply channel_update_other.
Qed.

(** C1: when the check phase of every attempt returns code 1 with the log
    "sequence number does not match", [commitTxAsync] is rejected with the
    nonce-conflict error after exactly [retries + 1] attempts, each of which
    sent its request on the write channel; that is 6 attempts under the
    default policy of 5 retries. *)
Theorem C1_nonce_conflict_exhausts_retries
  (tx : Message) (opts : option (list ITxMiddlewareHandler)) (w : World)
  (ch : RPCClient) (txBytes : Uint8Array) :
  write_channel w = Some ch ->
  apply_middleware (middleware_of opts w) (serializeBinary tx) = Resolved txBytes ->
  (forall n, exists r,
      commit_reply (node ch) n (commit_request txBytes) = Answer (Some r)
      /\ code (check_tx r) = Some 1%Z
      /\ log (check_tx r) = Some "sequence number does not match") ->
  exists op w',
    commitTxAsync_run tx opts w
      = (Rejected (new_Error INVALID_TX_NONCE_ERROR), op, w')
    /\ commitTxAsync tx opts w = (Rejected (new_Error INVALID_TX_NONCE_ERROR), w')
    /\ _attempts op = retries (nonceRetryStrategy (self w)) + 1
    /\ write_channel w' =
         Some (channel_with_sent
                 (sent ch ++ repeat (commit_request txBytes)
                               (retries (nonceRetryStrategy (self w)) + 1)) ch)
    /\ (nonceRetryStrategy (self w) = default_nonceRetryStrategy ->
        _attempts op = 6).
Proof.
  intros Hch Hmw Hnode.
  rewrite <- (channel_with_sent_same ch) in Hch.
  destruct (attempt_loop_all_conflicts tx _ txBytes ch Hmw Hnode
              (seq 0 (retries (nonceRetryStrategy (self w)))) 1 [] w _ Hch)
    as (op & w' & Hloop & Hatt & _ & _ & Hw & _).
  rewrite length_seq in Hatt, Hw.
  exists op, w'.
  assert (Hrun : commitTxAsync_run tx opts w
                 = (Rejected (new_Error INVALID_TX_NONCE_ERROR), op, w')).
  { unfold commitTxAsync_run, retry_attempt, retry_operation.
    cbn [_timeouts _attempts _errors]. exact Hloop. }
  split; [exact Hrun|]. split.
  { unfold commitTxAsync. rewrite Hrun. reflexivity. }
  split; [lia|]. split.
  { rewrite Hw. f_equal. f_equal. f_equal. f_equal. lia. }
  intros Hd. rewrite Hatt, Hd. reflexivity.
Qed.

(** Scenario 2 of the spec: under the default policy the sixth conflict in
    a row is the final rejection. *)
Lemma C1_nonce_conflict_exhausts_retries_witness :
  exists op w',
    commitTxAsync_run sample_tx None
      (single_channel_world
         (constant_node (Some (commit_result nonce_mismatch ok_result)) None))
      = (Rejected (new_Error INVALID_TX_NONCE_ERROR), op, w')
    /\ _attempts op = 6.
Proof.
  destruct (C1_nonce_conflict_exhausts_retries sample_tx None
              (single_channel_world
                 (constant_node (Some (commit_result nonce_mismatch ok_result)) None))
              _ _ eq_refl eq_refl
              (fun n => ex_intro _ (commit_result nonce_mismatch ok_result)
                          (conj eq_refl (conj eq_refl eq_refl))))
    as (op & w' & Hrun & _ & _ & _ & H6).
  exists op, w'. split; [exact Hrun | exact (H6 eq_refl)].
Defined.

(** C3: only the nonce-conflict error is retried.  At any attempt and with
    any retries left, an attempt that fails with another error ends the
    loop with that error; as the first attempt it rejects [commitTxAsync]
    with that same error after one attempt, whatever the retry policy.  A
    delivery phase with a non-zero code (after a passed check) is such a
    failure: one request is sent and none is retried. *)
Theorem C3_other_errors_not_retried
  (tx : Message) (opts : option (list ITxMiddlewareHandler)) (w : World) :
  (forall pending attempts errors w0 err w1,
      _commitTxAsync tx (middleware_of opts w) w0 = (Rejected err, w1) ->
      isInvalidTxNonceError err = false ->
      attempt_loop (_commitTxAsync tx (middleware_of opts w))
        pending attempts errors w0
      = (Rejected err,
         {| _timeouts := []; _attempts := attempts; _errors := errors |}, w1))
  /\ (forall err w1,
        _commitTxAsync tx (middleware_of opts w) w = (Rejected err, w1) ->
        isInvalidTxNonceError err = false ->
        commitTxAsync_run tx opts w
        = (Rejected err, {| _timeouts := []; _attempts := 1; _errors := [] |}, w1)
        /\ commitTxAsync tx opts w = (Rejected err, w1))
  /\ (forall ch txBytes r,
        write_channel w = Some ch ->
        apply_middleware (middleware_of opts w) (serializeBinary tx)
          = Resolved txBytes ->
        commit_reply (node ch) (length (sent ch)) (commit_request txBytes)
          = Answer (Some r) ->
        code_or_0 (check_tx r) = 0%Z ->
        code_or_0 (deliver_tx r) <> 0%Z ->
        exists s,
          commitTxAsync_run tx opts w
          = (Rejected (new_Error ("Failed to commit Tx: " ++ s)),
             {| _timeouts := []; _attempts := 1; _errors := [] |},
             update_channel (_writeClient (self w))
               (channel_sent (commit_request txBytes)) w)).
Proof.
  assert (Hfirst : forall err w1,
             _commitTxAsync tx (middleware_of opts w) w = (Rejected err, w1) ->
             isInvalidTxNonceError err = false ->
             commitTxAsync_run tx opts w
             = (Rejected err, {| _timeouts := []; _attempts := 1; _errors := [] |}, w1)).
  { intros err w1 Hrun Hn.
    unfold commitTxAsync_run, retry_attempt, retry_operation.
    cbn [_timeouts _attempts _errors].
    now apply attempt_loop_terminal. }
  split; [|split].
  - intros pending attempts errors w0 err w1 Hrun Hn.
    now apply attempt_loop_terminal.
  - intros err w1 Hrun Hn. split; [now apply Hfirst|].
    unfold commitTxAsync. now rewrite (Hfirst err w1 Hrun Hn).
  - intros ch txBytes r Hch Hmw Hreply Hc Hd.
    destruct (interpret_deliver_failure r Hc Hd) as [s Hs].
    exists s. apply Hfirst; [|reflexivity].
    rewrite (_commitTxAsync_sent _ _ _ ch txBytes Hch Hmw), Hreply, Hs.
    reflexivity.
Qed.

(** A delivery failure under the default policy: one attempt, one request. *)
Lemma C3_other_errors_not_retried_witness :
  let w := single_channel_world
             (constant_node
                (Some (commit_result ok_result
                         (handler_result 3 (Some "out of gas") None))) None) in
  exists s w',
    commitTxAsync_run sample_tx None w
    = (Rejected (new_Error ("Failed to commit Tx: " ++ s)),
       {| _timeouts := []; _attempts := 1; _errors := [] |}, w')
    /\ option_map (fun c => length (sent c)) (write_channel w') = Some 1.
Proof.
  intros w.
  destruct (proj2 (proj2 (C3_other_errors_not_retried sample_tx None w))
              _ _ _ eq_refl eq_refl eq_refl eq_refl) as [s Hs].
  { discriminate. }
  exists s. eexists. split; [exact Hs | reflexivity].
Defined.

(** C10: when [broadcast_tx_commit] resolves with an absent result, the
    attempt does not resolve with no value: the read of
    [result.deliver_tx] outside the [if (result)] guard throws a
    [TypeError], and [commitTxAsync] rejects with it after that one attempt,
    without a retry. *)
Theorem C10_absent_result_throws
  (tx : Message) (opts : option (list ITxMiddlewareHandler)) (w : World)
  (ch : RPCClient) (txBytes : Uint8Array) :
  write_channel w = Some ch ->
  apply_middleware (middleware_of opts w) (serializeBinary tx) = Resolved txBytes ->
  commit_reply (node ch) (length (sent ch)) (commit_request txBytes) = Answer None ->
  let w1 := update_channel (_writeClient (self w))
              (channel_sent (commit_request txBytes)) w in
  _commitTxAsync tx (middleware_of opts w) w
    = (Rejected (property_of_undefined "deliver_tx"), w1)
  /\ fst (_commitTxAsync tx (middleware_of opts w) w) <> Resolved None
  /\ isInvalidTxNonceError (property_of_undefined "deliver_tx") = false
  /\ commitTxAsync_run tx opts w
     = (Rejected (property_of_undefined "deliver_tx"),
        {| _timeouts := []; _attempts := 1; _errors := [] |}, w1)
  /\ commitTxAsync tx opts w = (Rejected (property_of_undefined "deliver_tx"), w1).
Proof.
  intros Hch Hmw Hreply w1.
  assert (Hrun : _commitTxAsync tx (middleware_of opts w) w
                 = (Rejected (property_of_undefined "deliver_tx"), w1)).
  { rewrite (_commitTxAsync_sent _ _ _ ch txBytes Hch Hmw), Hreply. reflexivity. }
  assert (Hloop : commitTxAsync_run tx opts w
                  = (Rejected (property_of_undefined "deliver_tx"),
                     {| _timeouts := []; _attempts := 1; _errors := [] |}, w1)).
  { unfold commitTxAsync_run, retry_attempt, retry_operation.
    cbn [_timeouts _attempts _errors].
    apply attempt_loop_terminal; [exact Hrun | reflexivity]. }
  repeat split.
  - exact Hrun.
  - rewrite Hrun. discriminate.
  - exact Hloop.
  - unfold commitTxAsync. now rewrite Hloop.
Qed.

(** A node that answers the commit with nothing, under the default policy
    of five retries: one attempt, a [TypeError]. *)
Lemma C10_absent_result_throws_witness :
  commitTxAsync_run sample_tx None (single_channel_world no_reply)
  = (Rejected (JsError ClsTypeError "Cannot read property 'deliver_tx' of undefined"),
     {| _timeouts := []; _attempts := 1; _errors := [] |},
     update_channel 0
       (channel_sent (commit_request (serializeBinary sample_tx)))
       (single_channel_world no_reply)).
Proof.
  exact (proj1 (proj2 (proj2 (proj2
           (C10_absent_result_throws sample_tx None
              (single_channel_world no_reply) _ _ eq_refl eq_refl eq_refl))))).
Defined.

(* ================================================================= *)
(** ** The middleware pipeline *)

Lemma apply_middleware_computes (middleware : list ITxMiddlewareHandler)
  (fs : list (Uint8Array -> Uint8Array)) :
  Forall2 computes middleware fs ->
  forall b, apply_middleware middleware b = Resolved (compose_all fs b).
Proof.
  induction 1 as [|m f ms fs' Hm _ IH]; intros b.
  - reflexivity.
  - cbn [apply_middleware compose_all fold_left]. rewrite (Hm b). apply IH.
Qed.

(** C4: for middleware [M1..Mn] that compute the functions [f1..fn], a
    commit attempt on the bytes [b] of the transaction transmits
    [fn(...(f1(b)))]: the one request it appends to the log of the write
    channel carries the base64 text of exactly these bytes. *)
Theorem C4_middleware_chain
  (tx : Message) (middleware : list ITxMiddlewareHandler)
  (fs : list (Uint8Array -> Uint8Array)) (w : World) (ch : RPCClient) :
  Forall2 computes middleware fs ->
  write_channel w = Some ch ->
  let transmitted := compose_all fs (serializeBinary tx) in
  let w' := snd (_commitTxAsync tx middleware w) in
  write_channel w'
    = Some (channel_with_sent
              (sent ch ++ [{| method := "broadcast_tx_commit";
                              params := ParamArray
                                          [PString (Uint8ArrayToB64 transmitted)] |}])
              ch)
  /\ B64ToUint8Array (Uint8ArrayToB64 transmitted) = transmitted
  /\ (forall text, Uint8ArrayToB64 transmitted = Uint8ArrayToB64 text ->
        text = transmitted).
Proof.
  intros Hfs Hch transmitted w'. subst transmitted w'.
  pose proof (apply_middleware_computes _ _ Hfs (serializeBinary tx)) as Hmw.
  rewrite (_commitTxAsync_sent _ _ _ ch _ Hch Hmw). cbn [snd].
  split; [|split].
  - unfold write_channel in *. rewrite update_channel_self.
    rewrite (channel_update_same _ _ _ ch Hch). reflexivity.
  - apply B64ToUint8Array_Uint8ArrayToB64.
  - intros text Heq.
    rewrite <- (B64ToUint8Array_Uint8ArrayToB64 text), <- Heq.
    apply B64ToUint8Array_Uint8ArrayToB64.
Qed.

(* ================================================================= *)
(** ** Queries *)

(** C8: [queryAsync] resolves with no value when the raw result of the read
    channel is absent or empty, and with its base64-decoded bytes
    otherwise. *)
Theorem C8_query_result
  (contract : Address.t) (query : option Uint8Array) (vmType : option VMType)
  (caller : option Address.t) (w : World) (ch : RPCClient)
  (raw : option string) :
  read_channel w = Some ch ->
  (forall req, method req = "query" ->
     string_reply (node ch) (length (sent ch)) req = Answer raw) ->
  let outcome := fst (queryAsync contract query vmType caller w) in
  (raw = None \/ raw = Some "" -> outcome = Resolved None)
  /\ (forall s, raw = Some s -> s <> "" ->
        outcome = Resolved (Some (B64ToUint8Array s))).
Proof.
  intros Hch Hreply outcome. subst outcome.
  unfold queryAsync, map_resolved.
  rewrite (sendAsync_at _ _ _ _ _ ch Hch).
  rewrite Hreply by reflexivity. cbn [fst]. split.
  - intros [-> | ->]; reflexivity.
  - intros s -> Hs. destruct s; [congruence | reflexivity].
Qed.

Lemma C8_query_result_witness :
  fst (queryAsync sample_address None None None
         (single_channel_world (constant_node None (Some "aGVsbG8="))))
  = Resolved (Some [Byte.x68; Byte.x65; Byte.x6c; Byte.x6c; Byte.x6f])
  /\ fst (queryAsync sample_address None None None
            (single_channel_world (constant_node None (Some ""))))
     = Resolved None.
Proof.
  split.
  - refine (proj2 (C8_query_result sample_address None None None
                     (single_channel_world (constant_node None (Some "aGVsbG8=")))
                     _ (Some "aGVsbG8=") eq_refl (fun _ _ => eq_refl))
              "aGVsbG8=" eq_refl _).
    discriminate.
  - exact (proj1 (C8_query_result sample_address None None None
                    (single_channel_world (constant_node None (Some "")))
                    _ (Some "") eq_refl (fun _ _ => eq_refl))
             (or_intror eq_refl)).
Defined.

Lemma C4_middleware_chain_witness :
  option_map sent
    (write_channel
       (snd (_commitTxAsync sample_tx [append_byte Byte.x21; reverse_bytes]
               (single_channel_world no_reply))))
  = Some [{| method := "broadcast_tx_commit";
             params := ParamArray [PString "IW9sbGVo"] |}]
  /\ B64ToUint8Array "IW9sbGVo"
     = rev (serializeBinary sample_tx ++ [Byte.x21]).
Proof.
  assert (Hfs : Forall2 computes [append_byte Byte.x21; reverse_bytes]
                  [fun b => b ++ [Byte.x21]; @rev byte]).
  { repeat constructor. }
  destruct (C4_middleware_chain sample_tx [append_byte Byte.x21; reverse_bytes]
              [fun b => b ++ [Byte.x21]; @rev byte]
              (single_channel_world no_reply) _ Hfs eq_refl)
    as (Hsent & Hdec & _).
  split.
  - rewrite Hsent. reflexivity.
  - exact Hdec.
Defined.

(* ================================================================= *)
(** ** Notifications *)

Lemma skipn_length_app {A : Type} (l l' : list A) : skipn (length l) (l ++ l') = l'.
Proof. induction l; simpl; auto. Qed.




Lemma snd_map_resolved {A B : Type} (f : A -> B) (m : Async A) (w : World) :
  snd (map_resolved f m w) = snd (m w).
Proof. unfold map_resolved. destruct (m w) as [[a|e] w']; reflexivity. Qed.




(* ================================================================= *)
(** ** Routing *)

Lemma snd_sendAsync {A : Type} (pick : Node -> nat -> Request -> Reply A)
  (c : ChanRef) (m : string) (p : Params) (w : World) :
  snd (sendAsync pick c m p w)
  = update_channel c (channel_sent {| method := m; params := p |}) w.
Proof.
  unfold sendAsync, update_channel.
  destruct (nth_error (heap w) c); reflexivity.
Qed.

(** Every call but a commit is one request on the read channel. *)
Lemma perform_read_call (c : ClientCall) (w : World) :
  route c = ViaRead ->
  exists req,
    perform c w = update_channel (_readClient (self w)) (channel_sent req) w.
Proof.
  destruct c; cbn [route]; try discriminate; intros _; cbn [perform];
    unfold queryAsync, getEvmTxReceiptAsync, getEvmTxByHashAsync,
      getEvmCodeAsync, getEvmLogsAsync, newEvmFilterAsync,
      getEvmFilterChangesAsync, newBlockEvmFilterAsync,
      newPendingTransactionEvmFilterAsync, uninstallEvmFilterAsync,
      getEvmBlockByNumberAsync, getEvmBlockByHashAsync, evmSubscribeAsync,
      evmUnsubscribeAsync, getBlockHeightAsync, getNonceAsync,
      getContractAddressAsync;
    rewrite ?snd_map_resolved, snd_sendAsync; eexists; reflexivity.
Qed.






(* ================================================================= *)
(** ** Teardown *)

Lemma same_connections_refl (w : World) : same_connections w w.
Proof. repeat split. Qed.

Lemma same_connections_trans (w1 w2 w3 : World) :
  same_connections w1 w2 -> same_connections w2 w3 -> same_connections w1 w3.
Proof.
  intros (Hw & Hr & Hd) (Hw' & Hr' & Hd').
  split; [congruence | split; [congruence|]].
  intros r. now rewrite Hd', Hd.
Qed.

Lemma same_connections_fold {X : Type} (f : World -> X -> World) (xs : list X) :
  (forall w x, same_connections w (f w x)) ->
  forall w, same_connections w (fold_left f xs w).
Proof.
  intros Hf. induction xs as [|x xs IH]; intros w; cbn [fold_left].
  - apply same_connections_refl.
  - eapply same_connections_trans; [apply Hf | apply IH].
Qed.

(** Changing the listeners or the logs of the client changes no channel. *)
Lemma same_connections_with_self (c : Client) (w : World) :
  _writeClient c = _writeClient (self w) ->
  _readClient c = _readClient (self w) ->
  same_connections w (with_self c w).
Proof. intros Hw Hr. repeat split; auto. Qed.

Lemma same_connections_update (c : ChanRef) (f : RPCClient -> RPCClient)
  (w : World) :
  (forall ch, disconnect_calls (f ch) = disconnect_calls ch) ->
  same_connections w (update_channel c f w).
Proof.
  intros Hf. unfold same_connections. rewrite update_channel_self.
  repeat split. intros r. destruct (Nat.eq_dec r c) as [->|Hne].
  - destruct (channel w c) as [ch|] eqn:Hch.
    + rewrite (channel_update_same _ _ _ ch Hch). cbn [option_map]. now rewrite Hf.
    + now rewrite (channel_update_none _ _ _ Hch), Hch.
  - now rewrite channel_update_other.
Qed.

Lemma same_connections_call_listener (l : Listener) (a : EmitArgs) (w : World) :
  same_connections w (call_listener l a w).
Proof.
  destruct l; cbn [call_listener].
  - destruct a; try apply same_connections_refl.
    destruct (_ && _); [|apply same_connections_refl].
    apply same_connections_update. reflexivity.
  - destruct a; try apply same_connections_refl.
    destruct (_ && _); [|apply same_connections_refl].
    apply same_connections_update. reflexivity.
  - apply same_connections_with_self; reflexivity.
Qed.

Lemma same_connections_emit (ev : string) (a : EmitArgs) (w : World) :
  same_connections w (snd (emit ev a w)).
Proof.
  unfold emit.
  assert (H0 : same_connections w (with_self (log_emit ev a (self w)) w))
    by (apply same_connections_with_self; reflexivity).
  destruct (listeners_of ev (_events (self w))) as [|l ls].
  - destruct (String.eqb ev "error"); exact H0.
  - cbn [snd]. eapply same_connections_trans; [exact H0|].
    apply same_connections_fold. intros w' x.
    apply same_connections_call_listener.
Qed.

Lemma same_connections_removeListener (ev : string) (l : Listener) (w : World) :
  same_connections w (removeListener ev l w).
Proof.
  unfold removeListener.
  destruct (remove_last _ _ _) as [ls|]; [|apply same_connections_refl].
  match goal with
  | |- same_connections _ (if _ then snd (emit _ _ ?w1) else _) =>
      assert (H1 : same_connections w w1)
        by (apply same_connections_with_self; reflexivity)
  end.
  destruct (has_listeners _ _); [|exact H1].
  eapply same_connections_trans; [exact H1 | apply same_connections_emit].
Qed.

Lemma same_connections_removeAllListenersOf (ev : string) (w : World) :
  same_connections w (removeAllListenersOf ev w).
Proof.
  unfold removeAllListenersOf. destruct (has_listeners _ _).
  - apply same_connections_fold. intros w' x.
    apply same_connections_removeListener.
  - apply same_connections_with_self; reflexivity.
Qed.

Lemma same_connections_removeAllListeners (w : World) :
  same_connections w (removeAllListeners w).
Proof.
  unfold removeAllListeners. destruct (has_listeners _ _).
  - eapply same_connections_trans;
      [|apply same_connections_with_self; reflexivity].
    eapply same_connections_trans;
      [|apply same_connections_removeAllListenersOf].
    apply same_connections_fold. intros w' key.
    destruct (String.eqb key "removeListener").
    + apply same_connections_refl.
    + apply same_connections_removeAllListenersOf.
  - apply same_connections_with_self; reflexivity.
Qed.

Lemma removeAllListeners_events (w : World) :
  _events (self (removeAllListeners w)) = [].
Proof. unfold removeAllListeners. destruct (has_listeners _ _); reflexivity. Qed.

Lemma option_map_Some {A B : Type} (f : A -> B) (o : option A) (v : B) :
  option_map f o = Some v -> exists x, o = Some x /\ f x = v.
Proof. destruct o as [x|]; simpl; intros [=]; eauto. Qed.

(** C7: [disconnect()] leaves the client without any listener and closes
    the write channel once and the read channel once; when both are the
    same object that object is closed once, not twice.  No other channel is
    closed. *)
Theorem C7_disconnect_closes_once (w : World) (cw cr : RPCClient) :
  write_channel w = Some cw ->
  read_channel w = Some cr ->
  let w' := disconnect w in
  _events (self w') = []
  /\ (forall ev, listenerCount ev (self w') = 0)
  /\ option_map disconnect_calls (write_channel w') = Some (S (disconnect_calls cw))
  /\ option_map disconnect_calls (read_channel w') = Some (S (disconnect_calls cr))
  /\ (forall r, r <> _writeClient (self w) -> r <> _readClient (self w) ->
        option_map disconnect_calls (channel w' r)
        = option_map disconnect_calls (channel w r)).
Proof.
  intros Hcw Hcr w'. subst w'. unfold disconnect.
  pose proof (same_connections_removeAllListeners w) as (Hw & Hr & Hd).
  pose proof (removeAllListeners_events w) as He.
  set (w1 := removeAllListeners w) in *.
  set (w2 := channel_disconnect (_writeClient (self w1)) w1).
  assert (Hs2 : self w2 = self w1) by apply update_channel_self.
  unfold write_channel, read_channel in *.
  assert (Hcw1 : exists c1, channel w1 (_writeClient (self w)) = Some c1
                            /\ disconnect_calls c1 = disconnect_calls cw).
  { apply option_map_Some. rewrite Hd, Hcw. reflexivity. }
  assert (Hcr1 : exists c1, channel w1 (_readClient (self w)) = Some c1
                            /\ disconnect_calls c1 = disconnect_calls cr).
  { apply option_map_Some. rewrite Hd, Hcr. reflexivity. }
  destruct Hcw1 as (cw1 & Hcw1 & Hdw). destruct Hcr1 as (cr1 & Hcr1 & Hdr).
  assert (Hw2 : channel w2 (_writeClient (self w)) = Some (channel_closed cw1)).
  { subst w2. rewrite Hw. apply channel_update_same. exact Hcw1. }
  assert (Ho2 : forall r, r <> _writeClient (self w) -> channel w2 r = channel w1 r).
  { intros r Hne. subst w2. rewrite Hw. now apply channel_update_other. }
  rewrite Hs2, Hw, Hr.
  destruct (Nat.eqb_spec (_readClient (self w)) (_writeClient (self w))) as [Heq|Hne];
    cbn [negb].
  - (* one channel for both roles *)
    rewrite Hs2, Hw, Hr, He, Heq, Hw2.
    rewrite Heq in Hcr. assert (cr = cw) by congruence. subst cr.
    cbn [option_map channel_closed disconnect_calls]. rewrite Hdw.
    split; [reflexivity|]. split.
    { intros ev. unfold listenerCount. rewrite ?Hs2, He. reflexivity. }
    split; [reflexivity|]. split; [reflexivity|].
    intros r Hr1 _. rewrite Ho2 by exact Hr1. apply Hd.
  - (* two channels *)
    assert (Hr2 : channel w2 (_readClient (self w)) = Some cr1)
      by (rewrite Ho2 by exact Hne; exact Hcr1).
    unfold channel_disconnect.
    rewrite ?update_channel_self, ?Hs2, ?Hw, ?Hr, ?He.
    fold (channel_disconnect (_writeClient (self w1)) w1). fold w2.
    rewrite (channel_update_other _ _ _ (_writeClient (self w)))
      by (intros E; apply Hne; symmetry; exact E).
    rewrite Hw2, (channel_update_same _ _ _ cr1 Hr2).
    cbn [option_map channel_closed disconnect_calls]. rewrite Hdw, Hdr.
    split; [reflexivity|]. split.
    { intros ev. unfold listenerCount, channel_disconnect.
      rewrite ?update_channel_self, ?Hs2, He. reflexivity. }
    split; [reflexivity|]. split; [reflexivity|].
    intros r Hr1 Hr3. rewrite channel_update_other by exact Hr3.
    rewrite Ho2 by exact Hr1. apply Hd.
Qed.

(** A client with one channel for both roles and two Contract listeners:
    after [disconnect()] the channel has been closed once and nothing is
    registered. *)
Lemma C7_disconnect_closes_once_witness :
  let w := register_all [Register "contractEvent" 1; Register "contractEvent" 2]
             (single_channel_world no_reply) in
  _readClient (self w) = _writeClient (self w)
  /\ option_map disconnect_calls (write_channel (disconnect w)) = Some 1
  /\ _events (self (disconnect w)) = [].
Proof.
  intros w.
  pose proof (C7_disconnect_closes_once w _ _ eq_refl eq_refl)
    as (He & _ & Hcw & _).
  split; [reflexivity|]. split; [exact Hcw | exact He].
Defined.

(* ================================================================= *)
(** ** The listener table *)

Lemma listeners_of_absent (k : string) (t : list (string * list Listener)) :
  ~ In k (map fst t) -> listeners_of k t = [].
Proof.
  induction t as [|[k0 ls] t IH]; cbn [listeners_of map fst In]; auto.
  intros Hn. destruct (String.eqb_spec k0 k) as [->|Hne].
  - exfalso. apply Hn. now left.
  - apply IH. intros Hin. apply Hn. now right.
Qed.

Lemma listeners_of_present (k : string) (t : list (string * list Listener)) :
  listeners_of k t <> [] -> In k (map fst t).
Proof.
  intros H. destruct (in_dec string_dec k (map fst t)) as [Hin|Hn]; auto.
  exfalso. apply H. now apply listeners_of_absent.
Qed.

Lemma listeners_of_add (ev : string) (l : Listener)
  (t : list (string * list Listener)) (k : string) :
  listeners_of k (add_listener ev l t)
  = if String.eqb k ev then listeners_of k t ++ [l] else listeners_of k t.
Proof.
  induction t as [|[k0 ls] t IH]; cbn [add_listener listeners_of].
  - rewrite (String.eqb_sym ev k). destruct (String.eqb k ev); reflexivity.
  - destruct (String.eqb_spec k0 ev) as [->|Hne]; cbn [listeners_of].
    + rewrite (String.eqb_sym ev k). destruct (String.eqb k ev); reflexivity.
    + rewrite IH. destruct (String.eqb_spec k0 k) as [->|Hne']; auto.
      destruct (String.eqb_spec k ev); congruence.
Qed.

Lemma keys_add (ev : string) (l : Listener) (t : list (string * list Listener))
  (k : string) :
  In k (map fst (add_listener ev l t)) -> k = ev \/ In k (map fst t).
Proof.
  induction t as [|[k0 ls] t IH]; cbn [add_listener map fst In].
  - intros [H|[]]; auto.
  - destruct (String.eqb k0 ev); cbn [map fst In]; intros [H|H]; auto.
    destruct (IH H); auto.
Qed.

Lemma NoDup_keys_add (ev : string) (l : Listener)
  (t : list (string * list Listener)) :
  NoDup (map fst t) -> NoDup (map fst (add_listener ev l t)).
Proof.
  induction t as [|[k0 ls] t IH]; cbn [add_listener map fst]; intros Hnd.
  - repeat constructor. intros [].
  - inversion Hnd as [|? ? Hnotin Hnd' ]; subst.
    destruct (String.eqb_spec k0 ev) as [->|Hne]; cbn [map fst].
    + constructor; auto.
    + constructor; auto. intros Hin.
      destruct (keys_add _ _ _ _ Hin); congruence.
Qed.

Lemma listeners_of_delete_other (ev k : string) (t : list (string * list Listener)) :
  k <> ev -> listeners_of k (delete_key ev t) = listeners_of k t.
Proof.
  intros Hne. induction t as [|[k0 ls] t IH]; cbn [delete_key listeners_of]; auto.
  destruct (String.eqb_spec k0 ev) as [->|Hne0]; cbn [listeners_of].
  - destruct (String.eqb_spec ev k); congruence.
  - now rewrite IH.
Qed.

Lemma keys_delete (ev k : string) (t : list (string * list Listener)) :
  In k (map fst (delete_key ev t)) -> In k (map fst t).
Proof.
  induction t as [|[k0 ls] t IH]; cbn [delete_key map fst In]; auto.
  destruct (String.eqb k0 ev); cbn [map fst In]; intuition.
Qed.

Lemma NoDup_keys_delete (ev : string) (t : list (string * list Listener)) :
  NoDup (map fst t) -> NoDup (map fst (delete_key ev t)).
Proof.
  induction t as [|[k0 ls] t IH]; cbn [delete_key map fst]; intros Hnd; auto.
  inversion Hnd as [|? ? Hnotin Hnd']; subst.
  destruct (String.eqb k0 ev); cbn [map fst]; auto.
  constructor; auto. intros Hin. apply Hnotin. eapply keys_delete; eauto.
Qed.

Lemma listeners_of_delete_same (ev : string) (t : list (string * list Listener)) :
  NoDup (map fst t) -> listeners_of ev (delete_key ev t) = [].
Proof.
  induction t as [|[k0 ls] t IH]; cbn [delete_key map fst]; intros Hnd; auto.
  inversion Hnd as [|? ? Hnotin Hnd']; subst.
  destruct (String.eqb_spec k0 ev) as [->|Hne]; cbn [listeners_of].
  - now apply listeners_of_absent.
  - destruct (String.eqb_spec k0 ev); [congruence|]. now apply IH.
Qed.

Lemma keys_replace (ev : string) (ls : list Listener)
  (t : list (string * list Listener)) :
  map fst (replace_key ev ls t) = map fst t.
Proof.
  induction t as [|[k0 ls0] t IH]; cbn [replace_key map fst]; auto.
  destruct (String.eqb_spec k0 ev) as [->|Hne]; cbn [map fst]; congruence.
Qed.

Lemma listeners_of_replace (ev : string) (ls : list Listener)
  (t : list (string * list Listener)) (k : string) :
  In ev (map fst t) ->
  listeners_of k (replace_key ev ls t)
  = if String.eqb k ev then ls else listeners_of k t.
Proof.
  induction t as [|[k0 ls0] t IH]; cbn [replace_key map fst In listeners_of].
  - intros [].
  - intros Hin. destruct (String.eqb_spec k0 ev) as [->|Hne]; cbn [listeners_of].
    + rewrite (String.eqb_sym ev k). destruct (String.eqb k ev); reflexivity.
    + destruct Hin as [?|Hin]; [congruence|]. rewrite (IH Hin).
      destruct (String.eqb_spec k0 k) as [->|Hne']; auto.
      destruct (String.eqb_spec k ev); congruence.
Qed.

(** The table after a removal: the event has the remaining listeners and
    every other event the ones it had. *)
Lemma listeners_of_put (ev : string) (ls : list Listener)
  (t : list (string * list Listener)) (k : string) :
  NoDup (map fst t) -> listeners_of ev t <> [] ->
  listeners_of k (put_listeners ev ls t)
  = if String.eqb k ev then ls else listeners_of k t.
Proof.
  intros Hnd Hne. unfold put_listeners. destruct ls as [|l ls].
  - destruct (String.eqb_spec k ev) as [->|Hk].
    + now apply listeners_of_delete_same.
    + now apply listeners_of_delete_other.
  - apply listeners_of_replace. now apply listeners_of_present.
Qed.

Lemma NoDup_keys_put (ev : string) (ls : list Listener)
  (t : list (string * list Listener)) :
  NoDup (map fst t) -> NoDup (map fst (put_listeners ev ls t)).
Proof.
  intros Hnd. unfold put_listeners. destruct ls.
  - now apply NoDup_keys_delete.
  - now rewrite keys_replace.
Qed.

(** *** Removing one registration *)

Section RemoveLast.
Context {A : Type} (eqb : A -> A -> bool).

Lemma remove_last_length (x : A) (l l' : list A) :
  remove_last eqb x l = Some l' -> length l = S (length l').
Proof.
  revert l'; induction l as [|y t IH]; cbn [remove_last]; intros l'; [discriminate|].
  destruct (remove_last eqb x t) as [t'|].
  - intros [= <-]. cbn [length]. f_equal. now apply IH.
  - destruct (eqb y x); [|discriminate]. intros [= <-]. reflexivity.
Qed.

Lemma remove_last_Forall (P : A -> Prop) (x : A) (l l' : list A) :
  remove_last eqb x l = Some l' -> Forall P l -> Forall P l'.
Proof.
  revert l'; induction l as [|y t IH]; cbn [remove_last]; intros l'; [discriminate|].
  intros H Hall. inversion Hall; subst.
  destruct (remove_last eqb x t) as [t'|].
  - injection H as <-. constructor; auto.
  - destruct (eqb y x); [|discriminate]. injection H as <-. assumption.
Qed.

(** The registrations equal to [x] are one fewer. *)
Lemma remove_last_count (x : A) (l l' : list A) :
  remove_last eqb x l = Some l' ->
  length (filter (fun y => eqb y x) l) = S (length (filter (fun y => eqb y x) l')).
Proof.
  revert l'; induction l as [|y t IH]; cbn [remove_last]; intros l'; [discriminate|].
  destruct (remove_last eqb x t) as [t'|] eqn:Ht.
  - intros [= <-]. cbn [filter]. specialize (IH t' eq_refl).
    destruct (eqb y x); cbn [length]; now rewrite IH.
  - destruct (eqb y x) eqn:Hy; [|discriminate]. intros [= <-].
    cbn [filter]. rewrite Hy. reflexivity.
Qed.

Lemma remove_last_None_count (x : A) (l : list A) :
  remove_last eqb x l = None -> length (filter (fun y => eqb y x) l) = 0.
Proof.
  induction l as [|y t IH]; cbn [remove_last filter]; auto.
  destruct (remove_last eqb x t); [discriminate|].
  destruct (eqb y x); [discriminate|]. auto.
Qed.

End RemoveLast.

Lemma remove_last_consumer_hook (h : Listener) (n : nat) (cs : list Listener) :
  ~ is_consumer h ->
  remove_last Listener_eqb (Consumer n) (h :: cs)
  = option_map (cons h) (remove_last Listener_eqb (Consumer n) cs).
Proof.
  intros Hh. cbn [remove_last].
  destruct (remove_last Listener_eqb (Consumer n) cs); cbn [option_map]; auto.
  destruct h; cbn [Listener_eqb]; auto. exfalso. apply Hh. exact I.
Qed.

(* ================================================================= *)
(** ** The lazy subscription *)

Lemma heap_update_with_self (c : ChanRef) (f : RPCClient -> RPCClient)
  (cl : Client) (w : World) :
  heap (update_channel c f (with_self cl w)) = heap (update_channel c f w).
Proof.
  unfold update_channel. cbn [with_self heap].
  destruct (nth_error (heap w) c); reflexivity.
Qed.

Lemma core_update (c : ChanRef) (f : RPCClient -> RPCClient) (w : World) :
  core (update_channel c f w)
  = (_events (self w), _writeClient (self w), _readClient (self w),
     heap (update_channel c f w)).
Proof. unfold core. now rewrite update_channel_self. Qed.

Lemma call_consumers_core (cs : list Listener) (a : EmitArgs) (w : World) :
  Forall is_consumer cs ->
  core (fold_left (fun w' l => call_listener l a w') cs w) = core w.
Proof.
  intros Hcs. revert w. induction Hcs as [|l cs Hl _ IH]; intros w; cbn [fold_left].
  - reflexivity.
  - rewrite IH. destruct l; cbn in Hl; try contradiction. reflexivity.
Qed.

Lemma core_with_events (e : list (string * list Listener)) (w : World) :
  core (with_self (with_events e (self w)) w)
  = (e, _writeClient (self w), _readClient (self w), heap w).
Proof. reflexivity. Qed.

Lemma core_inv (w w' : World) :
  core w = core w' ->
  _events (self w) = _events (self w')
  /\ _writeClient (self w) = _writeClient (self w')
  /\ _readClient (self w) = _readClient (self w')
  /\ heap w = heap w'.
Proof. unfold core. intros [= -> -> -> ->]. auto. Qed.

Lemma core_update_logged (c : ChanRef) (cl : Client) (w : World) :
  _events cl = _events (self w) ->
  _writeClient cl = _writeClient (self w) ->
  _readClient cl = _readClient (self w) ->
  forall f, core (update_channel c f (with_self cl w)) = core (update_channel c f w).
Proof.
  intros He Hw Hr f. rewrite !core_update. cbn [with_self self].
  rewrite He, Hw, Hr, heap_update_with_self. reflexivity.
Qed.

Lemma on_core (ev : string) (n : nat) (w : World) (cs : list Listener) :
  listeners_of "newListener" (_events (self w)) = NewListenerHook :: cs ->
  Forall is_consumer cs ->
  core (on ev (Consumer n) w)
  = (add_listener ev (Consumer n) (_events (self w)),
     _writeClient (self w), _readClient (self w),
     heap (if String.eqb ev contractEvent && (consumers w =? 0)%nat
           then channel_on (_readClient (self w)) RPCClientEvent.Message
                  emitContractEvent w
           else w)).
Proof.
  intros Hhook Hcs. unfold on, has_listeners. rewrite Hhook.
  unfold emit. rewrite Hhook. cbn [snd fold_left].
  set (a := ListenerArgs ev (Consumer n)).
  set (w0 := with_self (log_emit "newListener" a (self w)) w).
  set (X := if String.eqb ev contractEvent && (consumers w =? 0)%nat
            then channel_on (_readClient (self w)) RPCClientEvent.Message
                   emitContractEvent w
            else w).
  assert (Hhk : core (call_listener NewListenerHook a w0) = core X).
  { subst a X. cbn [call_listener].
    change (listenerCount (ClientEvent.value ClientEvent.Contract) (self w0))
      with (consumers w).
    change (ClientEvent.value ClientEvent.Contract) with contractEvent.
    destruct (String.eqb ev contractEvent && (consumers w =? 0)%nat);
      [|reflexivity].
    unfold channel_on. subst w0. now apply core_update_logged. }
  pose proof (call_consumers_core cs a (call_listener NewListenerHook a w0) Hcs) as Hc.
  rewrite Hhk in Hc. apply core_inv in Hc. destruct Hc as (He & Hw & Hr & Hh).
  rewrite core_with_events, He, Hw, Hr, Hh.
  subst X. destruct (String.eqb ev contractEvent && (consumers w =? 0)%nat);
    unfold channel_on; rewrite ?update_channel_self; reflexivity.
Qed.

Lemma removeListener_core (ev : string) (n : nat) (w : World)
  (cs ls : list Listener) :
  listeners_of "removeListener" (_events (self w)) = RemoveListenerHook :: cs ->
  Forall is_consumer cs ->
  NoDup (map fst (_events (self w))) ->
  remove_last Listener_eqb (Consumer n) (listeners_of ev (_events (self w)))
    = Some ls ->
  core (removeListener ev (Consumer n) w)
  = (put_listeners ev ls (_events (self w)),
     _writeClient (self w), _readClient (self w),
     heap (if String.eqb ev contractEvent
              && (length (listeners_of contractEvent
                            (put_listeners ev ls (_events (self w)))) =? 0)%nat
           then channel_removeListener (_readClient (self w))
                  RPCClientEvent.Message emitContractEvent w
           else w)).
Proof.
  intros Hhook Hcs Hnd Hrm. unfold removeListener. rewrite Hrm.
  set (E' := put_listeners ev ls (_events (self w))).
  set (w1 := with_self (with_events E' (self w)) w).
  assert (Hne : listeners_of ev (_events (self w)) <> []).
  { intros E. rewrite E in Hrm. discriminate. }
  assert (Hhook' : exists cs', listeners_of "removeListener" E'
                               = RemoveListenerHook :: cs'
                               /\ Forall is_consumer cs').
  { subst E'. rewrite listeners_of_put by assumption.
    destruct (String.eqb_spec "removeListener" ev) as [<-|Hk]; [|eauto].
    rewrite Hhook in Hrm. rewrite remove_last_consumer_hook in Hrm by (cbn; auto).
    destruct (remove_last Listener_eqb (Consumer n) cs) as [cs'|] eqn:Hcs';
      cbn [option_map] in Hrm; [|discriminate].
    injection Hrm as <-. exists cs'. split; auto.
    eapply remove_last_Forall; eauto. }
  destruct Hhook' as (cs' & Hhook' & Hcs').
  unfold has_listeners. cbn [w1 with_self with_events self _events].
  rewrite Hhook'. unfold emit.
  cbn [w1 with_self with_events self _events]. rewrite Hhook'.
  cbn [snd fold_left].
  set (a := ListenerArgs ev (Consumer n)).
  set (w0 := with_self (log_emit "removeListener" a (self w1)) w1).
  set (X := if String.eqb ev contractEvent
               && (length (listeners_of contractEvent E') =? 0)%nat
            then channel_removeListener (_readClient (self w))
                   RPCClientEvent.Message emitContractEvent w
            else w).
  assert (Hhk : core (call_listener RemoveListenerHook a w0)
                = (E', _writeClient (self w), _readClient (self w), heap X)).
  { subst a X. cbn [call_listener].
    change (listenerCount (ClientEvent.value ClientEvent.Contract) (self w0))
      with (length (listeners_of contractEvent E')).
    change (ClientEvent.value ClientEvent.Contract) with contractEvent.
    destruct (String.eqb ev contractEvent
              && (length (listeners_of contractEvent E') =? 0)%nat);
      [|reflexivity].
    unfold channel_removeListener. rewrite core_update. subst w0 w1.
    unfold update_channel.
    cbn [with_self with_events log_emit self _events _writeClient _readClient heap].
    destruct (nth_error (heap w) (_readClient (self w))); reflexivity. }
  pose proof (call_consumers_core cs' a (call_listener RemoveListenerHook a w0) Hcs') as Hc.
  exact (eq_trans Hc Hhk).
Qed.

Lemma core_events (w : World) E wr rd h :
  core w = (E, wr, rd, h) ->
  _events (self w) = E /\ _writeClient (self w) = wr
  /\ _readClient (self w) = rd /\ heap w = h.
Proof. unfold core. intros [= -> -> -> ->]. auto. Qed.

Lemma subscribed_message_handler (ch : RPCClient) :
  attached_count (channel_subscribed message_handler ch) = S (attached_count ch)
  /\ subscribe_calls (channel_subscribed message_handler ch) = S (subscribe_calls ch)
  /\ unsubscribe_calls (channel_subscribed message_handler ch) = unsubscribe_calls ch.
Proof.
  unfold attached_count, subscribe_calls, unsubscribe_calls.
  cbn [channel_subscribed subscriptions on_calls removeListener_calls].
  rewrite !filter_app, !length_app. cbn. repeat split; lia.
Qed.

Lemma unsubscribed_message_handler (ch : RPCClient) :
  attached_count (channel_unsubscribed message_handler ch) = pred (attached_count ch)
  /\ subscribe_calls (channel_unsubscribed message_handler ch) = subscribe_calls ch
  /\ unsubscribe_calls (channel_unsubscribed message_handler ch)
     = S (unsubscribe_calls ch).
Proof.
  unfold attached_count, subscribe_calls, unsubscribe_calls.
  cbn [channel_unsubscribed subscriptions on_calls removeListener_calls].
  split; [|split; [reflexivity|]].
  - destruct (remove_last Subscription_eqb message_handler (subscriptions ch))
      as [l|] eqn:Hrm.
    + rewrite (remove_last_count _ _ _ _ Hrm). reflexivity.
    + rewrite (remove_last_None_count _ _ _ Hrm). reflexivity.
  - rewrite filter_app, length_app. cbn. lia.
Qed.

(** One registration or removal keeps the state and calls the read channel
    exactly on the transitions between no listener and one listener. *)
Lemma register_step (o : Registration) (w : World) :
  subscribed_lazily w ->
  subscribed_lazily (register o w)
  /\ exists ch ch',
       read_channel w = Some ch /\ read_channel (register o w) = Some ch'
       /\ subscribe_calls ch'
          = subscribe_calls ch
            + (if (consumers w =? 0)%nat && (consumers (register o w) =? 1)%nat
               then 1 else 0)
       /\ unsubscribe_calls ch'
          = unsubscribe_calls ch
            + (if (consumers w =? 1)%nat && (consumers (register o w) =? 0)%nat
               then 1 else 0).
Proof.
  intros [(cs1 & Hn & Hcs1) (cs2 & Hr & Hcs2) Hnd (ch & Hch & Hatt)].
  destruct o as [ev n | ev n]; cbn [register].
  - (* client.on(ev, callback) *)
    pose proof (on_core ev n w cs1 Hn Hcs1) as Hcore.
    apply core_events in Hcore. destruct Hcore as (He & Hw & Hrd & Hh).
    set (w' := on ev (Consumer n) w) in *.
    assert (Hcount : consumers w'
                     = if String.eqb ev contractEvent then S (consumers w)
                       else consumers w).
    { unfold consumers, listenerCount. rewrite He, listeners_of_add.
      rewrite (String.eqb_sym contractEvent ev).
      destruct (String.eqb ev contractEvent); [|reflexivity].
      rewrite length_app. cbn. lia. }
    assert (Hread : exists ch',
               read_channel w' = Some ch'
               /\ ch' = if String.eqb ev contractEvent && (consumers w =? 0)%nat
                        then channel_subscribed message_handler ch else ch).
    { unfold read_channel, channel. rewrite Hrd, Hh.
      destruct (String.eqb ev contractEvent && (consumers w =? 0)%nat).
      - eexists. split; [|reflexivity].
        apply (channel_update_same _ _ w ch Hch).
      - exists ch. split; [exact Hch | reflexivity]. }
    destruct Hread as (ch' & Hch' & Hdef).
    pose proof (subscribed_message_handler ch) as (Ha & Hs & Hu).
    split.
    + constructor.
      * rewrite He, listeners_of_add, Hn.
        destruct (String.eqb "newListener" ev).
        -- exists (cs1 ++ [Consumer n]). split; [reflexivity|].
           apply Forall_app. split; auto. repeat constructor.
        -- eauto.
      * rewrite He, listeners_of_add, Hr.
        destruct (String.eqb "removeListener" ev).
        -- exists (cs2 ++ [Consumer n]). split; [reflexivity|].
           apply Forall_app. split; auto. repeat constructor.
        -- eauto.
      * rewrite He. now apply NoDup_keys_add.
      * exists ch'. split; [exact Hch'|]. rewrite Hdef, Hcount.
        destruct (String.eqb ev contractEvent); cbn [andb]; [|exact Hatt].
        destruct (consumers w); cbn [Nat.eqb] in *; [lia | exact Hatt].
    + exists ch, ch'. split; [exact Hch|]. split; [exact Hch'|].
      rewrite Hdef, Hcount.
      destruct (String.eqb ev contractEvent); cbn [andb].
      * destruct (consumers w) as [|[|k]]; cbn [Nat.eqb andb]; lia.
      * destruct (consumers w) as [|[|k]]; cbn [Nat.eqb andb]; lia.
  - (* client.removeListener(ev, callback) *)
    destruct (remove_last Listener_eqb (Consumer n)
                (listeners_of ev (_events (self w)))) as [ls|] eqn:Hrm.
    + pose proof (removeListener_core ev n w cs2 ls Hr Hcs2 Hnd Hrm) as Hcore.
      apply core_events in Hcore. destruct Hcore as (He & Hw & Hrd & Hh).
      set (w' := removeListener ev (Consumer n) w) in *.
      assert (Hne : listeners_of ev (_events (self w)) <> []).
      { intros E. rewrite E in Hrm. discriminate. }
      assert (Hcount : consumers w
                       = if String.eqb ev contractEvent then S (consumers w')
                         else consumers w').
      { unfold consumers, listenerCount. rewrite He, listeners_of_put by assumption.
        rewrite (String.eqb_sym contractEvent ev).
        destruct (String.eqb_spec ev contractEvent) as [->|]; [|reflexivity].
        apply (remove_last_length _ _ _ _ Hrm). }
      assert (Hlen : length (listeners_of contractEvent
                               (put_listeners ev ls (_events (self w))))
                     = consumers w').
      { unfold consumers, listenerCount. now rewrite He. }
      rewrite Hlen in Hh.
      assert (Hread : exists ch',
                 read_channel w' = Some ch'
                 /\ ch' = if String.eqb ev contractEvent && (consumers w' =? 0)%nat
                          then channel_unsubscribed message_handler ch else ch).
      { unfold read_channel, channel. rewrite Hrd, Hh.
        destruct (String.eqb ev contractEvent && (consumers w' =? 0)%nat).
        - eexists. split; [|reflexivity].
          apply (channel_update_same _ _ w ch Hch).
        - exists ch. split; [exact Hch | reflexivity]. }
      destruct Hread as (ch' & Hch' & Hdef).
      pose proof (unsubscribed_message_handler ch) as (Ha & Hs & Hu).
      split.
      * constructor.
        -- rewrite He, listeners_of_put by assumption.
           destruct (String.eqb_spec "newListener" ev) as [<-|]; [|eauto].
           rewrite Hn, remove_last_consumer_hook in Hrm by (cbn; auto).
           destruct (remove_last Listener_eqb (Consumer n) cs1) as [cs'|] eqn:Hcs';
             cbn [option_map] in Hrm; [|discriminate].
           injection Hrm as <-. exists cs'. split; auto.
           eapply remove_last_Forall; eauto.
        -- rewrite He, listeners_of_put by assumption.
           destruct (String.eqb_spec "removeListener" ev) as [<-|]; [|eauto].
           rewrite Hr, remove_last_consumer_hook in Hrm by (cbn; auto).
           destruct (remove_last Listener_eqb (Consumer n) cs2) as [cs'|] eqn:Hcs';
             cbn [option_map] in Hrm; [|discriminate].
           injection Hrm as <-. exists cs'. split; auto.
           eapply remove_last_Forall; eauto.
        -- rewrite He. now apply NoDup_keys_put.
        -- exists ch'. split; [exact Hch'|]. rewrite Hdef.
           rewrite Hcount in Hatt.
           destruct (String.eqb ev contractEvent); cbn [andb] in *.
           ++ destruct (consumers w'); cbn [Nat.eqb] in *; [lia | exact Hatt].
           ++ exact Hatt.
      * exists ch, ch'. split; [exact Hch|]. split; [exact Hch'|].
        rewrite Hdef, Hcount.
        destruct (String.eqb ev contractEvent); cbn [andb].
        -- destruct (consumers w') as [|[|k]]; cbn [Nat.eqb andb]; lia.
        -- destruct (consumers w') as [|[|k]]; cbn [Nat.eqb andb]; lia.
    + (* nothing to remove *)
      unfold removeListener. rewrite Hrm.
      split.
      * constructor; eauto.
      * exists ch, ch. repeat split; auto.
        -- destruct (consumers w) as [|[|k]]; cbn [Nat.eqb andb]; lia.
        -- destruct (consumers w) as [|[|k]]; cbn [Nat.eqb andb]; lia.
Qed.

Lemma register_all_app (ops ops' : list Registration) (w : World) :
  register_all (ops ++ ops') w = register_all ops' (register_all ops w).
Proof. unfold register_all. apply fold_left_app. Qed.

Lemma subscribed_lazily_register_all (ops : list Registration) (w : World) :
  subscribed_lazily w -> subscribed_lazily (register_all ops w).
Proof.
  revert w. induction ops as [|o ops IH]; intros w Hw; cbn; auto.
  apply IH. now apply register_step.
Qed.

Lemma listeners_after_register (ev : string) (n : nat) (w : World) (k : string) :
  subscribed_lazily w ->
  listeners_of k (_events (self (register (Register ev n) w)))
  = if String.eqb k ev then listeners_of k (_events (self w)) ++ [Consumer n]
    else listeners_of k (_events (self w)).
Proof.
  intros [(cs1 & Hn & Hcs1) _ _ _]. cbn [register].
  pose proof (on_core ev n w cs1 Hn Hcs1) as Hcore.
  apply core_events in Hcore. destruct Hcore as (He & _).
  rewrite He. apply listeners_of_add.
Qed.

Lemma listeners_after_unregister (ev : string) (n : nat) (w : World)
  (ls : list Listener) (k : string) :
  subscribed_lazily w ->
  remove_last Listener_eqb (Consumer n) (listeners_of ev (_events (self w)))
    = Some ls ->
  listeners_of k (_events (self (register (Unregister ev n) w)))
  = if String.eqb k ev then ls else listeners_of k (_events (self w)).
Proof.
  intros [_ (cs2 & Hr & Hcs2) Hnd _] Hrm. cbn [register].
  pose proof (removeListener_core ev n w cs2 ls Hr Hcs2 Hnd Hrm) as Hcore.
  apply core_events in Hcore. destruct Hcore as (He & _).
  rewrite He. apply listeners_of_put; auto.
  intros E. rewrite E in Hrm. discriminate.
Qed.

Lemma remove_last_first_of_two (n1 n2 : nat) :
  remove_last Listener_eqb (Consumer n1) [Consumer n1; Consumer n2]
  = Some [Consumer n2].
Proof.
  cbn [remove_last Listener_eqb]. rewrite Nat.eqb_refl.
  destruct (Nat.eqb_spec n2 n1) as [->|]; reflexivity.
Qed.

Lemma remove_last_only (n : nat) :
  remove_last Listener_eqb (Consumer n) [Consumer n] = Some [].
Proof. cbn [remove_last Listener_eqb]. now rewrite Nat.eqb_refl. Qed.

(** Two consumers register and unregister on a client without Contract
    listeners: one [on] call and one [removeListener] call reach the read
    channel. *)
Lemma two_consumers (w : World) (ch : RPCClient) (n1 n2 : nat) :
  subscribed_lazily w ->
  read_channel w = Some ch ->
  consumers w = 0 ->
  let w2 := register_all [Register contractEvent n1; Register contractEvent n2] w in
  let w4 := register_all [Unregister contractEvent n1; Unregister contractEvent n2] w2 in
  exists ch2 ch4,
    read_channel w2 = Some ch2 /\ read_channel w4 = Some ch4
    /\ subscribe_calls ch2 = subscribe_calls ch + 1
    /\ unsubscribe_calls ch2 = unsubscribe_calls ch
    /\ attached_count ch2 = 1
    /\ subscribe_calls ch4 = subscribe_calls ch + 1
    /\ unsubscribe_calls ch4 = unsubscribe_calls ch + 1
    /\ attached_count ch4 = 0.
Proof.
  intros Hinv Hch H0 w2 w4. subst w2 w4. cbn [register_all fold_left].
  set (w1 := register (Register contractEvent n1) w).
  set (w2 := register (Register contractEvent n2) w1).
  set (w3 := register (Unregister contractEvent n1) w2).
  set (w4 := register (Unregister contractEvent n2) w3).
  assert (HL0 : listeners_of contractEvent (_events (self w)) = []).
  { unfold consumers, listenerCount in H0.
    destruct (listeners_of contractEvent (_events (self w))); [reflexivity|discriminate]. }
  destruct (register_step (Register contractEvent n1) w Hinv)
    as (Hinv1 & c0 & c1 & Hc0 & Hc1 & Hs1 & Hu1).
  fold w1 in Hinv1, Hc1, Hs1, Hu1.
  assert (HL1 : listeners_of contractEvent (_events (self w1)) = [Consumer n1]).
  { subst w1. rewrite listeners_after_register by assumption.
    rewrite String.eqb_refl, HL0. reflexivity. }
  destruct (register_step (Register contractEvent n2) w1 Hinv1)
    as (Hinv2 & c1' & c2 & Hc1' & Hc2 & Hs2 & Hu2).
  fold w2 in Hinv2, Hc2, Hs2, Hu2.
  assert (HL2 : listeners_of contractEvent (_events (self w2))
                = [Consumer n1; Consumer n2]).
  { subst w2. rewrite listeners_after_register by assumption.
    rewrite String.eqb_refl, HL1. reflexivity. }
  destruct (register_step (Unregister contractEvent n1) w2 Hinv2)
    as (Hinv3 & c2' & c3 & Hc2' & Hc3 & Hs3 & Hu3).
  fold w3 in Hinv3, Hc3, Hs3, Hu3.
  assert (HL3 : listeners_of contractEvent (_events (self w3)) = [Consumer n2]).
  { subst w3. rewrite (listeners_after_unregister _ _ _ [Consumer n2]).
    - now rewrite String.eqb_refl.
    - assumption.
    - rewrite HL2. apply remove_last_first_of_two. }
  destruct (register_step (Unregister contractEvent n2) w3 Hinv3)
    as (Hinv4 & c3' & c4 & Hc3' & Hc4 & Hs4 & Hu4).
  fold w4 in Hinv4, Hc4, Hs4, Hu4.
  assert (HL4 : listeners_of contractEvent (_events (self w4)) = []).
  { subst w4. rewrite (listeners_after_unregister _ _ _ []).
    - now rewrite String.eqb_refl.
    - assumption.
    - rewrite HL3. apply remove_last_only. }
  assert (K0 : consumers w = 0) by exact H0.
  assert (K1 : consumers w1 = 1) by (unfold consumers, listenerCount; now rewrite HL1).
  assert (K2 : consumers w2 = 2) by (unfold consumers, listenerCount; now rewrite HL2).
  assert (K3 : consumers w3 = 1) by (unfold consumers, listenerCount; now rewrite HL3).
  assert (K4 : consumers w4 = 0) by (unfold consumers, listenerCount; now rewrite HL4).
  rewrite K0, K1 in Hs1, Hu1. rewrite K1, K2 in Hs2, Hu2.
  rewrite K2, K3 in Hs3, Hu3. rewrite K3, K4 in Hs4, Hu4.
  cbn [Nat.eqb andb] in Hs1, Hu1, Hs2, Hu2, Hs3, Hu3, Hs4, Hu4.
  assert (c0 = ch) by congruence. subst c0.
  assert (c1' = c1) by congruence. subst c1'.
  assert (c2' = c2) by congruence. subst c2'.
  assert (c3' = c3) by congruence. subst c3'.
  destruct Hinv2 as [_ _ _ (x2 & Hx2 & Ha2)].
  destruct Hinv4 as [_ _ _ (x4 & Hx4 & Ha4)].
  assert (x2 = c2) by congruence. subst x2.
  assert (x4 = c4) by congruence. subst x4.
  rewrite K2 in Ha2. rewrite K4 in Ha4. cbn [Nat.eqb] in Ha2, Ha4.
  exists c2, c4. repeat split; auto; lia.
Qed.

(** *** A new client *)

Lemma Forall_store_set {A : Type} (P : A -> Prop) (r : nat) (x : A) (h : list A) :
  Forall P h -> P x -> Forall P (store_set r x h).
Proof.
  intros Hh Hx. revert r.
  induction Hh as [|y t Hy Ht IH]; intros [|r]; cbn [store_set]; auto.
Qed.

Lemma fresh_new_WSRPCClient (net : string -> Node) (u : string) :
  fresh_channel (new_WSRPCClient net u).
Proof. repeat split. Qed.

Lemma fresh_net_forwarder (ev : RPCClientEvent.t) (r : Role) (k : ClientEvent.t)
  (ch : RPCClient) :
  fresh_channel ch -> fresh_channel (channel_subscribed (ev, NetForwarder r k) ch).
Proof.
  unfold fresh_channel, attached_count, subscribe_calls, unsubscribe_calls.
  cbn [channel_subscribed subscriptions on_calls removeListener_calls].
  rewrite !filter_app, !length_app.
  assert (E : Subscription_eqb (ev, NetForwarder r k) message_handler = false).
  { unfold Subscription_eqb. cbn. apply andb_false_r. }
  cbn [filter]. rewrite E. cbn [length]. lia.
Qed.

Lemma fresh_update (c : ChanRef) (f : RPCClient -> RPCClient) (w : World) :
  (forall ch, fresh_channel ch -> fresh_channel (f ch)) ->
  fresh_store (heap w) -> fresh_store (heap (update_channel c f w)).
Proof.
  intros Hf Hh. unfold update_channel.
  destruct (nth_error (heap w) c) as [ch|] eqn:Hch; [|exact Hh].
  cbn [with_heap heap]. apply Forall_store_set; auto.
  apply Hf. unfold fresh_store in Hh. rewrite Forall_forall in Hh.
  apply Hh. eapply nth_error_In; eauto.
Qed.

Lemma wire_net_events_spec (role : Role) (c : ChanRef) (w : World) :
  fresh_store (heap w) ->
  self (wire_net_events role c w) = self w
  /\ length (heap (wire_net_events role c w)) = length (heap w)
  /\ fresh_store (heap (wire_net_events role c w)).
Proof.
  intros Hh. unfold wire_net_events, channel_on.
  rewrite !update_channel_self, !update_channel_length.
  repeat split.
  repeat (apply fresh_update; [intros ch; apply fresh_net_forwarder|]).
  exact Hh.
Qed.

Lemma resolve_client_spec (net : string -> Node) (a : ClientArg)
  (h : list RPCClient) :
  arg_valid h a -> fresh_store h ->
  fst (resolve_client net a h) < length (snd (resolve_client net a h))
  /\ length h <= length (snd (resolve_client net a h))
  /\ fresh_store (snd (resolve_client net a h)).
Proof.
  intros Hv Hh. destruct a as [u|r]; cbn [resolve_client fst snd arg_valid] in *.
  - rewrite length_app. cbn [length]. repeat split; try lia.
    apply Forall_app. split; auto. constructor; auto.
    apply fresh_new_WSRPCClient.
  - auto.
Qed.

(** The channels of a new client: the read reference points to a channel
    that knows nothing of [emitContractEvent] yet. *)
Lemma connect_spec (net : string -> Node) (chain : string)
  (writeClient : ClientArg) (readClient : option ClientArg) (h : list RPCClient) :
  arg_valid h writeClient ->
  (forall rc, readClient = Some rc -> arg_valid h rc) ->
  fresh_store h ->
  let w := connect net chain writeClient readClient h in
  _events (self w) = []
  /\ exists ch, read_channel w = Some ch /\ fresh_channel ch.
Proof.
  intros Hvw Hvr Hh. cbv zeta. unfold connect.
  destruct (resolve_client_spec net writeClient h Hvw Hh) as (Hlt & Hle & Hf1).
  destruct (resolve_client net writeClient h) as [wr h1]. cbn [fst snd] in *.
  cbv zeta.
  match goal with
  | |- context [wire_net_events WriteRole wr ?x] =>
      destruct (wire_net_events_spec WriteRole wr x Hf1) as (Hs1 & Hl1 & Hfw1);
      set (w1 := wire_net_events WriteRole wr x) in *
  end.
  cbn [self heap] in Hs1, Hl1.
  assert (Hshared : _events (self w1) = []
                    /\ exists ch, read_channel w1 = Some ch /\ fresh_channel ch).
  { rewrite Hs1. split; [reflexivity|].
    unfold read_channel, channel. rewrite Hs1. cbn [_readClient].
    destruct (nth_error (heap w1) wr) as [ch|] eqn:Hch.
    - exists ch. split; auto. unfold fresh_store in Hfw1.
      rewrite Forall_forall in Hfw1. apply Hfw1. eapply nth_error_In; eauto.
    - apply nth_error_None in Hch. lia. }
  destruct readClient as [rc|]; [|exact Hshared].
  destruct (ClientArg_falsy (Some rc) || ClientArg_same writeClient rc);
    [exact Hshared|].
  assert (Hvrc : arg_valid (heap w1) rc).
  { specialize (Hvr rc eq_refl). destruct rc; cbn [arg_valid] in *; auto. lia. }
  destruct (resolve_client_spec net rc (heap w1) Hvrc Hfw1) as (Hlt2 & _ & Hf2).
  destruct (resolve_client net rc (heap w1)) as [rd h2]. cbn [fst snd] in *.
  match goal with
  | |- context [wire_net_events ReadRole rd ?x] =>
      destruct (wire_net_events_spec ReadRole rd x Hf2) as (Hs2 & Hl2 & Hfw2);
      set (w2 := wire_net_events ReadRole rd x) in *
  end.
  cbn [self heap] in Hs2, Hl2.
  rewrite Hs2. split; [reflexivity|].
  unfold read_channel, channel. rewrite Hs2. cbn [_readClient].
  destruct (nth_error (heap w2) rd) as [ch|] eqn:Hch.
  - exists ch. split; auto. unfold fresh_store in Hfw2.
    rewrite Forall_forall in Hfw2. apply Hfw2. eapply nth_error_In; eauto.
  - apply nth_error_None in Hch. lia.
Qed.

(** The two hooks on a client without listeners. *)
Lemma hooks_core (w : World) :
  _events (self w) = [] ->
  core (on "removeListener" RemoveListenerHook (on "newListener" NewListenerHook w))
  = ([("newListener", [NewListenerHook]); ("removeListener", [RemoveListenerHook])],
     _writeClient (self w), _readClient (self w), heap w).
Proof.
  intros He.
  assert (H1 : on "newListener" NewListenerHook w
               = with_self
                   (with_events [("newListener", [NewListenerHook])] (self w)) w).
  { unfold on, has_listeners. rewrite He. cbn [listeners_of]. rewrite He.
    reflexivity. }
  rewrite H1. reflexivity.
Qed.

Lemma constructor_subscribed_lazily (net : string -> Node) (chain : string)
  (writeClient : ClientArg) (readClient : option ClientArg) (h : list RPCClient) :
  arg_valid h writeClient ->
  (forall rc, readClient = Some rc -> arg_valid h rc) ->
  fresh_store h ->
  let w := constructor net chain writeClient readClient h in
  subscribed_lazily w
  /\ consumers w = 0
  /\ exists ch, read_channel w = Some ch /\ fresh_channel ch.
Proof.
  intros Hvw Hvr Hh. cbv zeta. unfold constructor.
  destruct (connect_spec net chain writeClient readClient h Hvw Hvr Hh)
    as (He & ch & Hch & Hfresh).
  pose proof (hooks_core _ He) as Hcore.
  apply core_events in Hcore. destruct Hcore as (He' & Hw' & Hr' & Hh').
  set (w := on "removeListener" RemoveListenerHook _) in *.
  assert (H0 : consumers w = 0).
  { unfold consumers, listenerCount. rewrite He'. reflexivity. }
  assert (Hread : read_channel w = Some ch).
  { unfold read_channel, channel in *. now rewrite Hr', Hh'. }
  split; [|split; [exact H0 | eauto]].
  constructor.
  - rewrite He'. exists []. split; [reflexivity | constructor].
  - rewrite He'. exists []. split; [reflexivity | constructor].
  - rewrite He'. cbn. repeat constructor; cbn; intuition discriminate.
  - exists ch. split; [exact Hread|]. rewrite H0. apply Hfresh.
Qed.

(** C5: on a client built by the constructor, after any registrations and
    removals of application listeners, the read channel has
    [emitContractEvent] attached to its message-arrived signal if and only
    if there is at least one [ClientEvent.Contract] listener.  A
    registration or removal calls the channel's [on] exactly when the
    listener count goes from 0 to 1 and its [removeListener] exactly when
    the count goes from 1 to 0.  So two consumers that register cause one
    subscribe call, and when both unregister one unsubscribe call. *)
Theorem C5_lazy_subscription
  (net : string -> Node) (chain : string) (writeClient : ClientArg)
  (readClient : option ClientArg) (h : list RPCClient)
  (ops : list Registration) :
  arg_valid h writeClient ->
  (forall rc, readClient = Some rc -> arg_valid h rc) ->
  fresh_store h ->
  let w0 := constructor net chain writeClient readClient h in
  let w := register_all ops w0 in
  (exists ch0, read_channel w0 = Some ch0
               /\ consumers w0 = 0 /\ attached_count ch0 = 0
               /\ subscribe_calls ch0 = 0 /\ unsubscribe_calls ch0 = 0)
  /\ exists ch,
       read_channel w = Some ch
       /\ (attached_count ch = 1 <-> 1 <= consumers w)
       /\ (attached_count ch = 0 <-> consumers w = 0)
       /\ (forall o, exists ch',
             read_channel (register o w) = Some ch'
             /\ subscribe_calls ch'
                = subscribe_calls ch
                  + (if (consumers w =? 0)%nat && (consumers (register o w) =? 1)%nat
                     then 1 else 0)
             /\ unsubscribe_calls ch'
                = unsubscribe_calls ch
                  + (if (consumers w =? 1)%nat && (consumers (register o w) =? 0)%nat
                     then 1 else 0))
       /\ (consumers w = 0 ->
           forall n1 n2,
             let w2 := register_all [Register contractEvent n1;
                                     Register contractEvent n2] w in
             let w4 := register_all [Unregister contractEvent n1;
                                     Unregister contractEvent n2] w2 in
             exists ch2 ch4,
               read_channel w2 = Some ch2 /\ read_channel w4 = Some ch4
               /\ subscribe_calls ch2 = subscribe_calls ch + 1
               /\ unsubscribe_calls ch2 = unsubscribe_calls ch
               /\ attached_count ch2 = 1
               /\ subscribe_calls ch4 = subscribe_calls ch + 1
               /\ unsubscribe_calls ch4 = unsubscribe_calls ch + 1
               /\ attached_count ch4 = 0).
Proof.
  intros Hvw Hvr Hh w0 w.
  destruct (constructor_subscribed_lazily net chain writeClient readClient h
              Hvw Hvr Hh) as (Hinv0 & Hc0 & ch0 & Hch0 & Ha0 & Hs0 & Hu0).
  fold w0 in Hinv0, Hc0, Hch0.
  split; [exists ch0; auto|].
  pose proof (subscribed_lazily_register_all ops w0 Hinv0) as Hinv.
  fold w in Hinv.
  pose proof Hinv as [_ _ _ (ch & Hch & Hatt)].
  exists ch. split; [exact Hch|].
  split; [|split; [|split]].
  - rewrite Hatt. destruct (consumers w); cbn [Nat.eqb]; split; intros; lia.
  - rewrite Hatt. destruct (consumers w); cbn [Nat.eqb]; split; intros; lia.
  - intros o.
    destruct (register_step o w Hinv) as (_ & c & c' & Hc & Hc' & Hs & Hu).
    assert (c = ch) by congruence. subst c. eauto.
  - intros Hzero n1 n2. exact (two_consumers w ch n1 n2 Hinv Hch Hzero).
Qed.

(** A new client on one endpoint; two consumers register, then both
    unregister: the read channel sees one [on] and one [removeListener]. *)
Lemma C5_lazy_subscription_witness :
  let w := single_channel_world no_reply in
  let w2 := register_all [Register contractEvent 1; Register contractEvent 2] w in
  let w4 := register_all [Unregister contractEvent 1; Unregister contractEvent 2] w2 in
  option_map subscribe_calls (read_channel w2) = Some 1
  /\ option_map unsubscribe_calls (read_channel w2) = Some 0
  /\ option_map subscribe_calls (read_channel w4) = Some 1
  /\ option_map unsubscribe_calls (read_channel w4) = Some 1.
Proof.
  intros w w2 w4.
  destruct (C5_lazy_subscription (fun _ => no_reply) "default"
              (ArgUrl "ws://node/websocket") None [] [] I
              (fun rc (E : None = Some rc) =>
                 match E in _ = o return match o with
                                         | Some _ => _
                                         | None => True
                                         end with
                 | eq_refl => I
                 end)
              (Forall_nil _))
    as ((ch0 & Hch0 & _ & _ & Hs0 & Hu0) & ch & Hch & _ & _ & _ & Htwo).
  cbn [register_all fold_left] in Hch.
  assert (ch = ch0) by congruence. subst ch.
  destruct (Htwo eq_refl 1 2)
    as (ch2 & ch4 & Hch2 & Hch4 & Hs2 & Hu2 & _ & Hs4 & Hu4 & _).
  assert (Hr2 : read_channel w2 = Some ch2) by exact Hch2.
  assert (Hr4 : read_channel w4 = Some ch4) by exact Hch4.
  rewrite Hr2, Hr4. cbn [option_map].
  rewrite Hs2, Hu2, Hs4, Hu4, Hs0, Hu0. repeat split.
Defined.

(* ================================================================= *)
(** ** More on the commit loop *)

(** The loop when the next [k] attempts meet the sequence-number mismatch
    and the one after them resolves. *)
Lemma attempt_loop_recovers (tx : Message)
  (middleware : list ITxMiddlewareHandler) (txBytes : Uint8Array)
  (ch : RPCClient) (v : option Uint8Array) :
  apply_middleware middleware (serializeBinary tx) = Resolved txBytes ->
  forall k pending attempts errors w l r,
    k <= length pending ->
    write_channel w = Some (channel_with_sent l ch) ->
    (forall i, i < k -> exists r',
        commit_reply (node ch) (length l + i) (commit_request txBytes)
          = Answer (Some r')
        /\ code (check_tx r') = Some 1%Z
        /\ log (check_tx r') = Some "sequence number does not match") ->
    commit_reply (node ch) (length l + k) (commit_request txBytes)
      = Answer (Some r) ->
    interpret_result (Some r) = Resolved v ->
    exists w',
      attempt_loop (_commitTxAsync tx middleware) pending attempts errors w
        = (Resolved v,
           {| _timeouts := skipn k pending; _attempts := attempts + k;
              _errors := errors ++ repeat (new_Error INVALID_TX_NONCE_ERROR) k |},
           w')
      /\ self w' = self w
      /\ write_channel w' =
           Some (channel_with_sent
                   (l ++ repeat (commit_request txBytes) (S k)) ch).
Proof.
  intros Hmw k. induction k as [|k IH];
    intros pending attempts errors w l r Hk Hch Hconf Hok Hres.
  - pose proof (_commitTxAsync_sent tx middleware w _ txBytes Hch Hmw) as Hrun.
    cbn [channel_with_sent node sent] in Hrun.
    rewrite Nat.add_0_r in Hok. rewrite Hok, Hres in Hrun.
    eexists. split.
    { rewrite (attempt_loop_resolved _ _ _ _ _ _ _ Hrun).
      cbn [skipn repeat]. rewrite Nat.add_0_r, app_nil_r. reflexivity. }
    split; [apply update_channel_self|].
    unfold write_channel in *. rewrite update_channel_self.
    rewrite (channel_update_same _ _ _ _ Hch). reflexivity.
  - destruct pending as [|t rest]; [cbn in Hk; lia|]. cbn [length] in Hk.
    destruct (Hconf 0 ltac:(lia)) as (r' & Hr' & Hc' & Hl').
    rewrite Nat.add_0_r in Hr'.
    pose proof (_commitTxAsync_sent tx middleware w _ txBytes Hch Hmw) as Hrun.
    cbn [channel_with_sent node sent] in Hrun. rewrite Hr' in Hrun.
    rewrite (interpret_nonce_mismatch r' Hc' Hl') in Hrun.
    set (w1 := update_channel (_writeClient (self w))
                 (channel_sent (commit_request txBytes)) w) in *.
    assert (Hself : self w1 = self w) by apply update_channel_self.
    assert (Hch1 : write_channel w1 =
                   Some (channel_with_sent (l ++ [commit_request txBytes]) ch)).
    { unfold write_channel in *. rewrite Hself. subst w1.
      rewrite (channel_update_same _ _ _ _ Hch). reflexivity. }
    destruct (IH rest (S attempts) (errors ++ [new_Error INVALID_TX_NONCE_ERROR])
                w1 (l ++ [commit_request txBytes]) r) as (w' & Hloop & Hs & Hw).
    + lia.
    + exact Hch1.
    + intros i Hi. destruct (Hconf (S i) ltac:(lia)) as (r2 & Hr2 & H2).
      exists r2. split; auto. rewrite length_app. cbn [length].
      rewrite <- Hr2. f_equal. lia.
    + rewrite length_app. cbn [length]. rewrite <- Hok. f_equal. lia.
    + exact Hres.
    + exists w'. split.
      { rewrite (attempt_loop_retry _ _ _ _ _ _ _ _ Hrun eq_refl), Hloop.
        cbn [skipn repeat]. rewrite <- app_assoc. cbn [app].
        f_equal. f_equal. f_equal. lia. }
      split; [congruence|].
      rewrite Hw. rewrite <- app_assoc. reflexivity.
Qed.

(** X1: a commit recovers from nonce conflicts.  When the first [k] attempts
    meet the sequence-number mismatch, [k] being at most the retries of the
    policy, and the next attempt passes both phases, [commitTxAsync]
    resolves with the result of that attempt after exactly [k + 1] attempts,
    each of which sent the same request; [retries - k] retries are left
    unused. *)
Theorem commit_recovers_after_conflicts
  (tx : Message) (opts : option (list ITxMiddlewareHandler)) (w : World)
  (ch : RPCClient) (txBytes : Uint8Array) (k : nat)
  (r : IBroadcastTxCommitResult) (v : option Uint8Array) :
  write_channel w = Some ch ->
  apply_middleware (middleware_of opts w) (serializeBinary tx) = Resolved txBytes ->
  k <= retries (nonceRetryStrategy (self w)) ->
  (forall i, i < k -> exists r',
      commit_reply (node ch) (length (sent ch) + i) (commit_request txBytes)
        = Answer (Some r')
      /\ code (check_tx r') = Some 1%Z
      /\ log (check_tx r') = Some "sequence number does not match") ->
  commit_reply (node ch) (length (sent ch) + k) (commit_request txBytes)
    = Answer (Some r) ->
  code_or_0 (check_tx r) = 0%Z -> code_or_0 (deliver_tx r) = 0%Z ->
  v = if_truthy B64ToUint8Array (data (deliver_tx r)) ->
  exists op w',
    commitTxAsync_run tx opts w = (Resolved v, op, w')
    /\ commitTxAsync tx opts w = (Resolved v, w')
    /\ _attempts op = k + 1
    /\ length (_timeouts op) = retries (nonceRetryStrategy (self w)) - k
    /\ write_channel w' =
         Some (channel_with_sent
                 (sent ch ++ repeat (commit_request txBytes) (k + 1)) ch).
Proof.
  intros Hch Hmw Hk Hconf Hok Hc Hd Hv.
  assert (Hres : interpret_result (Some r) = Resolved v).
  { unfold interpret_result. rewrite Hc, Hd, Hv. cbn [Z.eqb negb].
    destruct (data (deliver_tx r)) as [d|]; cbn [if_truthy]; [|reflexivity].
    destruct (truthy_string d); reflexivity. }
  rewrite <- (channel_with_sent_same ch) in Hch.
  destruct (attempt_loop_recovers tx _ txBytes ch v Hmw k
              (seq 0 (retries (nonceRetryStrategy (self w)))) 1 [] w (sent ch) r)
    as (w' & Hloop & _ & Hw); auto.
  { now rewrite length_seq. }
  match type of Hloop with _ = (_, ?op, _) => exists op end. exists w'.
  assert (Hrun : commitTxAsync_run tx opts w = 
                 attempt_loop (_commitTxAsync tx (middleware_of opts w))
                   (seq 0 (retries (nonceRetryStrategy (self w)))) 1 [] w)
    by reflexivity.
  rewrite Hloop in Hrun.
  split; [exact Hrun|]. split.
  { unfold commitTxAsync. rewrite Hrun. reflexivity. }
  cbn [_attempts _timeouts]. split; [lia|]. split.
  { rewrite length_skipn, length_seq. reflexivity. }
  rewrite Hw. f_equal. f_equal. f_equal. f_equal. lia.
Qed.

(** Two conflicts, then success, under the default policy: three attempts,
    the bytes of "hello", three retries left. *)
Lemma commit_recovers_after_conflicts_witness :
  let w := single_channel_world
             (conflicts_then 2
                (commit_result ok_result (handler_result 0 None (Some "aGVsbG8=")))) in
  exists op w',
    commitTxAsync_run sample_tx None w
    = (Resolved (Some [Byte.x68; Byte.x65; Byte.x6c; Byte.x6c; Byte.x6f]), op, w')
    /\ _attempts op = 3 /\ length (_timeouts op) = 3.
Proof.
  intros w.
  destruct (commit_recovers_after_conflicts sample_tx None w _ _ 2
              (commit_result ok_result (handler_result 0 None (Some "aGVsbG8=")))
              (Some [Byte.x68; Byte.x65; Byte.x6c; Byte.x6c; Byte.x6f])
              eq_refl eq_refl)
    as (op & w' & Hrun & _ & Ha & Ht & _).
  - cbn. lia.
  - intros i Hi. exists (commit_result nonce_mismatch ok_result).
    destruct i as [|[|i]]; [| |lia]; repeat split; reflexivity.
  - reflexivity.
  - reflexivity.
  - reflexivity.
  - reflexivity.
  - exists op, w'. split; [exact Hrun|]. split; [exact Ha | exact Ht].
Defined.




(** The pipeline stops at the first handler that rejects. *)
Lemma apply_middleware_rejects (before after : list ITxMiddlewareHandler)
  (m : ITxMiddlewareHandler) (fs : list (Uint8Array -> Uint8Array))
  (b : Uint8Array) (e : JsThrown) :
  Forall2 computes before fs ->
  Handle m (compose_all fs b) = Rejected e ->
  apply_middleware (before ++ m :: after) b = Rejected e.
Proof.
  intros Hfs. revert b. induction Hfs as [|m0 f ms fs' Hm _ IH]; intros b He.
  - cbn [app apply_middleware]. cbn in He. now rewrite He.
  - cbn [app apply_middleware]. rewrite (Hm b). apply IH. exact He.
Qed.

(** The loop when every attempt is rejected with a retryable error and
    leaves the world as it is. *)
Lemma attempt_loop_stuck {A : Type} (body : Async A) (e : JsThrown) (w : World) :
  body w = (Rejected e, w) ->
  isInvalidTxNonceError e = true ->
  forall pending attempts errors,
    attempt_loop body pending attempts errors w
    = (Rejected e,
       {| _timeouts := []; _attempts := attempts + length pending;
          _errors := errors ++ repeat e (S (length pending)) |}, w).
Proof.
  intros Hbody Hn pending.
  induction pending as [|t rest IH]; intros attempts errors.
  - rewrite (attempt_loop_exhausted _ _ _ _ _ _ Hbody Hn).
    cbn [length repeat]. now rewrite Nat.add_0_r.
  - rewrite (attempt_loop_retry _ _ _ _ _ _ _ _ Hbody Hn), IH.
    cbn [length repeat]. rewrite <- app_assoc. cbn [app].
    f_equal. f_equal. f_equal. lia.
Qed.

(** X3: a middleware that rejects aborts the attempt.  When the handlers
    before it compute [f1..fi] and it rejects the bytes [fi(...(f1(b)))]
    with [e], the attempt is rejected with [e], whatever handlers follow,
    and nothing is sent: the world stays as it is.  If [e] is not the
    nonce-conflict error, [commitTxAsync] rejects with [e] after that one
    attempt.  If [e] is an [Error] with the message 'Invalid tx nonce', it
    is retried like a conflict reported by the node: the pipeline runs
    [retries + 1] times and still nothing is sent. *)
Theorem middleware_failure_aborts
  (tx : Message) (opts : option (list ITxMiddlewareHandler)) (w : World)
  (before after : list ITxMiddlewareHandler) (m : ITxMiddlewareHandler)
  (fs : list (Uint8Array -> Uint8Array)) (e : JsThrown) :
  middleware_of opts w = before ++ m :: after ->
  Forall2 computes before fs ->
  Handle m (compose_all fs (serializeBinary tx)) = Rejected e ->
  _commitTxAsync tx (middleware_of opts w) w = (Rejected e, w)
  /\ (isInvalidTxNonceError e = false ->
      commitTxAsync_run tx opts w
      = (Rejected e, {| _timeouts := []; _attempts := 1; _errors := [] |}, w))
  /\ (isInvalidTxNonceError e = true ->
      commitTxAsync_run tx opts w
      = (Rejected e,
         {| _timeouts := [];
            _attempts := retries (nonceRetryStrategy (self w)) + 1;
            _errors := repeat e (retries (nonceRetryStrategy (self w)) + 1) |},
         w)).
Proof.
  intros Hmw Hfs He.
  assert (Hbody : _commitTxAsync tx (middleware_of opts w) w = (Rejected e, w)).
  { apply _commitTxAsync_middleware_failed. rewrite Hmw.
    now apply (apply_middleware_rejects before after m fs). }
  split; [exact Hbody|]. split; intros Hn.
  - unfold commitTxAsync_run, retry_attempt, retry_operation.
    cbn [_timeouts _attempts _errors]. now apply attempt_loop_terminal.
  - unfold commitTxAsync_run, retry_attempt, retry_operation.
    cbn [_timeouts _attempts _errors].
    change (match opts with Some m0 => m0 | None => txMiddleware (self w) end)
      with (middleware_of opts w).
    rewrite (attempt_loop_stuck _ e w Hbody Hn), length_seq.
    rewrite (Nat.add_comm (retries (nonceRetryStrategy (self w))) 1).
    reflexivity.
Qed.

(** A middleware list whose second handler rejects: an ordinary error ends
    the commit at once, the nonce error is retried five times; the channel
    never sees a request. *)
Lemma middleware_failure_aborts_witness :
  let w := single_channel_world no_reply in
  commitTxAsync sample_tx
    (Some [reverse_bytes; rejecting (new_Error "no key"); append_byte Byte.x00]) w
  = (Rejected (new_Error "no key"), w)
  /\ (exists op,
        commitTxAsync_run sample_tx
          (Some [reverse_bytes; rejecting (new_Error INVALID_TX_NONCE_ERROR)]) w
        = (Rejected (new_Error INVALID_TX_NONCE_ERROR), op, w)
        /\ _attempts op = 6)
  /\ option_map sent (write_channel w) = Some [].
Proof.
  intros w.
  assert (Hfs : Forall2 computes [reverse_bytes] [@rev byte])
    by (repeat constructor).
  destruct (middleware_failure_aborts sample_tx
              (Some [reverse_bytes; rejecting (new_Error "no key");
                     append_byte Byte.x00]) w
              [reverse_bytes] [append_byte Byte.x00]
              (rejecting (new_Error "no key")) [@rev byte] (new_Error "no key")
              eq_refl Hfs eq_refl) as (_ & H1 & _).
  destruct (middleware_failure_aborts sample_tx
              (Some [reverse_bytes; rejecting (new_Error INVALID_TX_NONCE_ERROR)]) w
              [reverse_bytes] []
              (rejecting (new_Error INVALID_TX_NONCE_ERROR)) [@rev byte]
              (new_Error INVALID_TX_NONCE_ERROR)
              eq_refl Hfs eq_refl) as (_ & _ & H2).
  split; [|split; [|reflexivity]].
  - unfold commitTxAsync. rewrite (H1 eq_refl). reflexivity.
  - eexists. split; [exact (H2 eq_refl) | reflexivity].
Defined.

(* ================================================================= *)
(** ** Lookups *)








(** X6: the calls that hand the channel's promise on.  Uninstalling a
    filter, subscribing, unsubscribing, the block height and the nonce
    resolve with exactly what the read channel resolved with: a falsy
    value ([false], [0], the empty text) stays what it is and is not turned
    into [null], unlike in the lookups that test their answer. *)
Theorem passthrough_calls_keep_falsy
  (w : World) (ch : RPCClient) (s : option string) (b : option bool)
  (z : option Z) (id method filter key : string) :
  read_channel w = Some ch ->
  (forall req, string_reply (node ch) (length (sent ch)) req = Answer s) ->
  (forall req, boolean_reply (node ch) (length (sent ch)) req = Answer b) ->
  (forall req, number_reply (node ch) (length (sent ch)) req = Answer z) ->
  fst (uninstallEvmFilterAsync id w) = Resolved b
  /\ fst (evmSubscribeAsync method filter w) = Resolved s
  /\ fst (evmUnsubscribeAsync id w) = Resolved b
  /\ fst (getBlockHeightAsync w) = Resolved z
  /\ fst (getNonceAsync key w) = Resolved z.
Proof.
  intros Hch Hs Hb Hz.
  unfold uninstallEvmFilterAsync, evmSubscribeAsync, evmUnsubscribeAsync,
    getBlockHeightAsync, getNonceAsync.
  rewrite !(sendAsync_at _ _ _ _ _ ch Hch), !Hs, !Hb, !Hz. repeat split.
Qed.

Lemma passthrough_calls_keep_falsy_witness :
  let w := single_channel_world (scalar_node (Some "") (Some false) (Some 0%Z)) in
  fst (uninstallEvmFilterAsync "0x1" w) = Resolved (Some false)
  /\ fst (getNonceAsync "0xabc" w) = Resolved (Some 0%Z)
  /\ fst (evmSubscribeAsync "logs" "{}" w) = Resolved (Some "").
Proof.
  intros w.
  pose proof (passthrough_calls_keep_falsy w _ (Some "") (Some false) (Some 0%Z)
                "0x1" "logs" "{}" "0xabc" eq_refl
                (fun _ => eq_refl) (fun _ => eq_refl) (fun _ => eq_refl))
    as (H1 & H2 & _ & _ & H5).
  split; [exact H1|]. split; [exact H5 | exact H2].
Defined.

(** X7: a failed read call.  When the read channel rejects a call with [e],
    every call but a commit rejects with that same [e]; the request has
    been handed to the channel once and nothing is tried again. *)
Theorem read_call_failure_propagates
  (c : ClientCall) (w : World) (ch : RPCClient) (e : JsThrown) :
  route c = ViaRead ->
  read_channel w = Some ch ->
  (forall req, string_reply (node ch) (length (sent ch)) req = Failure e) ->
  (forall req, boolean_reply (node ch) (length (sent ch)) req = Failure e) ->
  (forall req, number_reply (node ch) (length (sent ch)) req = Failure e) ->
  settle c w = Rejected e
  /\ exists req,
       read_channel (perform c w) = Some (channel_with_sent (sent ch ++ [req]) ch).
Proof.
  intros Hroute Hch Hs Hb Hz. split.
  - destruct c; cbn [route] in Hroute; try discriminate; cbn [settle];
      unfold queryAsync, getEvmTxReceiptAsync, getEvmTxByHashAsync,
        getEvmCodeAsync, getEvmLogsAsync, newEvmFilterAsync,
        getEvmFilterChangesAsync, newBlockEvmFilterAsync,
        newPendingTransactionEvmFilterAsync, uninstallEvmFilterAsync,
        getEvmBlockByNumberAsync, getEvmBlockByHashAsync, evmSubscribeAsync,
        evmUnsubscribeAsync, getBlockHeightAsync, getNonceAsync,
        getContractAddressAsync, map_resolved;
      rewrite (sendAsync_at _ _ _ _ _ ch Hch), ?Hs, ?Hb, ?Hz; reflexivity.
  - destruct (perform_read_call c w Hroute) as [req Hreq].
    exists req. rewrite Hreq. unfold read_channel in *.
    rewrite update_channel_self. now rewrite (channel_update_same _ _ _ ch Hch).
Qed.

Lemma read_call_failure_propagates_witness :
  settle (CallGetNonce "0xabc")
    (constructor (fun _ => failing_node (JsOther "socket closed")) "default"
       (ArgUrl "ws://node") None [])
  = Rejected (JsOther "socket closed").
Proof.
  exact (proj1 (read_call_failure_propagates (CallGetNonce "0xabc")
                  (constructor (fun _ => failing_node (JsOther "socket closed"))
                     "default" (ArgUrl "ws://node") None [])
                  _ (JsOther "socket closed") eq_refl eq_refl
                  (fun _ => eq_refl) (fun _ => eq_refl) (fun _ => eq_refl))).
Defined.

(* ================================================================= *)
(** ** The channels of a new client *)

Lemma wire_net_events_channel (role : Role) (c : ChanRef) (w : World)
  (ch : RPCClient) :
  channel w c = Some ch ->
  self (wire_net_events role c w) = self w
  /\ channel (wire_net_events role c w) c = Some (wired role ch)
  /\ (forall r, r <> c -> channel (wire_net_events role c w) r = channel w r)
  /\ length (heap (wire_net_events role c w)) = length (heap w).
Proof.
  intros Hch. unfold wire_net_events, channel_on.
  rewrite !update_channel_self, !update_channel_length.
  split; [reflexivity|]. split; [|split; [|reflexivity]].
  - erewrite channel_update_same; [reflexivity|].
    erewrite channel_update_same; [reflexivity|].
    erewrite channel_update_same; [reflexivity|]. exact Hch.
  - intros r Hr. now rewrite !channel_update_other.
Qed.

Lemma resolve_client_denotes (net : string -> Node) (a : ClientArg)
  (h : list RPCClient) :
  arg_valid h a ->
  exists ch, denotes net h a ch
             /\ nth_error (snd (resolve_client net a h)) (fst (resolve_client net a h))
                = Some ch
             /\ (forall r, r < length h ->
                   nth_error (snd (resolve_client net a h)) r = nth_error h r)
             /\ length h <= length (snd (resolve_client net a h))
             /\ (match a with
                 | ArgUrl _ => fst (resolve_client net a h) = length h
                 | ArgClient r => fst (resolve_client net a h) = r /\ r < length h
                 end).
Proof.
  intros Hv. destruct a as [u|r]; cbn [resolve_client fst snd denotes arg_valid] in *.
  - exists (new_WSRPCClient net u). split; [reflexivity|]. split.
    + rewrite nth_error_app2 by lia. now rewrite Nat.sub_diag.
    + split; [|split; [rewrite length_app; lia | reflexivity]].
      intros r Hr. now apply nth_error_app1.
  - destruct (nth_error h r) as [ch|] eqn:Hch.
    + exists ch. repeat split; auto.
    + apply nth_error_None in Hch. lia.
Qed.

Lemma wired_spec (role : Role) (ch : RPCClient) :
  url (wired role ch) = url ch
  /\ node (wired role ch) = node ch
  /\ sent (wired role ch) = sent ch
  /\ on_calls (wired role ch) = on_calls ch ++ net_forwarders role
  /\ subscriptions (wired role ch) = subscriptions ch ++ net_forwarders role
  /\ removeListener_calls (wired role ch) = removeListener_calls ch
  /\ disconnect_calls (wired role ch) = disconnect_calls ch.
Proof.
  unfold wired, net_forwarders.
  cbn [fold_left channel_subscribed url node sent on_calls subscriptions
       removeListener_calls disconnect_calls].
  rewrite <- !app_assoc. repeat split.
Qed.

(** client.ts:169-196 on the store. *)
Lemma connect_channels (net : string -> Node) (chain : string)
  (writeClient : ClientArg) (readClient : option ClientArg) (h : list RPCClient) :
  arg_valid h writeClient ->
  (forall rc, readClient = Some rc -> arg_valid h rc) ->
  let w := connect net chain writeClient readClient h in
  _events (self w) = []
  /\ exists cw0,
       denotes net h writeClient cw0
       /\ write_channel w = Some (wired WriteRole cw0)
       /\ (shares writeClient readClient = true ->
           _readClient (self w) = _writeClient (self w))
       /\ (shares writeClient readClient = false ->
           _readClient (self w) <> _writeClient (self w)
           /\ exists rc cr0,
                readClient = Some rc /\ denotes net h rc cr0
                /\ read_channel w = Some (wired ReadRole cr0)).
Proof.
  intros Hvw Hvr. cbv zeta. unfold connect.
  destruct (resolve_client_denotes net writeClient h Hvw)
    as (cw0 & Hden & Hnth & Hold & Hle & Hwr).
  destruct (resolve_client net writeClient h) as [wr h1]. cbn [fst snd] in *.
  cbv zeta.
  match goal with
  | |- context [wire_net_events WriteRole wr ?x] =>
      destruct (wire_net_events_channel WriteRole wr x cw0 Hnth)
        as (Hs1 & Hc1 & Ho1 & Hl1);
      set (w1 := wire_net_events WriteRole wr x) in *
  end.
  cbn [self heap] in Hs1, Hl1.
  assert (Hshared : _events (self w1) = []
                    /\ write_channel w1 = Some (wired WriteRole cw0)
                    /\ _readClient (self w1) = _writeClient (self w1)).
  { rewrite Hs1. split; [reflexivity|]. split; [|reflexivity].
    unfold write_channel. rewrite Hs1. exact Hc1. }
  destruct readClient as [rc|]; cbn [shares].
  2:{ destruct Hshared as (He & Hw & Hr). split; [exact He|].
      exists cw0. repeat split; auto; discriminate. }
  destruct (ClientArg_falsy (Some rc) || ClientArg_same writeClient rc) eqn:Hsh.
  { destruct Hshared as (He & Hw & Hr). split; [exact He|].
    exists cw0. repeat split; auto; discriminate. }
  apply orb_false_iff in Hsh. destruct Hsh as [Hfalsy Hsame].
  assert (Hvrc : arg_valid (heap w1) rc).
  { specialize (Hvr rc eq_refl). destruct rc; cbn [arg_valid] in *; auto. lia. }
  destruct (resolve_client_denotes net rc (heap w1) Hvrc)
    as (cr1 & Hden2 & Hnth2 & Hold2 & Hle2 & Hrd).
  assert (Hne : fst (resolve_client net rc (heap w1)) <> wr).
  { assert (Hlt : wr < length h1) by (apply nth_error_Some; congruence).
    destruct rc as [v|r']; cbn [fst resolve_client] in *.
    - lia.
    - destruct writeClient as [u|r]; cbn [ClientArg_same arg_valid] in *.
      + specialize (Hvr _ eq_refl). cbn in Hvr. lia.
      + destruct Hwr as [<- _]. apply Nat.eqb_neq in Hsame. congruence. }
  assert (Hden' : denotes net h rc cr1).
  { destruct rc as [v|r']; cbn [denotes] in *; [exact Hden2|].
    specialize (Hvr _ eq_refl). cbn [arg_valid] in Hvr.
    cbn [resolve_client fst] in Hne.
    rewrite <- (Hold r' Hvr), <- Hden2. exact (eq_sym (Ho1 r' Hne)). }
  destruct (resolve_client net rc (heap w1)) as [rd h2]. cbn [fst snd] in *.
  match goal with
  | |- context [wire_net_events ReadRole rd ?x] =>
      destruct (wire_net_events_channel ReadRole rd x cr1 Hnth2)
        as (Hs2 & Hc2 & Ho2 & Hl2);
      set (w2 := wire_net_events ReadRole rd x) in *
  end.
  cbn [self heap] in Hs2, Hl2.
  rewrite Hs2. split; [reflexivity|]. exists cw0. split; [exact Hden|].
  unfold write_channel, read_channel. rewrite Hs2. cbn [_writeClient _readClient].
  split.
  { rewrite Ho2 by (intros E; apply Hne; symmetry; exact E).
    unfold channel. cbn [heap]. rewrite Hold2.
    - exact Hc1.
    - assert (Hlt : wr < length h1).
      { apply nth_error_Some. congruence. }
      lia. }
  split; [discriminate|]. intros _. split; [exact Hne|].
  exists rc, cr1. repeat split; auto.
Qed.

(** X8: the channels of a new client.  The write argument becomes the write
    channel, with the three lifecycle forwarders registered on it once.
    When no read argument is given, or it is the empty string, or it is
    the same string or the same object as the write argument, the read
    role falls to that one channel: both references are the same,
    [readUrl] is [writeUrl], and no second set of forwarders is
    registered.  Otherwise the read argument becomes a second, different
    channel with its own three forwarders. *)
Theorem constructor_channels (net : string -> Node) (chain : string)
  (writeClient : ClientArg) (readClient : option ClientArg) (h : list RPCClient) :
  arg_valid h writeClient ->
  (forall rc, readClient = Some rc -> arg_valid h rc) ->
  let w := constructor net chain writeClient readClient h in
  exists cw0 cw,
    denotes net h writeClient cw0
    /\ write_channel w = Some cw
    /\ url cw = url cw0
    /\ on_calls cw = on_calls cw0 ++ net_forwarders WriteRole
    /\ subscriptions cw = subscriptions cw0 ++ net_forwarders WriteRole
    /\ (shares writeClient readClient = true ->
        _readClient (self w) = _writeClient (self w)
        /\ readUrl w = writeUrl w)
    /\ (shares writeClient readClient = false ->
        _readClient (self w) <> _writeClient (self w)
        /\ exists rc cr0 cr,
             readClient = Some rc /\ denotes net h rc cr0
             /\ read_channel w = Some cr
             /\ url cr = url cr0
             /\ on_calls cr = on_calls cr0 ++ net_forwarders ReadRole
             /\ subscriptions cr = subscriptions cr0 ++ net_forwarders ReadRole).
Proof.
  intros Hvw Hvr. cbv zeta. unfold constructor.
  destruct (connect_channels net chain writeClient readClient h Hvw Hvr)
    as (He & cw0 & Hden & Hw & Hsh & Hns).
  pose proof (hooks_core _ He) as Hcore.
  apply core_events in Hcore. destruct Hcore as (_ & Hwr & Hrd & Hh).
  set (w0 := connect net chain writeClient readClient h) in *.
  set (w := on "removeListener" RemoveListenerHook _) in *.
  assert (Hwc : write_channel w = write_channel w0).
  { unfold write_channel, channel. now rewrite Hwr, Hh. }
  assert (Hrc : read_channel w = read_channel w0).
  { unfold read_channel, channel. now rewrite Hrd, Hh. }
  destruct (wired_spec WriteRole cw0) as (Hu & _ & _ & Ho & Hs & _).
  exists cw0, (wired WriteRole cw0).
  split; [exact Hden|]. split; [congruence|].
  split; [exact Hu|]. split; [exact Ho|]. split; [exact Hs|]. split.
  - intros Ht. specialize (Hsh Ht). split; [congruence|].
    unfold readUrl, writeUrl, read_channel, write_channel. congruence.
  - intros Hf. destruct (Hns Hf) as (Hne & rc & cr0 & Hrc0 & Hden0 & Hr0).
    split; [congruence|].
    destruct (wired_spec ReadRole cr0) as (Hu' & _ & _ & Ho' & Hs' & _).
    exists rc, cr0, (wired ReadRole cr0). repeat split; auto. congruence.
Qed.

(** Scenario 5 of the spec, and a client with two endpoints. *)
Lemma constructor_channels_witness :
  let w1 := constructor (fun _ => no_reply) "default" (ArgUrl "ws://node") None [] in
  let w2 := constructor (fun _ => no_reply) "default" (ArgUrl "ws://write")
              (Some (ArgUrl "ws://read")) [] in
  (readUrl w1 = writeUrl w1 /\ writeUrl w1 = Some "ws://node"
   /\ option_map on_calls (write_channel w1) = Some (net_forwarders WriteRole))
  /\ (_readClient (self w2) <> _writeClient (self w2)
      /\ writeUrl w2 = Some "ws://write" /\ readUrl w2 = Some "ws://read").
Proof.
  intros w1 w2. split.
  - assert (Hv : forall rc, None = Some rc -> arg_valid [] rc)
      by (intros rc E; discriminate E).
    destruct (constructor_channels (fun _ => no_reply) "default"
                (ArgUrl "ws://node") None [] I Hv)
      as (cw0 & cw & Hden & Hw & Hu & Ho & _ & Hsh & _).
    fold w1 in Hw, Hsh. cbn [denotes] in Hden. subst cw0.
    split; [exact (proj2 (Hsh eq_refl))|].
    unfold writeUrl. rewrite Hw. cbn [option_map]. rewrite Hu, Ho.
    split; reflexivity.
  - assert (Hv : forall rc, Some (ArgUrl "ws://read") = Some rc -> arg_valid [] rc)
      by (intros rc [= <-]; exact I).
    destruct (constructor_channels (fun _ => no_reply) "default"
                (ArgUrl "ws://write") (Some (ArgUrl "ws://read")) [] I Hv)
      as (cw0 & cw & Hden & Hw & Hu & _ & _ & _ & Hns).
    destruct (Hns eq_refl) as (Hne & _).
    split; [exact Hne|]. split; reflexivity.
Defined.

(* ================================================================= *)
(** ** Delivery to the listeners *)

(** Calling application callbacks: each gets the arguments, in order, and
    nothing else changes. *)
Lemma call_consumers (ns : list nat) (a : EmitArgs) (w : World) :
  let w' := fold_left (fun w' l => call_listener l a w') (map Consumer ns) w in
  delivered (self w') = delivered (self w) ++ map (fun n => (n, a)) ns
  /\ emitted (self w') = emitted (self w)
  /\ core w' = core w.
Proof.
  cbv zeta. revert w. induction ns as [|n ns IH]; intros w; cbn [map fold_left].
  - rewrite app_nil_r. auto.
  - destruct (IH (call_listener (Consumer n) a w)) as (Hd & He & Hc).
    rewrite Hd, He, Hc. cbn [call_listener with_self self log_delivery delivered
                              emitted].
    rewrite <- app_assoc. auto.
Qed.

(** [emit] when only application callbacks listen. *)
Lemma emit_to_consumers (ev : string) (a : EmitArgs) (w : World) (ns : list nat) :
  listeners_of ev (_events (self w)) = map Consumer ns ->
  let w' := snd (emit ev a w) in
  fst (emit ev a w)
  = (match ns with
     | [] => if String.eqb ev "error" then Rejected unhandled_error
             else Resolved false
     | _ => Resolved true
     end)
  /\ delivered (self w') = delivered (self w) ++ map (fun n => (n, a)) ns
  /\ emitted (self w') = emitted (self w) ++ [(ev, a)]
  /\ core w' = core w.
Proof.
  intros Hls. cbv zeta. unfold emit. rewrite Hls.
  destruct ns as [|n ns]; cbn [map].
  - destruct (String.eqb ev "error"); cbn [fst snd]; rewrite app_nil_r; auto.
  - cbn [fst snd].
    pose proof (call_consumers (n :: ns) a
                  (with_self (log_emit ev a (self w)) w)) as H.
    cbv zeta in H. cbn [map] in H. destruct H as (Hd & He & Hc).
    split; [reflexivity|]. rewrite Hd, He, Hc. auto.
Qed.

(** X9: delivery of a contract event.  A notification with a result and no
    error, arriving while the callbacks [n1..nk] are registered for
    [ClientEvent.Contract], calls each of them once, in the order of their
    registration, with one and the same event object; no channel and no
    registration changes, and the handler returns normally, also when
    nobody is registered. *)
Theorem contract_event_delivered_in_order
  (u : string) (event : IJSONRPCEvent.t) (r : IEventData.t) (w : World)
  (ns : list nat) :
  IJSONRPCEvent.error event = None ->
  IJSONRPCEvent.result event = Some r ->
  listeners_of contractEvent (_events (self w)) = map Consumer ns ->
  let w' := snd (_emitContractEvent u event w) in
  fst (_emitContractEvent u event w) = Resolved tt
  /\ delivered (self w')
     = delivered (self w)
       ++ map (fun n => (n, ChainArgs (chain_event_args u event r))) ns
  /\ heap w' = heap w
  /\ _events (self w') = _events (self w).
Proof.
  intros He Hr Hls. cbv zeta. unfold _emitContractEvent. rewrite He, Hr.
  unfold map_resolved.
  pose proof (emit_to_consumers contractEvent
                (ChainArgs (chain_event_args u event r)) w ns Hls) as H.
  cbv zeta in H. destruct H as (Hf & Hd & _ & Hc).
  change (ClientEvent.value ClientEvent.Contract) with contractEvent.
  destruct (emit contractEvent _ w) as [res w'] eqn:Hemit. cbn [fst snd] in *.
  apply core_inv in Hc. destruct Hc as (Hev & _ & _ & Hh).
  assert (Hres : exists b, res = Resolved b).
  { rewrite Hf. destruct ns; cbn; eauto. }
  destruct Hres as [b ->]. cbn [fst snd]. auto.
Qed.

(** Scenario 3 of the spec: two consumers, one notification, the same
    event object for both. *)
Lemma contract_event_delivered_in_order_witness :
  let event := {| IJSONRPCEvent.id := "1"; IJSONRPCEvent.error := None;
                  IJSONRPCEvent.result := Some sample_event_data |} in
  let w := register_all [Register contractEvent 7; Register contractEvent 9]
             (single_channel_world no_reply) in
  delivered (self (snd (_emitContractEvent "ws://node/websocket" event w)))
  = delivered (self w)
    ++ [(7, ChainArgs (chain_event_args "ws://node/websocket" event sample_event_data));
        (9, ChainArgs (chain_event_args "ws://node/websocket" event sample_event_data))].
Proof.
  intros event w.
  exact (proj1 (proj2 (contract_event_delivered_in_order "ws://node/websocket"
                         event sample_event_data w [7; 9]
                         eq_refl eq_refl eq_refl))).
Defined.

(** X10: an error without a listener.  A notification with an error payload
    calls every callback registered for [ClientEvent.Error] with
    [{kind, url, error}] and no Contract callback; when no callback is
    registered for [ClientEvent.Error], the [emit] throws and the handler
    ends with that exception. *)
Theorem error_notification_needs_listener
  (u : string) (event : IJSONRPCEvent.t) (e : IJSONRPCError.t) (w : World)
  (ns : list nat) :
  IJSONRPCEvent.error event = Some e ->
  listeners_of "error" (_events (self w)) = map Consumer ns ->
  let w' := snd (_emitContractEvent u event w) in
  (ns = [] -> fst (_emitContractEvent u event w) = Rejected unhandled_error)
  /\ (ns <> [] -> fst (_emitContractEvent u event w) = Resolved tt)
  /\ delivered (self w')
     = delivered (self w) ++ map (fun n => (n, snd (error_event u e))) ns
  /\ heap w' = heap w.
Proof.
  intros He Hls. cbv zeta. unfold _emitContractEvent. rewrite He.
  unfold map_resolved.
  pose proof (emit_to_consumers "error" (snd (error_event u e)) w ns Hls) as H.
  cbv zeta in H. destruct H as (Hf & Hd & _ & Hc).
  change (ClientEvent.value ClientEvent.Error) with "error".
  change (ErrorArgs _) with (snd (error_event u e)).
  destruct (emit "error" _ w) as [res w'] eqn:Hemit. cbn [fst snd] in *.
  apply core_inv in Hc. destruct Hc as (_ & _ & _ & Hh).
  subst res. destruct ns as [|n ns]; cbn [String.eqb Ascii.eqb Bool.eqb fst snd];
    repeat split; auto; congruence.
Qed.

Lemma error_notification_needs_listener_witness :
  let event := {| IJSONRPCEvent.id := "1"; IJSONRPCEvent.error := Some sample_error;
                  IJSONRPCEvent.result := None |} in
  fst (_emitContractEvent "ws://node/websocket" event (single_channel_world no_reply))
  = Rejected unhandled_error
  /\ fst (_emitContractEvent "ws://node/websocket" event
            (register (Register "error" 3) (single_channel_world no_reply)))
     = Resolved tt.
Proof.
  intros event. split.
  - exact (proj1 (error_notification_needs_listener "ws://node/websocket" event
                    sample_error (single_channel_world no_reply) []
                    eq_refl eq_refl) eq_refl).
  - refine (proj1 (proj2 (error_notification_needs_listener "ws://node/websocket"
                            event sample_error
                            (register (Register "error" 3)
                               (single_channel_world no_reply)) [3]
                            eq_refl eq_refl)) _).
    discriminate.
Defined.

(** X11: lifecycle events.  [_emitNetEvent] makes exactly one [emit] call:
    for [Connected] and [Disconnected] with [{kind, url}], for [Error] with
    [{kind, url, error}].  The callbacks registered for that event get the
    object in order and the store does not change.  It throws exactly when
    the kind is [Error] and nobody listens to it. *)
Theorem net_event_emitted_once
  (u : string) (kind : ClientEvent.t) (err : option IJSONRPCError.t)
  (w : World) (ns : list nat) :
  listeners_of (ClientEvent.value kind) (_events (self w)) = map Consumer ns ->
  let w' := snd (_emitNetEvent u kind err w) in
  let args :=
    match kind with
    | ClientEvent.Error =>
        ErrorArgs {| IClientErrorEventArgs.kind := kind;
                     IClientErrorEventArgs.url := u;
                     IClientErrorEventArgs.error := err |}
    | _ => NetArgs {| IClientEventArgs.kind := kind; IClientEventArgs.url := u |}
    end in
  new_emits w w' = [(ClientEvent.value kind, args)]
  /\ delivered (self w') = delivered (self w) ++ map (fun n => (n, args)) ns
  /\ heap w' = heap w
  /\ (fst (_emitNetEvent u kind err w) = Rejected unhandled_error
      <-> kind = ClientEvent.Error /\ ns = [])
  /\ (fst (_emitNetEvent u kind err w) = Resolved tt
      <-> ~ (kind = ClientEvent.Error /\ ns = [])).
Proof.
  intros Hls. cbv zeta.
  set (args := match kind with
               | ClientEvent.Error => _
               | _ => _
               end).
  assert (Hrun : _emitNetEvent u kind err w
                 = map_resolved (fun _ => tt) (emit (ClientEvent.value kind) args) w).
  { subst args. destruct kind; reflexivity. }
  rewrite Hrun. unfold map_resolved, new_emits.
  pose proof (emit_to_consumers (ClientEvent.value kind) args w ns Hls) as H.
  cbv zeta in H. destruct H as (Hf & Hd & He & Hc).
  destruct (emit (ClientEvent.value kind) args w) as [res w'] eqn:Hemit.
  cbn [fst snd] in *.
  apply core_inv in Hc. destruct Hc as (_ & _ & _ & Hh).
  assert (Hw' : forall x, snd (match res with
                              | Resolved a => (Resolved (x a), w')
                              | Rejected e => (@Rejected unit e, w')
                              end) = w')
    by (intros x; destruct res; reflexivity).
  rewrite Hw', He, skipn_length_app, Hd, Hh.
  split; [reflexivity|]. split; [reflexivity|]. split; [reflexivity|].
  subst res.
  destruct kind; destruct ns as [|n ns];
    cbn [ClientEvent.value String.eqb Ascii.eqb Bool.eqb fst];
    (split; split; try discriminate; try reflexivity;
     try (intros [? ?]; discriminate); try (intros H; exfalso; apply H; auto);
     try (intros _ [? ?]; discriminate); auto).
Qed.

Lemma net_event_emitted_once_witness :
  let w := register (Register "connected" 4) (single_channel_world no_reply) in
  let w' := snd (_emitNetEvent "ws://node/websocket" ClientEvent.Connected None w) in
  let args := NetArgs {| IClientEventArgs.kind := ClientEvent.Connected;
                         IClientEventArgs.url := "ws://node/websocket" |} in
  new_emits w w' = [("connected", args)]
  /\ delivered (self w') = delivered (self w) ++ [(4, args)]
  /\ heap w' = heap w.
Proof.
  intros w w' args.
  destruct (net_event_emitted_once "ws://node/websocket" ClientEvent.Connected
              None w [4] eq_refl) as (He & Hd & Hh & _).
  repeat split; assumption.
Defined.

(* ================================================================= *)
(** ** Registrations that leave the channels alone *)

(** X12: listeners for other events.  On a client built by the constructor,
    after any registrations, registering or removing an application
    callback for an event other than [ClientEvent.Contract] changes no
    channel: nothing is subscribed, unsubscribed or sent. *)
Theorem other_events_leave_channels
  (net : string -> Node) (chain : string) (writeClient : ClientArg)
  (readClient : option ClientArg) (h : list RPCClient)
  (ops : list Registration) (ev : string) (n : nat) :
  arg_valid h writeClient ->
  (forall rc, readClient = Some rc -> arg_valid h rc) ->
  fresh_store h ->
  ev <> contractEvent ->
  let w := register_all ops (constructor net chain writeClient readClient h) in
  heap (register (Register ev n) w) = heap w
  /\ heap (register (Unregister ev n) w) = heap w.
Proof.
  intros Hvw Hvr Hh Hev w.
  destruct (constructor_subscribed_lazily net chain writeClient readClient h
              Hvw Hvr Hh) as (Hinv0 & _).
  pose proof (subscribed_lazily_register_all ops _ Hinv0) as Hinv.
  fold w in Hinv.
  destruct Hinv as [(cs1 & Hn & Hcs1) (cs2 & Hr & Hcs2) Hnd _].
  apply String.eqb_neq in Hev. split; cbn [register].
  - pose proof (on_core ev n w cs1 Hn Hcs1) as Hcore.
    apply core_events in Hcore. destruct Hcore as (_ & _ & _ & Hheap).
    rewrite Hheap, Hev. reflexivity.
  - destruct (remove_last Listener_eqb (Consumer n)
                (listeners_of ev (_events (self w)))) as [ls|] eqn:Hrm.
    + pose proof (removeListener_core ev n w cs2 ls Hr Hcs2 Hnd Hrm) as Hcore.
      apply core_events in Hcore. destruct Hcore as (_ & _ & _ & Hheap).
      rewrite Hheap, Hev. reflexivity.
    + unfold removeListener. rewrite Hrm. reflexivity.
Qed.

Lemma other_events_leave_channels_witness :
  let w := single_channel_world no_reply in
  heap (register (Register "connected" 1) w) = heap w
  /\ heap (register (Unregister "connected" 1) w) = heap w.
Proof.
  intros w.
  assert (Hv : forall rc, None = Some rc -> arg_valid [] rc)
    by (intros rc E; discriminate E).
  assert (Hne : "connected" <> contractEvent) by discriminate.
  exact (other_events_leave_channels (fun _ => no_reply) "default"
           (ArgUrl "ws://node/websocket") None [] [] "connected" 1
           I Hv (Forall_nil _) Hne).
Defined.

(** *** After the hooks are gone *)

Lemma hookless_listeners (t : list (string * list Listener)) (k : string) :
  hookless t -> Forall is_consumer (listeners_of k t).
Proof.
  induction 1 as [|[k0 ls] t Hls _ IH]; cbn [listeners_of]; [constructor|].
  destruct (String.eqb k0 k); auto.
Qed.

Lemma hookless_add (ev : string) (n : nat) (t : list (string * list Listener)) :
  hookless t -> hookless (add_listener ev (Consumer n) t).
Proof.
  induction 1 as [|[k0 ls] t Hls Ht IH]; cbn [add_listener].
  - repeat constructor.
  - destruct (String.eqb k0 ev); constructor; auto.
    cbn [snd] in *. apply Forall_app. split; auto. repeat constructor.
Qed.

Lemma hookless_delete (ev : string) (t : list (string * list Listener)) :
  hookless t -> hookless (delete_key ev t).
Proof.
  induction 1 as [|[k0 ls] t Hls Ht IH]; cbn [delete_key]; [constructor|].
  destruct (String.eqb k0 ev); auto. constructor; auto.
Qed.

Lemma hookless_replace (ev : string) (ls : list Listener)
  (t : list (string * list Listener)) :
  Forall is_consumer ls -> hookless t -> hookless (replace_key ev ls t).
Proof.
  intros Hls. induction 1 as [|[k0 ls0] t Hls0 Ht IH]; cbn [replace_key];
    [constructor|].
  destruct (String.eqb k0 ev); constructor; auto.
Qed.

Lemma hookless_put (ev : string) (ls : list Listener)
  (t : list (string * list Listener)) :
  Forall is_consumer ls -> hookless t -> hookless (put_listeners ev ls t).
Proof.
  intros Hls Ht. unfold put_listeners. destruct ls.
  - now apply hookless_delete.
  - now apply hookless_replace.
Qed.

Lemma consumers_as_map (ls : list Listener) :
  Forall is_consumer ls -> exists ns, ls = map Consumer ns.
Proof.
  induction 1 as [|l ls Hl _ [ns ->]].
  - exists []. reflexivity.
  - destruct l; cbn in Hl; try contradiction. exists (n :: ns). reflexivity.
Qed.

(** An [emit] that only reaches application callbacks changes neither the
    table nor the store. *)
Lemma emit_hookless_core (ev : string) (a : EmitArgs) (w : World) :
  hookless (_events (self w)) -> core (snd (emit ev a w)) = core w.
Proof.
  intros Hh. unfold emit.
  destruct (consumers_as_map _ (hookless_listeners _ ev Hh)) as [ns Hns].
  rewrite Hns. destruct ns as [|n ns]; cbn [map].
  - destruct (String.eqb ev "error"); reflexivity.
  - cbn [snd].
    pose proof (call_consumers (n :: ns) a
                  (with_self (log_emit ev a (self w)) w)) as H.
    cbv zeta in H. cbn [map] in H. destruct H as (_ & _ & Hc).
    rewrite Hc. reflexivity.
Qed.

Lemma register_hookless (o : Registration) (w : World) :
  hookless (_events (self w)) ->
  hookless (_events (self (register o w))) /\ heap (register o w) = heap w.
Proof.
  intros Hh. destruct o as [ev n | ev n]; cbn [register].
  - unfold on.
    assert (Hc : core (if has_listeners "newListener" (self w)
                       then snd (emit "newListener" (ListenerArgs ev (Consumer n)) w)
                       else w) = core w).
    { destruct (has_listeners "newListener" (self w)); [|reflexivity].
      now apply emit_hookless_core. }
    apply core_inv in Hc. destruct Hc as (He & _ & _ & Hheap).
    cbn [with_self with_events self heap _events]. rewrite He, Hheap.
    split; [now apply hookless_add | reflexivity].
  - unfold removeListener.
    destruct (remove_last Listener_eqb (Consumer n)
                (listeners_of ev (_events (self w)))) as [ls|] eqn:Hrm;
      [|split; [exact Hh | reflexivity]].
    assert (Hls : Forall is_consumer ls).
    { eapply remove_last_Forall; [exact Hrm|]. now apply hookless_listeners. }
    set (w1 := with_self (with_events (put_listeners ev ls (_events (self w)))
                            (self w)) w).
    assert (Hh1 : hookless (_events (self w1))) by (now apply hookless_put).
    destruct (has_listeners "removeListener" (self w1)).
    + pose proof (emit_hookless_core "removeListener"
                    (ListenerArgs ev (Consumer n)) w1 Hh1) as Hc.
      apply core_inv in Hc. destruct Hc as (He & _ & _ & Hheap).
      rewrite He, Hheap. split; [exact Hh1 | reflexivity].
    + split; [exact Hh1 | reflexivity].
Qed.

(** X13: a disconnected client stays disconnected.  [disconnect()] removes
    the two hooks of the constructor with all other listeners, so whatever
    is registered or removed afterwards, a [ClientEvent.Contract] listener
    included, no channel changes: nothing is subscribed again. *)
Theorem no_subscription_after_disconnect (w : World) (ops : list Registration) :
  heap (register_all ops (disconnect w)) = heap (disconnect w).
Proof.
  assert (H0 : hookless (_events (self (disconnect w)))).
  { assert (He : _events (self (disconnect w)) = []).
    { unfold disconnect.
      destruct (negb _); unfold channel_disconnect;
        rewrite ?update_channel_self; apply removeAllListeners_events. }
    rewrite He. constructor. }
  revert H0. generalize (disconnect w) as w1.
  induction ops as [|o ops IH]; intros w1 H1; cbn [register_all fold_left].
  - reflexivity.
  - destruct (register_hookless o w1 H1) as (H2 & Hheap).
    change (fold_left (fun w' o0 => register o0 w') ops (register o w1))
      with (register_all ops (register o w1)).
    rewrite (IH _ H2). exact Hheap.
Qed.

(* ================================================================= *)
(** ** Teardown and the subscription *)

Lemma Listener_eqb_refl (l : Listener) : Listener_eqb l l = true.
Proof. destruct l; cbn; auto. apply Nat.eqb_refl. Qed.

Lemma remove_last_snoc {A : Type} (eqb : A -> A -> bool) (x : A) (l : list A) :
  eqb x x = true -> remove_last eqb x (l ++ [x]) = Some l.
Proof.
  intros Hx. induction l as [|y t IH]; cbn [app remove_last].
  - now rewrite Hx.
  - now rewrite IH.
Qed.

(** A ['newListener'] or ['removeListener'] emission about an event other
    than [ClientEvent.Contract] changes no channel, whoever listens. *)
Lemma call_listeners_other_event (ls : list Listener) (ev : string) (l : Listener)
  (w : World) :
  String.eqb ev contractEvent = false ->
  let w' := fold_left (fun w' x => call_listener x (ListenerArgs ev l) w') ls w in
  heap w' = heap w /\ _readClient (self w') = _readClient (self w)
  /\ _writeClient (self w') = _writeClient (self w)
  /\ _events (self w') = _events (self w).
Proof.
  intros Hev. cbv zeta. revert w.
  induction ls as [|x ls IH]; intros w; cbn [fold_left]; [auto|].
  destruct (IH (call_listener x (ListenerArgs ev l) w)) as (Hh & Hr & Hw & He).
  rewrite Hh, Hr, Hw, He.
  destruct x; cbn [call_listener];
    change (ClientEvent.value ClientEvent.Contract) with contractEvent;
    rewrite ?Hev; cbn [andb]; auto.
Qed.

Lemma removeListener_other_event (ev : string) (l : Listener) (w : World) :
  String.eqb ev contractEvent = false ->
  heap (removeListener ev l w) = heap w
  /\ _readClient (self (removeListener ev l w)) = _readClient (self w)
  /\ _writeClient (self (removeListener ev l w)) = _writeClient (self w).
Proof.
  intros Hev. unfold removeListener.
  destruct (remove_last Listener_eqb l (listeners_of ev (_events (self w))))
    as [ls|]; [|auto].
  set (w1 := with_self _ w).
  destruct (has_listeners "removeListener" (self w1)); [|auto].
  unfold emit.
  destruct (listeners_of "removeListener" (_events (self w1))) as [|x xs].
  - destruct (String.eqb "removeListener" "error"); auto.
  - cbn [snd].
    pose proof (call_listeners_other_event (x :: xs) ev l
                  (with_self (log_emit "removeListener" (ListenerArgs ev l) (self w1)) w1)
                  Hev) as H.
    cbv zeta in H. destruct H as (Hh & Hr & Hw & _).
    rewrite Hh, Hr, Hw. auto.
Qed.

(** [removeListener] for any listener of an event other than
    ['removeListener'], while the hook is in place. *)
Lemma removeListener_hooked (ev : string) (l : Listener) (w : World)
  (cs ls : list Listener) :
  ev <> "removeListener" ->
  listeners_of "removeListener" (_events (self w)) = RemoveListenerHook :: cs ->
  Forall is_consumer cs ->
  NoDup (map fst (_events (self w))) ->
  remove_last Listener_eqb l (listeners_of ev (_events (self w))) = Some ls ->
  core (removeListener ev l w)
  = (put_listeners ev ls (_events (self w)),
     _writeClient (self w), _readClient (self w),
     heap (if String.eqb ev contractEvent
              && (length (listeners_of contractEvent
                            (put_listeners ev ls (_events (self w)))) =? 0)%nat
           then channel_removeListener (_readClient (self w))
                  RPCClientEvent.Message emitContractEvent w
           else w)).
Proof.
  intros Hev Hhook Hcs Hnd Hrm. unfold removeListener. rewrite Hrm.
  set (E' := put_listeners ev ls (_events (self w))).
  set (w1 := with_self (with_events E' (self w)) w).
  assert (Hne : listeners_of ev (_events (self w)) <> []).
  { intros E. rewrite E in Hrm. discriminate. }
  assert (Hhook' : listeners_of "removeListener" E' = RemoveListenerHook :: cs).
  { subst E'. rewrite listeners_of_put by assumption.
    destruct (String.eqb_spec "removeListener" ev); [congruence | exact Hhook]. }
  unfold has_listeners. cbn [w1 with_self with_events self _events].
  rewrite Hhook'. unfold emit.
  cbn [w1 with_self with_events self _events]. rewrite Hhook'.
  cbn [snd fold_left].
  set (a := ListenerArgs ev l).
  set (w0 := with_self (log_emit "removeListener" a (self w1)) w1).
  set (X := if String.eqb ev contractEvent
               && (length (listeners_of contractEvent E') =? 0)%nat
            then channel_removeListener (_readClient (self w))
                   RPCClientEvent.Message emitContractEvent w
            else w).
  assert (Hhk : core (call_listener RemoveListenerHook a w0)
                = (E', _writeClient (self w), _readClient (self w), heap X)).
  { subst a X. cbn [call_listener].
    change (listenerCount (ClientEvent.value ClientEvent.Contract) (self w0))
      with (length (listeners_of contractEvent E')).
    change (ClientEvent.value ClientEvent.Contract) with contractEvent.
    destruct (String.eqb ev contractEvent
              && (length (listeners_of contractEvent E') =? 0)%nat);
      [|reflexivity].
    unfold channel_removeListener. rewrite core_update. subst w0 w1.
    unfold update_channel.
    cbn [with_self with_events log_emit self _events _writeClient _readClient heap].
    destruct (nth_error (heap w) (_readClient (self w))); reflexivity. }
  pose proof (call_consumers_core cs a (call_listener RemoveListenerHook a w0) Hcs)
    as Hc.
  exact (eq_trans Hc Hhk).
Qed.

(** One removal during teardown. *)
Lemma detach_step (ev : string) (l : Listener) (w : World) (ls : list Listener) :
  ev <> "removeListener" ->
  detachable w ->
  remove_last Listener_eqb l (listeners_of ev (_events (self w))) = Some ls ->
  let w' := removeListener ev l w in
  detachable w'
  /\ listeners_of ev (_events (self w')) = ls
  /\ (forall k, k <> ev ->
        listeners_of k (_events (self w')) = listeners_of k (_events (self w)))
  /\ unsubscribe_due w' = unsubscribe_due w
  /\ option_map subscribe_calls (read_channel w')
     = option_map subscribe_calls (read_channel w).
Proof.
  intros Hev [(cs & Hr & Hcs) Hnd (ch & Hch & Hatt)] Hrm. cbv zeta.
  pose proof (removeListener_hooked ev l w cs ls Hev Hr Hcs Hnd Hrm) as Hcore.
  apply core_events in Hcore. destruct Hcore as (He & Hw & Hrd & Hh).
  set (w' := removeListener ev l w) in *.
  assert (Hne : listeners_of ev (_events (self w)) <> []).
  { intros E. rewrite E in Hrm. discriminate. }
  assert (Hls : forall k, listeners_of k (_events (self w'))
                          = if String.eqb k ev then ls
                            else listeners_of k (_events (self w))).
  { intros k. rewrite He. now apply listeners_of_put. }
  assert (Hcount : consumers w
                   = if String.eqb ev contractEvent then S (consumers w')
                     else consumers w').
  { unfold consumers, listenerCount. rewrite Hls.
    rewrite (String.eqb_sym contractEvent ev).
    destruct (String.eqb_spec ev contractEvent) as [->|]; [|reflexivity].
    apply (remove_last_length _ _ _ _ Hrm). }
  assert (Hlen : length (listeners_of contractEvent
                           (put_listeners ev ls (_events (self w))))
                 = consumers w').
  { unfold consumers, listenerCount. now rewrite He. }
  rewrite Hlen in Hh.
  assert (Hread : exists ch',
             read_channel w' = Some ch'
             /\ ch' = if String.eqb ev contractEvent && (consumers w' =? 0)%nat
                      then channel_unsubscribed message_handler ch else ch).
  { unfold read_channel, channel. rewrite Hrd, Hh.
    destruct (String.eqb ev contractEvent && (consumers w' =? 0)%nat).
    - eexists. split; [|reflexivity].
      apply (channel_update_same _ _ w ch Hch).
    - exists ch. split; [exact Hch | reflexivity]. }
  destruct Hread as (ch' & Hch' & Hdef).
  pose proof (unsubscribed_message_handler ch) as (Ha & Hs & Hu).
  split; [|split; [|split; [|split]]].
  - constructor.
    + exists cs. split; auto. rewrite Hls.
      destruct (String.eqb_spec "removeListener" ev); [congruence | exact Hr].
    + rewrite He. now apply NoDup_keys_put.
    + exists ch'. split; [exact Hch'|]. rewrite Hdef.
      rewrite Hcount in Hatt.
      destruct (String.eqb ev contractEvent); cbn [andb] in *.
      * destruct (consumers w'); cbn [Nat.eqb] in *; [lia | exact Hatt].
      * exact Hatt.
  - rewrite Hls. now rewrite String.eqb_refl.
  - intros k Hk. rewrite Hls. destruct (String.eqb_spec k ev); congruence.
  - unfold unsubscribe_due. rewrite Hch', Hch. cbn [option_map]. f_equal.
    rewrite Hdef, Hcount.
    destruct (String.eqb ev contractEvent); cbn [andb]; [|reflexivity].
    destruct (consumers w'); cbn [Nat.eqb]; lia.
  - rewrite Hch', Hch. cbn [option_map]. f_equal. rewrite Hdef.
    destruct (String.eqb ev contractEvent && (consumers w' =? 0)%nat); auto.
Qed.

(** All listeners of one event go, last first. *)
Lemma detach_all_of (ev : string) :
  ev <> "removeListener" ->
  forall (ls : list Listener) (w : World),
    detachable w ->
    listeners_of ev (_events (self w)) = ls ->
    let w' := fold_left (fun w' l => removeListener ev l w') (rev ls) w in
    detachable w'
    /\ listeners_of ev (_events (self w')) = []
    /\ (forall k, k <> ev ->
          listeners_of k (_events (self w')) = listeners_of k (_events (self w)))
    /\ unsubscribe_due w' = unsubscribe_due w
    /\ option_map subscribe_calls (read_channel w')
       = option_map subscribe_calls (read_channel w).
Proof.
  intros Hev ls. induction ls as [|x ls IH] using rev_ind; intros w Hd Hls; cbv zeta.
  - cbn [rev fold_left]. auto.
  - rewrite rev_app_distr. cbn [rev app fold_left].
    assert (Hrm : remove_last Listener_eqb x (listeners_of ev (_events (self w)))
                  = Some ls).
    { rewrite Hls. apply remove_last_snoc. apply Listener_eqb_refl. }
    destruct (detach_step ev x w ls Hev Hd Hrm) as (Hd1 & Hl1 & Ho1 & Hu1 & Hs1).
    destruct (IH _ Hd1 Hl1) as (Hd2 & Hl2 & Ho2 & Hu2 & Hs2).
    split; [exact Hd2|]. split; [exact Hl2|]. split.
    + intros k Hk. rewrite Ho2, Ho1; auto.
    + split; congruence.
Qed.

Lemma removeAllListenersOf_detachable (ev : string) (w : World) :
  ev <> "removeListener" ->
  detachable w ->
  let w' := removeAllListenersOf ev w in
  detachable w'
  /\ listeners_of ev (_events (self w')) = []
  /\ (forall k, k <> ev ->
        listeners_of k (_events (self w')) = listeners_of k (_events (self w)))
  /\ unsubscribe_due w' = unsubscribe_due w
  /\ option_map subscribe_calls (read_channel w')
     = option_map subscribe_calls (read_channel w).
Proof.
  intros Hev Hd. cbv zeta. unfold removeAllListenersOf, has_listeners.
  pose proof Hd as [(cs & Hr & _) _ _]. rewrite Hr.
  now apply detach_all_of.
Qed.

(** The loop of [removeAllListeners()] over the events other than
    ['removeListener']. *)
Lemma detach_events (keys : list string) :
  forall w,
    detachable w ->
    (In contractEvent keys \/ consumers w = 0) ->
    let w' := fold_left
                (fun w' key =>
                   if String.eqb key "removeListener" then w'
                   else removeAllListenersOf key w') keys w in
    detachable w'
    /\ consumers w' = 0
    /\ unsubscribe_due w' = unsubscribe_due w
    /\ option_map subscribe_calls (read_channel w')
       = option_map subscribe_calls (read_channel w).
Proof.
  induction keys as [|key keys IH]; intros w Hd Hc; cbv zeta; cbn [fold_left].
  - destruct Hc as [[]|Hc]. auto.
  - destruct (String.eqb_spec key "removeListener") as [->|Hne].
    + apply IH; auto. destruct Hc as [[Hk|Hin]|Hc]; auto. discriminate Hk.
    + destruct (removeAllListenersOf_detachable key w Hne Hd)
        as (Hd1 & Hl1 & Ho1 & Hu1 & Hs1).
      set (w1 := removeAllListenersOf key w) in *.
      assert (Hc1 : In contractEvent keys \/ consumers w1 = 0).
      { destruct (String.eqb_spec key contractEvent) as [->|Hk].
        - right. unfold consumers, listenerCount. now rewrite Hl1.
        - destruct Hc as [[?|Hin]|Hc]; [congruence | now left |].
          right. unfold consumers, listenerCount in *.
          rewrite Ho1 by congruence. exact Hc. }
      destruct (IH w1 Hd1 Hc1) as (Hd2 & Hc2 & Hu2 & Hs2).
      split; [exact Hd2|]. split; [exact Hc2|]. split; congruence.
Qed.

Lemma removeListener_fold_other_event (ev : string) (ls : list Listener) :
  String.eqb ev contractEvent = false ->
  forall w,
    let w' := fold_left (fun w' l => removeListener ev l w') ls w in
    heap w' = heap w
    /\ _readClient (self w') = _readClient (self w)
    /\ _writeClient (self w') = _writeClient (self w).
Proof.
  intros Hev. induction ls as [|l ls IH]; intros w; cbv zeta; cbn [fold_left]; auto.
  destruct (IH (removeListener ev l w)) as (Hh & Hr & Hw).
  destruct (removeListener_other_event ev l w Hev) as (Hh1 & Hr1 & Hw1).
  repeat split; congruence.
Qed.

Lemma removeAllListenersOf_other_event (ev : string) (w : World) :
  String.eqb ev contractEvent = false ->
  heap (removeAllListenersOf ev w) = heap w
  /\ _readClient (self (removeAllListenersOf ev w)) = _readClient (self w)
  /\ _writeClient (self (removeAllListenersOf ev w)) = _writeClient (self w).
Proof.
  intros Hev. unfold removeAllListenersOf.
  destruct (has_listeners "removeListener" (self w)); [|auto].
  now apply removeListener_fold_other_event.
Qed.

Lemma read_channel_frame (w w' : World) :
  heap w' = heap w -> _readClient (self w') = _readClient (self w) ->
  read_channel w' = read_channel w.
Proof. unfold read_channel, channel. now intros -> ->. Qed.

(** [removeAllListeners()] on a client whose hooks are in place. *)
Lemma removeAllListeners_detaches (w : World) (ch : RPCClient) :
  detachable w ->
  read_channel w = Some ch ->
  exists ch',
    read_channel (removeAllListeners w) = Some ch'
    /\ attached_count ch' = 0
    /\ unsubscribe_calls ch'
       = unsubscribe_calls ch + (if (consumers w =? 0)%nat then 0 else 1)
    /\ subscribe_calls ch' = subscribe_calls ch.
Proof.
  intros Hd Hch. unfold removeAllListeners.
  pose proof Hd as [(cs & Hr & _) _ _].
  unfold has_listeners at 1. rewrite Hr.
  set (w1 := fold_left _ (map fst (_events (self w))) w).
  assert (Hc : In contractEvent (map fst (_events (self w))) \/ consumers w = 0).
  { destruct (in_dec string_dec contractEvent (map fst (_events (self w))))
      as [Hin|Hout]; [now left | right].
    unfold consumers, listenerCount. now rewrite listeners_of_absent. }
  destruct (detach_events (map fst (_events (self w))) w Hd Hc)
    as (Hd1 & Hc1 & Hu1 & Hs1).
  fold w1 in Hd1, Hc1, Hu1, Hs1.
  destruct Hd1 as [_ _ (ch1 & Hch1 & Hatt1)].
  rewrite Hc1 in Hatt1. cbn [Nat.eqb] in Hatt1.
  unfold unsubscribe_due in Hu1. rewrite Hch1, Hch, Hc1 in Hu1.
  rewrite Hch1, Hch in Hs1. cbn [option_map Nat.eqb] in Hu1, Hs1.
  injection Hu1 as Hu1. injection Hs1 as Hs1.
  destruct (removeAllListenersOf_other_event "removeListener" w1 eq_refl)
    as (Hh2 & Hr2 & _).
  exists ch1. split; [|split; [exact Hatt1 | split; [lia | exact Hs1]]].
  rewrite <- Hch1. apply read_channel_frame; cbn [with_self with_events self heap _readClient]; assumption.
Qed.

Lemma channel_disconnect_read (c : ChanRef) (w : World) (ch : RPCClient) :
  read_channel w = Some ch ->
  exists ch',
    read_channel (channel_disconnect c w) = Some ch'
    /\ subscriptions ch' = subscriptions ch
    /\ on_calls ch' = on_calls ch
    /\ removeListener_calls ch' = removeListener_calls ch.
Proof.
  intros Hch. unfold read_channel, channel_disconnect in *.
  rewrite update_channel_self.
  destruct (Nat.eq_dec (_readClient (self w)) c) as [<-|Hne].
  - exists (channel_closed ch). split; [now apply channel_update_same | auto].
  - exists ch. split; [|auto]. now rewrite channel_update_other.
Qed.

Lemma disconnect_read_channel (w : World) (ch : RPCClient) :
  read_channel (removeAllListeners w) = Some ch ->
  exists ch',
    read_channel (disconnect w) = Some ch'
    /\ attached_count ch' = attached_count ch
    /\ unsubscribe_calls ch' = unsubscribe_calls ch
    /\ subscribe_calls ch' = subscribe_calls ch.
Proof.
  intros Hch. unfold disconnect. cbv zeta.
  set (w1 := removeAllListeners w) in *.
  destruct (channel_disconnect_read (_writeClient (self w1)) w1 ch Hch)
    as (ch2 & Hch2 & Hs2 & Ho2 & Hr2).
  set (w2 := channel_disconnect (_writeClient (self w1)) w1) in *.
  unfold attached_count, unsubscribe_calls, subscribe_calls.
  destruct (negb (_readClient (self w2) =? _writeClient (self w2))%nat).
  - destruct (channel_disconnect_read (_readClient (self w2)) w2 ch2 Hch2)
      as (ch3 & Hch3 & Hs3 & Ho3 & Hr3).
    exists ch3. rewrite Hs3, Ho3, Hr3, Hs2, Ho2, Hr2. auto.
  - exists ch2. rewrite Hs2, Ho2, Hr2. auto.
Qed.

Lemma subscribed_lazily_detachable (w : World) :
  subscribed_lazily w -> detachable w.
Proof. intros [_ Hr Hk Ha]. constructor; assumption. Qed.

(** X14: [disconnect()] leaves no [emitContractEvent] on the read channel.
    On a client built by the constructor and used through [on] and
    [removeListener] with application callbacks, the handler is detached by
    exactly one [removeListener] call of the channel when there were
    Contract listeners, and by none when there were not; the channel's [on]
    is not called. *)
Theorem disconnect_detaches_handler (net : string -> Node) (chain : string)
  (writeClient : ClientArg) (readClient : option ClientArg) (h : list RPCClient)
  (ops : list Registration) :
  arg_valid h writeClient ->
  (forall rc, readClient = Some rc -> arg_valid h rc) ->
  fresh_store h ->
  let w := register_all ops (constructor net chain writeClient readClient h) in
  exists ch ch',
    read_channel w = Some ch
    /\ read_channel (disconnect w) = Some ch'
    /\ attached_count ch' = 0
    /\ unsubscribe_calls ch'
       = unsubscribe_calls ch + (if (consumers w =? 0)%nat then 0 else 1)
    /\ subscribe_calls ch' = subscribe_calls ch.
Proof.
  intros Hvw Hvr Hh. cbv zeta.
  destruct (constructor_subscribed_lazily net chain writeClient readClient h
              Hvw Hvr Hh) as (H0 & _).
  pose proof (subscribed_lazily_register_all ops _ H0) as Hsl.
  set (w := register_all ops _) in *.
  pose proof (subscribed_lazily_detachable w Hsl) as Hd.
  pose proof Hd as [_ _ (ch & Hch & _)].
  destruct (removeAllListeners_detaches w ch Hd Hch) as (ch1 & Hch1 & Ha1 & Hu1 & Hs1).
  destruct (disconnect_read_channel w ch1 Hch1) as (ch2 & Hch2 & Ha2 & Hu2 & Hs2).
  exists ch, ch2. repeat split; try assumption; congruence.
Qed.

Lemma disconnect_detaches_handler_witness :
  let w := register_all [Register contractEvent 1; Register contractEvent 2]
             (single_channel_world no_reply) in
  exists ch ch',
    read_channel w = Some ch
    /\ read_channel (disconnect w) = Some ch'
    /\ attached_count ch' = 0
    /\ unsubscribe_calls ch' = unsubscribe_calls ch + 1
    /\ subscribe_calls ch' = subscribe_calls ch.
Proof.
  intros w.
  assert (Hv : forall rc, None = Some rc -> arg_valid [] rc)
    by (intros rc E; discriminate E).
  exact (disconnect_detaches_handler (fun _ => no_reply) "default"
           (ArgUrl "ws://node/websocket") None []
           [Register contractEvent 1; Register contractEvent 2]
           I Hv (Forall_nil _)).
Defined.
